(** * JanusClient: the signalling core of the Spaces client

    A shallow embedding of [src/core/JanusClient.ts]: the event emitter the
    class extends, the registry of event waiters, the long-poll loop, the
    session and handle requests, the publisher connection with its ICE
    handler, the subscriber connections and [stop].

    Conventions of the embedding.
    - The client object is a record [Client]; every method is a function in
      the monad [M], which threads the client and ends in a value, a thrown
      error or a promise that never settles.
    - What the platform decides (a REST response, the result of a WebRTC call,
      what arrives on the emitter while a method is suspended at an [await])
      is an explicit argument of the method.
    - Every observable effect (a log line, an [emit], a REST request, a timer,
      a WebRTC call) is appended to the [trace] of the client, in order.
    - A peer connection is a reference (an index) into [conns]: two
      references are the same JavaScript object iff they are the same index. *)

From stdpp Require Import base gmap list strings.
From Stdlib Require Import ZArith Lia.

#[local] Open Scope Z_scope.
#[local] Open Scope string_scope.

(** ** Values *)

(** The double quote character, for the two source strings that contain one. *)
Definition dq : string :=
  String (Ascii.Ascii false true false false false true false false) EmptyString.

Inductive Level := Debug | Info | Warn | Error.

(** [Error] objects. The template literals of the source are kept as
    structure: a context string and the interpolated parts. *)
Inductive Err :=
| Msg (m : string)
| Http (ctx : string) (status : Z) (text : string)
| BadEnvelope (ctx : string) (janus : string)
| Wrapped (ctx : string) (cause : Err)
| TypeError (what : string)
| Platform (what : string).

Record Publisher := mkPublisher {
  pub_id : Z;
  pub_display : string;
  pub_periscope_user_id : option string
}.

(** [plugindata.data] of a videoroom event. *)
Record RoomData := mkRoomData {
  videoroom : string;
  data_id : option Z;
  ptype : option string;
  publishers : option (list Publisher);
  reason : option string
}.

Record PluginData := mkPluginData {
  plugin : string;
  data : option RoomData
}.

Record Jsep := mkJsep {
  jsep_type : string;
  sdp : string
}.

(** A decoded gateway event ([interface JanusEvent], with the [jsep] the
    predicates read). *)
Record JanusEvent := mkEvent {
  janus : string;
  sender : option Z;
  plugindata : option PluginData;
  jsep : option Jsep
}.

Record JanusConfig := mkConfig {
  webrtcUrl : string;
  roomId : string;
  credential : string;
  userId : string;
  streamName : string
}.

(** JavaScript truthiness of an optional number: [undefined] and [0] are
    falsy. *)
Definition truthy (o : option Z) : bool :=
  match o with
  | Some n => negb (n =? 0)%Z
  | None => false
  end.

(** [e.plugindata?.plugin] and [e.plugindata?.data?.videoroom] *)
Definition plugin_of (e : JanusEvent) : option string :=
  plugin <$> plugindata e.

Definition data_of (e : JanusEvent) : option RoomData :=
  plugindata e ≫= data.

Definition videoroom_of (e : JanusEvent) : option string :=
  videoroom <$> data_of e.

(** ** Requests *)

(** The [body] of a ["janus":"message"] request. *)
Inductive Body :=
| JoinPublisher (room display : string)
| JoinSubscriber (room user : string) (feed : Z)
| Configure (room user : string) (session_uuid : option string) (stream token : string)
| Start (room user : string).

Inductive Request :=
| ReqCreateSession
| ReqAttach (session : Z)
| ReqCreateRoom (session : Z) (room : string)
| ReqMessage (session handle : Z) (body : Body) (jsep : option Jsep)
| ReqPoll (session : Z).

(** What a [fetch] ends in: it rejects, or it answers with a status, the
    text of the body and the decoded JSON (if the body decodes). *)
Inductive FetchResult (B : Type) :=
| NetworkError (e : Err)
| Response (status : Z) (text : string) (json : option B).
Arguments NetworkError {B} e.
Arguments Response {B} status text json.

(** [resp.ok] *)
Definition resp_ok (status : Z) : bool :=
  (200 <=? status)%Z && (status <=? 299)%Z.

(** The fields the code reads of a [success] envelope. *)
Record Envelope := mkEnvelope {
  env_janus : string;
  env_data_id : Z
}.

(** ** Peer connections *)

Inductive IceState :=
| IceNew | IceChecking | IceConnected | IceCompleted
| IceFailed | IceDisconnected | IceClosed.

#[global] Instance IceState_eq_dec : EqDecision IceState.
Proof. solve_decision. Defined.

(** Which handlers a connection carries: those of [setupPeerEvents] or the
    [oniceconnectionstatechange] of a subscriber. *)
Inductive PcEvents :=
| PublisherEvents
| SubscriberEvents (user : string).

Record PeerConnection := mkPc {
  pc_closed : bool;
  pc_ice : IceState;
  pc_events : option PcEvents;
  pc_local : option Jsep;
  pc_remote : option Jsep;
  pc_tracks : nat
}.

Record Subscription := mkSub {
  sub_handleId : Z;
  sub_pc : nat
}.

(** ** Waiters *)

Inductive Promise :=
| Pending
| Fulfilled (e : JanusEvent)
| Rejected (err : Err).

(** One call of [waitForJanusEventWithPredicate]: the closure of its
    promise executor. [w_timer] says that the [setTimeout] is armed,
    [w_listening] that [eventHandler] is registered on ['janus'];
    [w_resolve_calls] and [w_reject_calls] count the calls of the two
    callbacks of the promise. *)
Record Waiter := mkWaiter {
  w_predicate : JanusEvent → bool;
  w_timeout : Z;
  w_description : string;
  w_timer : bool;
  w_listening : bool;
  w_promise : Promise;
  w_resolve_calls : nat;
  w_reject_calls : nat
}.

(** ** Trace *)

Inductive Payload :=
| PErr (e : Err)
| PEvent (e : JanusEvent)
| PPublishers (l : list Publisher)
| PData (d : RoomData)
| PSubscribed (user : string) (feed : Z).

Inductive Callback :=
| RejectWaiter (w : nat)
| DoPoll.

Inductive Action :=
| Log (lvl : Level) (msg : string)
| Emit (name : string) (p : Payload)
| Fetch (req : Request)
| SetTimeout (cb : Callback) (ms : Z)
| ClearTimeout (w : nat)
| On (w : nat)
| RemoveListener (w : nat)
| Handler (w : nat) (e : JanusEvent)
| Resolve (w : nat)
| Reject (w : nat)
| NewPc (pc : nat)
| ClosePc (pc : nat)
| CreateOffer (pc : nat) (iceRestart : bool)
| CreateAnswer (pc : nat)
| SetLocalDescription (pc : nat)
| SetRemoteDescription (pc : nat)
| AddTrack (pc : nat)
| PushPcm (samples : list Z) (sampleRate : Z) (channels : Z)
| Invoke (method : string) (user : string) (feed : Z).

(** ** The client *)

Record Client := mkClient {
  config : JanusConfig;
  sessionId : option Z;
  handleId : option Z;
  publisherId : option Z;
  pc : option nat;
  localAudioSource : bool;
  pollActive : bool;
  subscribers : gmap string Subscription;
  (* the emitter: the waiters' handlers on 'janus', and the names on which
     the application has registered listeners of its own *)
  waiters : list Waiter;
  listeners : list string;
  (* the connections created so far *)
  conns : list PeerConnection;
  trace : list Action
}.

(** [new JanusClient(config)] *)
Definition new_client (cfg : JanusConfig) (app_listeners : list string) : Client :=
  {| config := cfg; sessionId := None; handleId := None; publisherId := None;
     pc := None; localAudioSource := false; pollActive := false;
     subscribers := ∅; waiters := []; listeners := app_listeners;
     conns := []; trace := [] |}.

Definition set_sessionId (v : option Z) (c : Client) : Client :=
  {| config := config c; sessionId := v; handleId := handleId c;
     publisherId := publisherId c; pc := pc c;
     localAudioSource := localAudioSource c; pollActive := pollActive c;
     subscribers := subscribers c; waiters := waiters c;
     listeners := listeners c; conns := conns c; trace := trace c |}.

Definition set_handleId (v : option Z) (c : Client) : Client :=
  {| config := config c; sessionId := sessionId c; handleId := v;
     publisherId := publisherId c; pc := pc c;
     localAudioSource := localAudioSource c; pollActive := pollActive c;
     subscribers := subscribers c; waiters := waiters c;
     listeners := listeners c; conns := conns c; trace := trace c |}.

Definition set_publisherId (v : option Z) (c : Client) : Client :=
  {| config := config c; sessionId := sessionId c; handleId := handleId c;
     publisherId := v; pc := pc c;
     localAudioSource := localAudioSource c; pollActive := pollActive c;
     subscribers := subscribers c; waiters := waiters c;
     listeners := listeners c; conns := conns c; trace := trace c |}.

Definition set_pc (v : option nat) (c : Client) : Client :=
  {| config := config c; sessionId := sessionId c; handleId := handleId c;
     publisherId := publisherId c; pc := v;
     localAudioSource := localAudioSource c; pollActive := pollActive c;
     subscribers := subscribers c; waiters := waiters c;
     listeners := listeners c; conns := conns c; trace := trace c |}.

Definition set_localAudioSource (v : bool) (c : Client) : Client :=
  {| config := config c; sessionId := sessionId c; handleId := handleId c;
     publisherId := publisherId c; pc := pc c;
     localAudioSource := v; pollActive := pollActive c;
     subscribers := subscribers c; waiters := waiters c;
     listeners := listeners c; conns := conns c; trace := trace c |}.

Definition set_pollActive (v : bool) (c : Client) : Client :=
  {| config := config c; sessionId := sessionId c; handleId := handleId c;
     publisherId := publisherId c; pc := pc c;
     localAudioSource := localAudioSource c; pollActive := v;
     subscribers := subscribers c; waiters := waiters c;
     listeners := listeners c; conns := conns c; trace := trace c |}.

Definition set_subscribers (v : gmap string Subscription) (c : Client) : Client :=
  {| config := config c; sessionId := sessionId c; handleId := handleId c;
     publisherId := publisherId c; pc := pc c;
     localAudioSource := localAudioSource c; pollActive := pollActive c;
     subscribers := v; waiters := waiters c;
     listeners := listeners c; conns := conns c; trace := trace c |}.

Definition set_waiters (v : list Waiter) (c : Client) : Client :=
  {| config := config c; sessionId := sessionId c; handleId := handleId c;
     publisherId := publisherId c; pc := pc c;
     localAudioSource := localAudioSource c; pollActive := pollActive c;
     subscribers := subscribers c; waiters := v;
     listeners := listeners c; conns := conns c; trace := trace c |}.

Definition set_conns (v : list PeerConnection) (c : Client) : Client :=
  {| config := config c; sessionId := sessionId c; handleId := handleId c;
     publisherId := publisherId c; pc := pc c;
     localAudioSource := localAudioSource c; pollActive := pollActive c;
     subscribers := subscribers c; waiters := waiters c;
     listeners := listeners c; conns := v; trace := trace c |}.

Definition set_trace (v : list Action) (c : Client) : Client :=
  {| config := config c; sessionId := sessionId c; handleId := handleId c;
     publisherId := publisherId c; pc := pc c;
     localAudioSource := localAudioSource c; pollActive := pollActive c;
     subscribers := subscribers c; waiters := waiters c;
     listeners := listeners c; conns := conns c; trace := v |}.

(** ** The monad of methods *)

(** A method returns, throws (an [async] method: its promise rejects), or
    awaits a promise that never settles. *)
Inductive Outcome (A : Type) :=
| Ok (a : A)
| Throw (e : Err)
| Hang.
Arguments Ok {A} a.
Arguments Throw {A} e.
Arguments Hang {A}.

Definition M (A : Type) : Type := Client → Outcome A * Client.

Definition ret {A} (a : A) : M A := λ c, (Ok a, c).

Definition bind {A B} (m : M A) (k : A → M B) : M B :=
  λ c, match m c with
       | (Ok a, c') => k a c'
       | (Throw e, c') => (Throw e, c')
       | (Hang, c') => (Hang, c')
       end.

Declare Scope janus_scope.
Delimit Scope janus_scope with J.
Notation "x ← y ; z" := (bind y (λ x, z))
  (at level 20, y at level 100, z at level 200, only parsing) : janus_scope.
Notation "' x ← y ; z" := (bind y (λ x, z))
  (at level 20, x pattern, y at level 100, z at level 200, only parsing) : janus_scope.
Notation "x ;; z" := (bind x (λ _, z))
  (at level 100, z at level 200, only parsing, right associativity) : janus_scope.
#[local] Open Scope janus_scope.

Definition throw {A} (e : Err) : M A := λ c, (Throw e, c).

(** [try { body } catch (error) { handler }] *)
Definition try_catch {A} (body : M A) (handler : Err → M A) : M A :=
  λ c, match body c with
       | (Throw e, c') => handler e c'
       | r => r
       end.

Definition gets {A} (f : Client → A) : M A := λ c, (Ok (f c), c).

Definition modify (f : Client → Client) : M unit := λ c, (Ok tt, f c).

Definition act (a : Action) : M unit :=
  modify (λ c, set_trace (trace c ++ [a]) c).

(** [this.logger.debug/info/warn/error(msg, ...)]: the logger returns. *)
Definition log (lvl : Level) (msg : string) : M unit := act (Log lvl msg).

(** Runs a method for its effect on the client. *)
Definition exec {A} (m : M A) (c : Client) : Client := (m c).2.

Definition result {A} (m : M A) (c : Client) : Outcome A := (m c).1.

Definition hang {A} : M A := λ c, (Hang, c).

Fixpoint for_each {A} (l : list A) (f : A → M unit) : M unit :=
  match l with
  | [] => ret tt
  | x :: l' => f x;; for_each l' f
  end.

(** ** The event emitter and the waiters' closures *)

Definition with_timer (b : bool) (w : Waiter) : Waiter :=
  mkWaiter (w_predicate w) (w_timeout w) (w_description w) b (w_listening w)
           (w_promise w) (w_resolve_calls w) (w_reject_calls w).

Definition with_listening (b : bool) (w : Waiter) : Waiter :=
  mkWaiter (w_predicate w) (w_timeout w) (w_description w) (w_timer w) b
           (w_promise w) (w_resolve_calls w) (w_reject_calls w).

(** [resolve(event)]: counted; it settles the promise only if it is pending. *)
Definition resolved (e : JanusEvent) (w : Waiter) : Waiter :=
  mkWaiter (w_predicate w) (w_timeout w) (w_description w) (w_timer w)
           (w_listening w)
           (match w_promise w with Pending => Fulfilled e | p => p end)
           (S (w_resolve_calls w)) (w_reject_calls w).

(** [reject(error)] *)
Definition rejected (err : Err) (w : Waiter) : Waiter :=
  mkWaiter (w_predicate w) (w_timeout w) (w_description w) (w_timer w)
           (w_listening w)
           (match w_promise w with Pending => Rejected err | p => p end)
           (w_resolve_calls w) (S (w_reject_calls w)).

Definition upd_waiter (i : nat) (f : Waiter → Waiter) (c : Client) : Client :=
  set_waiters (alter f i (waiters c)) c.

Definition clearTimeout (i : nat) : M unit :=
  act (ClearTimeout i);; modify (upd_waiter i (with_timer false)).

(** [this.removeListener('janus', eventHandler)] *)
Definition removeListener (i : nat) : M unit :=
  act (RemoveListener i);; modify (upd_waiter i (with_listening false)).

Definition resolve (i : nat) (e : JanusEvent) : M unit :=
  act (Resolve i);; modify (upd_waiter i (resolved e)).

Definition reject (i : nat) (err : Err) : M unit :=
  act (Reject i);; modify (upd_waiter i (rejected err)).

(** The [eventHandler] closure of waiter [i]. *)
Definition eventHandler (i : nat) (event : JanusEvent) : M unit :=
  ow ← gets (λ c, waiters c !! i);
  match ow with
  | None => ret tt
  | Some w =>
      act (Handler i event);;
      if w_predicate w event then
        clearTimeout i;;
        removeListener i;;
        resolve i event
      else ret tt
  end.

(** The handlers registered on ['janus'] when an [emit] starts, in the order
    of their registration. *)
Definition janus_listeners (c : Client) : list nat :=
  filter (λ i, (w_listening <$> waiters c !! i) = Some true)
         (seq 0 (length (waiters c))).

Definition error_of (p : Payload) : Err :=
  match p with
  | PErr e => e
  | _ => Msg "Unhandled error."
  end.

(** [this.emit(name, payload)] of the Node.js emitter: the listeners of
    [name] are called in order; an ['error'] nobody listens to is thrown.
    The application's own listeners return and do not call the client. *)
Definition emit (name : string) (p : Payload) : M unit :=
  act (Emit name p);;
  if name =? "janus" then
    match p with
    | PEvent e => hs ← gets janus_listeners; for_each hs (λ i, eventHandler i e)
    | _ => ret tt
    end
  else
    ls ← gets listeners;
    if (name =? "error") && negb (bool_decide (name ∈ ls)) then throw (error_of p)
    else ret tt.

(** The callback of the waiter's [setTimeout]. *)
Definition timeout_error (description : string) : Err :=
  Msg ("[JanusClient] Timeout waiting for " +:+ description +:+ " event").

Definition timeout_fires (i : nat) : M unit :=
  ow ← gets (λ c, waiters c !! i);
  match ow with
  | Some w =>
      if w_timer w then
        modify (upd_waiter i (with_timer false));;
        reject i (timeout_error (w_description w))
      else ret tt
  | None => ret tt
  end.

(** [waitForJanusEventWithPredicate]: the promise executor runs at once; the
    result is the (reference of the) promise. *)
Definition waitForJanusEventWithPredicate
    (predicate : JanusEvent → bool) (timeout : Z) (description : string) : M nat :=
  i ← gets (λ c, length (waiters c));
  modify (λ c, set_waiters
     (waiters c ++ [mkWaiter predicate timeout description true true Pending 0 0]) c);;
  act (SetTimeout (RejectWaiter i) timeout);;
  act (On i);;
  ret i.

(** ** Processing of gateway events and the long-poll loop *)

Definition handleJanusEvent (evt : JanusEvent) : M unit :=
  if janus evt =? "" then ret tt
  else
    log Debug "[JanusClient] Received Janus event:";;
    if janus evt =? "keepalive" then
      log Debug "[JanusClient] Keepalive received"
    else if janus evt =? "event" then
      if bool_decide (plugin_of evt = Some "janus.plugin.videoroom") then
        match data_of evt with
        | None => throw (TypeError "data.videoroom")
        | Some data =>
            if videoroom data =? "joined" then
              log Info "[JanusClient] Joined room as"
            else if videoroom data =? "attached" then
              log Info "[JanusClient] Attached to stream:"
            else if videoroom data =? "event" then
              match publishers data with
              | Some l =>
                  log Info "[JanusClient] Publishers list updated:";;
                  emit "publishersUpdated" (PPublishers l)
              | None => ret tt
              end
            else if videoroom data =? "webrtcup" then
              log Info "[JanusClient] WebRTC connection established"
            else if videoroom data =? "hangup" then
              log Warn "[JanusClient] Connection hung up:";;
              emit "hangup" (PData data)
            else log Debug "[JanusClient] Unknown videoroom event:"
        end
      else ret tt
    else if janus evt =? "success" then
      log Debug "[JanusClient] Success response received"
    else log Warn "[JanusClient] Unknown Janus event type:".

(** One run of [doPoll], with the result of its [fetch]. The [try] block
    returns [true] where the source returns from [doPoll]. *)
Definition doPoll (r : FetchResult JanusEvent) : M unit :=
  active ← gets pollActive;
  sid ← gets sessionId;
  if negb active || negb (truthy sid) then
    log Debug "[JanusClient] Polling stopped"
  else
    returned ← try_catch (A := bool)
      (act (Fetch (ReqPoll (default 0 sid)));;
       match r with
       | NetworkError e => throw e
       | Response status _ json =>
           if resp_ok status then
             match json with
             | None => throw (Platform "resp.json")
             | Some event => handleJanusEvent event;; ret false
             end
           else
             log Warn "[JanusClient] poll error =>";;
             if (status =? 404)%Z then
               log Error "[JanusClient] Session not found (404), polling stopped";;
               modify (set_pollActive false);;
               emit "error" (PErr (Msg "[JanusClient] Session not found (404)"));;
               ret true
             else ret false
       end)
      (λ err, log Error "[JanusClient] poll exception =>";; ret false);
    if returned then ret tt else act (SetTimeout DoPoll 500).

(** [startPolling]: [doPoll] is called at once. *)
Definition startPolling (r : FetchResult JanusEvent) : M unit :=
  log Debug "[JanusClient] Starting polling...";;
  doPoll r.

(** ** What happens while a method is suspended *)

(** While a method awaits, the event loop runs other callbacks of the
    client: the timer of the poll loop ([doPoll] with the result of its
    fetch), an [emit('janus', e)], the timeout of a waiter. *)
Inductive BusInput :=
| PollTick (r : FetchResult JanusEvent)
| Emitted (e : JanusEvent)
| Elapsed (w : nat).

Definition bus_step (a : BusInput) : M unit :=
  match a with
  | PollTick r => doPoll r
  | Emitted e => emit "janus" (PEvent e)
  | Elapsed w => timeout_fires w
  end.

Definition arrive (l : list BusInput) : M unit := for_each l bus_step.

Definition promise_of (i : nat) (c : Client) : Promise :=
  default Pending (w_promise <$> waiters c !! i).

(** [await promise] for the promise of waiter [i]: [arrivals] is what the
    event loop runs, in order, until the promise settles; when nothing more
    arrives the time passes and the timeout of the waiter elapses. *)
Fixpoint await_waiter (i : nat) (arrivals : list BusInput) : M JanusEvent :=
  p ← gets (promise_of i);
  match p with
  | Fulfilled e => ret e
  | Rejected err => throw err
  | Pending =>
      match arrivals with
      | a :: rest => bus_step a;; await_waiter i rest
      | [] =>
          timeout_fires i;;
          p' ← gets (promise_of i);
          match p' with
          | Fulfilled e => ret e
          | Rejected err => throw err
          | Pending => hang
          end
      end
  end.

(** An awaited [fetch]: what arrives while it is in flight, and its result. *)
Record Fetched (B : Type) := mkFetched {
  during : list BusInput;
  outcome : FetchResult B
}.
Arguments mkFetched {B} during outcome.
Arguments during {B} f.
Arguments outcome {B} f.

Definition fetch {B} (req : Request) (f : Fetched B) : M (Z * string * option B) :=
  act (Fetch req);;
  arrive (during f);;
  match outcome f with
  | NetworkError e => throw e
  | Response status text json => ret (status, text, json)
  end.

(** A call into the platform (WebRTC, the audio source) returns or throws. *)
Inductive Call (A : Type) :=
| Returns (a : A)
| Throws (e : Err).
Arguments Returns {A} a.
Arguments Throws {A} e.

Definition call {A} (r : Call A) : M A :=
  match r with
  | Returns a => ret a
  | Throws e => throw e
  end.

(** ** Session and handle requests *)

Definition createSession (f : Fetched Envelope) : M Z :=
  try_catch
    ('(status, text, json) ← fetch ReqCreateSession f;
     if negb (resp_ok status) then
       let error := Http "[JanusClient] Session creation failed" status text in
       log Error "[JanusClient] Session creation failed";;
       emit "error" (PErr error);;
       throw error
     else
       match json with
       | None => throw (Platform "resp.json")
       | Some json =>
           if negb (env_janus json =? "success") then
             let error :=
               BadEnvelope "[JanusClient] Invalid session response" (env_janus json) in
             log Error "[JanusClient] Invalid session response";;
             emit "error" (PErr error);;
             throw error
           else
             log Debug "[JanusClient] Session created, ID:";;
             ret (env_data_id json)
       end)
    (λ error,
       log Error "[JanusClient] Failed to create session:";;
       emit "error" (PErr (Wrapped "[JanusClient] Session creation failed" error));;
       throw error).

Definition attachPlugin (f : Fetched Envelope) : M Z :=
  sid ← gets sessionId;
  if negb (truthy sid) then throw (Msg "[JanusClient] attachPlugin => no sessionId")
  else
    try_catch
      ('(status, text, json) ← fetch (ReqAttach (default 0 sid)) f;
       if negb (resp_ok status) then
         let error := Http "[JanusClient] attachPlugin failed" status text in
         log Error "[JanusClient] attachPlugin failed";;
         emit "error" (PErr error);;
         throw error
       else
         match json with
         | None => throw (Platform "resp.json")
         | Some json =>
             if negb (env_janus json =? "success") then
               let error :=
                 BadEnvelope "[JanusClient] attachPlugin invalid response" (env_janus json) in
               log Error "[JanusClient] attachPlugin invalid response";;
               emit "error" (PErr error);;
               throw error
             else
               log Debug "[JanusClient] Plugin attached, handle ID:";;
               ret (env_data_id json)
         end)
      (λ error,
         log Error "[JanusClient] Failed to attach to plugin:";;
         emit "error" (PErr (Wrapped "[JanusClient] Plugin attachment failed" error));;
         throw error).

Definition createRoom (f : Fetched Envelope) : M unit :=
  hid ← gets handleId;
  if negb (truthy hid) then throw (Msg "[JanusClient] createRoom => no handleId")
  else
    sid ← gets sessionId;
    room ← gets (λ c, roomId (config c));
    try_catch
      ('(status, text, json) ← fetch (ReqCreateRoom (default 0 sid) room) f;
       if negb (resp_ok status) then
         let error := Http "[JanusClient] Room creation failed" status text in
         log Error "[JanusClient] Room creation failed";;
         emit "error" (PErr error);;
         throw error
       else
         match json with
         | None => throw (Platform "resp.json")
         | Some json =>
             if negb (env_janus json =? "success") then
               let error :=
                 BadEnvelope "[JanusClient] Invalid room response" (env_janus json) in
               log Error "[JanusClient] Invalid room response";;
               emit "error" (PErr error);;
               throw error
             else log Debug "[JanusClient] Room created, ID:"
         end)
      (λ error,
         log Error "[JanusClient] Failed to create room:";;
         emit "error" (PErr (Wrapped "[JanusClient] Room creation failed" error));;
         throw error).

(** [sendJanusMessage(handleId, body, jsep)] *)
Definition sendJanusMessage
    (handle : Z) (body : Body) (jsep : option Jsep) (f : Fetched unit) : M unit :=
  sid ← gets sessionId;
  if negb (truthy sid) then throw (Msg "[JanusClient] No session for sendJanusMessage")
  else
    try_catch
      ('(status, text, _) ← fetch (ReqMessage (default 0 sid) handle body jsep) f;
       if negb (resp_ok status) then
         throw (Http "[JanusClient] sendJanusMessage failed" status text)
       else ret tt)
      (λ error,
         log Error "[JanusClient] Failed to send Janus message:";;
         throw error).

(** The predicate of the two publisher joins. *)
Definition joined_predicate (e : JanusEvent) : bool :=
  (janus e =? "event")
  && bool_decide (plugin_of e = Some "janus.plugin.videoroom")
  && bool_decide (videoroom_of e = Some "joined").

Record JoinEnv := mkJoinEnv {
  je_send : Fetched unit;
  je_joined : list BusInput
}.

(** [joinRoom] (host): the promise of the waiter is created, the join is
    sent, the promise is awaited. *)
Definition joinRoom (env : JoinEnv) : M (option Z) :=
  sid ← gets sessionId;
  hid ← gets handleId;
  if negb (truthy sid) || negb (truthy hid) then
    throw (Msg "[JanusClient] no session/handle for joinRoom()")
  else
    log Debug "[JanusClient] joinRoom => start";;
    try_catch
      (evtPromise ← waitForJanusEventWithPredicate
                      joined_predicate 12000 "Host Joined Event";
       room ← gets (λ c, roomId (config c));
       user ← gets (λ c, userId (config c));
       sendJanusMessage (default 0 hid) (JoinPublisher room user) None (je_send env);;
       evt ← await_waiter evtPromise (je_joined env);
       match data_of evt with
       | None => throw (TypeError "evt.plugindata.data")
       | Some d =>
           log Debug "[JanusClient] joined room => publisherId=";;
           ret (data_id d)
       end)
      (λ error,
         log Error "[JanusClient] Failed to join room:";;
         throw error).

(** ** The publisher connection *)

Definition upd_conn (n : nat) (f : PeerConnection → PeerConnection) (c : Client) : Client :=
  set_conns (alter f n (conns c)) c.

Definition with_closed (p : PeerConnection) : PeerConnection :=
  mkPc true IceClosed (pc_events p) (pc_local p) (pc_remote p) (pc_tracks p).

Definition with_ice (st : IceState) (p : PeerConnection) : PeerConnection :=
  mkPc (pc_closed p) st (pc_events p) (pc_local p) (pc_remote p) (pc_tracks p).

Definition with_events (ev : PcEvents) (p : PeerConnection) : PeerConnection :=
  mkPc (pc_closed p) (pc_ice p) (Some ev) (pc_local p) (pc_remote p) (pc_tracks p).

Definition with_local (d : Jsep) (p : PeerConnection) : PeerConnection :=
  mkPc (pc_closed p) (pc_ice p) (pc_events p) (Some d) (pc_remote p) (pc_tracks p).

Definition with_remote (d : Jsep) (p : PeerConnection) : PeerConnection :=
  mkPc (pc_closed p) (pc_ice p) (pc_events p) (pc_local p) (Some d) (pc_tracks p).

Definition with_track (p : PeerConnection) : PeerConnection :=
  mkPc (pc_closed p) (pc_ice p) (pc_events p) (pc_local p) (pc_remote p) (S (pc_tracks p)).

(** [new RTCPeerConnection(...)] *)
Definition new_pc (r : Call unit) : M nat :=
  call r;;
  n ← gets (λ c, length (conns c));
  modify (λ c, set_conns (conns c ++ [mkPc false IceNew None None None 0]) c);;
  act (NewPc n);;
  ret n.

Definition pc_close (n : nat) (r : Call unit) : M unit :=
  act (ClosePc n);;
  call r;;
  modify (upd_conn n with_closed).

Definition pc_createOffer (n : nat) (iceRestart : bool) (r : Call string) : M Jsep :=
  act (CreateOffer n iceRestart);;
  s ← call r;
  ret (mkJsep "offer" s).

Definition pc_createAnswer (n : nat) (r : Call string) : M Jsep :=
  act (CreateAnswer n);;
  s ← call r;
  ret (mkJsep "answer" s).

Definition pc_setLocalDescription (n : nat) (d : Jsep) (r : Call unit) : M unit :=
  act (SetLocalDescription n);;
  call r;;
  modify (upd_conn n (with_local d)).

Definition pc_setRemoteDescription (n : nat) (d : Jsep) (r : Call unit) : M unit :=
  act (SetRemoteDescription n);;
  call r;;
  modify (upd_conn n (with_remote d)).

(** [setupPeerEvents] attaches the three listeners to [this.pc]. *)
Definition setupPeerEvents : M unit :=
  p ← gets pc;
  match p with
  | Some n => modify (upd_conn n (with_events PublisherEvents))
  | None => ret tt
  end.

Definition setupPeerConnection (r : Call unit) : M unit :=
  log Debug "[JanusClient] Setting up peer connection with ICE servers:";;
  n ← new_pc r;
  modify (set_pc (Some n));;
  setupPeerEvents.

Record AudioEnv := mkAudioEnv {
  ae_newSource : Call unit;
  ae_getTrack : Call unit;
  ae_newStream : Call unit;
  ae_addTrack : Call unit
}.

Definition enableLocalAudio (env : AudioEnv) : M unit :=
  p ← gets pc;
  match p with
  | None => log Warn "[JanusClient] enableLocalAudio => No RTCPeerConnection"
  | Some n =>
      src ← gets localAudioSource;
      if src then log Debug "[JanusClient] localAudioSource already active"
      else
        try_catch
          (call (ae_newSource env);;
           modify (set_localAudioSource true);;
           call (ae_getTrack env);;
           call (ae_newStream env);;
           act (AddTrack n);;
           call (ae_addTrack env);;
           modify (upd_conn n with_track))
          (λ error, log Error "[JanusClient] Failed to enable local audio:")
  end.

(** [pushLocalAudio(samples, sampleRate, channels)]; [push] is what
    [pushPcmData] of the audio source does with the frame. *)
Definition pushLocalAudio
    (env : AudioEnv) (push : Call unit)
    (samples : list Z) (sampleRate : Z) (channels : Z) : M unit :=
  src ← gets localAudioSource;
  (if negb src then
     log Warn "[JanusClient] No localAudioSource => enabling now...";;
     enableLocalAudio env
   else ret tt);;
  try_catch
    (src' ← gets localAudioSource;
     if src' then
       act (PushPcm samples sampleRate channels);;
       call push
     else ret tt)
    (λ error, log Error "[JanusClient] Error pushing local audio:").

Record OfferEnv := mkOfferEnv {
  oe_createOffer : Call string;
  oe_setLocalDescription : Call unit;
  oe_send : Fetched unit
}.

Definition configurePublisher (sessionUUID : string) (env : OfferEnv) : M unit :=
  p ← gets pc;
  sid ← gets sessionId;
  hid ← gets handleId;
  match p with
  | Some n =>
      if negb (truthy sid) || negb (truthy hid) then ret tt
      else
        try_catch
          (log Debug "[JanusClient] createOffer...";;
           offer ← pc_createOffer n false (oe_createOffer env);
           pc_setLocalDescription n offer (oe_setLocalDescription env);;
           log Debug "[JanusClient] sending configure with JSEP...";;
           cfg ← gets config;
           sendJanusMessage (default 0 hid)
             (Configure (roomId cfg) (userId cfg) (Some sessionUUID)
                        (streamName cfg) (credential cfg))
             (Some offer) (oe_send env);;
           log Debug "[JanusClient] waiting for answer...")
          (λ error,
             log Error "[JanusClient] Failed to configure publisher:";;
             throw error)
  | None => ret tt
  end.

Definition restartIce (env : OfferEnv) : M unit :=
  p ← gets pc;
  hid ← gets handleId;
  match p with
  | Some n =>
      if negb (truthy hid) then
        log Warn "[JanusClient] Cannot restart ICE: no PC or handleId"
      else
        try_catch
          (log Info "[JanusClient] Attempting to restart ICE negotiation...";;
           offer ← pc_createOffer n true (oe_createOffer env);
           pc_setLocalDescription n offer (oe_setLocalDescription env);;
           cfg ← gets config;
           sendJanusMessage (default 0 hid)
             (Configure (roomId cfg) (userId cfg) None
                        (streamName cfg) (credential cfg))
             (Some offer) (oe_send env);;
           log Info "[JanusClient] ICE restart initiated")
          (λ error, log Error "[JanusClient] ICE restart failed:")
  | None => log Warn "[JanusClient] Cannot restart ICE: no PC or handleId"
  end.

(** The ['iceconnectionstatechange'] listener of [setupPeerEvents]: it reads
    the state of [this.pc] and calls [restartIce] at once. *)
Definition publisher_ice_listener (env : OfferEnv) : M unit :=
  log Debug "[JanusClient] ICE connection state:";;
  st ← gets (λ c, pc_ice <$> (pc c ≫= (λ n, conns c !! n)));
  if bool_decide (st = Some IceDisconnected) then
    log Warn "[JanusClient] ICE connection disconnected, attempting restart...";;
    restartIce env
  else ret tt.

(** The [oniceconnectionstatechange] of the connection of a subscriber. *)
Definition subscriber_ice_listener (n : nat) (user : string) : M unit :=
  log Debug "[JanusClient] Subscriber ICE state for";;
  st ← gets (λ c, pc_ice <$> conns c !! n);
  if bool_decide (st = Some IceFailed) then
    log Warn ("[JanusClient] Subscriber ICE connection failed for " +:+ user);;
    emit "warning"
      (PErr (Msg ("[JanusClient] Subscriber ICE connection failed for " +:+ user)))
  else ret tt.

(** The platform reports, at time [t] (in ms), that the ICE state of
    connection [n] has become [st]: the listeners of that connection run.
    No listener reads the clock. *)
Definition ice_state_change
    (t : Z) (n : nat) (st : IceState) (env : OfferEnv) : M unit :=
  modify (upd_conn n (with_ice st));;
  ev ← gets (λ c, conns c !! n ≫= pc_events);
  match ev with
  | Some PublisherEvents => publisher_ice_listener env
  | Some (SubscriberEvents user) => subscriber_ice_listener n user
  | None => ret tt
  end.

Record IceNotice := mkIceNotice {
  in_time : Z;
  in_conn : nat;
  in_state : IceState;
  in_env : OfferEnv
}.

Definition ice_timeline (l : list IceNotice) : M unit :=
  for_each l (λ x, ice_state_change (in_time x) (in_conn x) (in_state x) (in_env x)).

(** ** Subscribers *)

Definition discovery_description : string :=
  "discover feed_id from " +:+ dq +:+ "publishers" +:+ dq.

Definition publishers_predicate (e : JanusEvent) : bool :=
  (janus e =? "event")
  && bool_decide (plugin_of e = Some "janus.plugin.videoroom")
  && bool_decide (videoroom_of e = Some "event")
  && match data_of e ≫= publishers with
     | Some l => bool_decide (0 < length l)%nat
     | None => false
     end.

Definition attached_predicate (subscriberHandleId : Z) (e : JanusEvent) : bool :=
  (janus e =? "event")
  && bool_decide (sender e = Some subscriberHandleId)
  && bool_decide (plugin_of e = Some "janus.plugin.videoroom")
  && bool_decide (videoroom_of e = Some "attached")
  && bool_decide (jsep_type <$> jsep e = Some "offer").

(** [list.find((p) => p.display === userId || p.periscope_user_id === userId)] *)
Definition find_publisher (user : string) (l : list Publisher) : option Publisher :=
  List.find (λ p, (pub_display p =? user)
                  || bool_decide (pub_periscope_user_id p = Some user)) l.

Record SubscribeEnv := mkSubscribeEnv {
  se_attach : Fetched Envelope;
  se_publishers : list BusInput;
  se_join : Fetched unit;
  se_attached : list BusInput;
  se_newPc : Call unit;
  se_setRemoteDescription : Call unit;
  se_createAnswer : Call string;
  se_setLocalDescription : Call unit;
  se_start : Fetched unit
}.

(** The [try] block of [subscribeSpeaker]. *)
Definition subscribe_steps (user : string) (feedId : Z) (env : SubscribeEnv) : M unit :=
  (* 1) a separate plugin handle *)
  subscriberHandleId ← attachPlugin (se_attach env);
  log Debug "[JanusClient] subscriber handle =>";;
  feedId ← (if (feedId =? 0)%Z then
              w ← waitForJanusEventWithPredicate
                    publishers_predicate 8000 discovery_description;
              publishersEvt ← await_waiter w (se_publishers env);
              match data_of publishersEvt ≫= publishers with
              | None => throw (TypeError "publishersEvt.plugindata.data.publishers")
              | Some l =>
                  match find_publisher user l with
                  | None =>
                      throw (Msg ("[JanusClient] subscribeSpeaker => No publisher found for userId="
                                  +:+ user))
                  | Some pub =>
                      log Debug "[JanusClient] found feedId =>";;
                      ret (pub_id pub)
                  end
              end
            else ret feedId);
  emit "subscribedSpeaker" (PSubscribed user feedId);;
  (* 2) join the room as a subscriber *)
  cfg ← gets config;
  sendJanusMessage subscriberHandleId
    (JoinSubscriber (roomId cfg) (userId cfg) feedId) None (se_join env);;
  (* 3) wait for "attached" + jsep.offer *)
  w ← waitForJanusEventWithPredicate
        (attached_predicate subscriberHandleId) 8000 "subscriber attached + offer";
  attachedEvt ← await_waiter w (se_attached env);
  log Debug ("[JanusClient] subscriber => " +:+ dq +:+ "attached" +:+ dq +:+ " with offer");;
  (* 4) a new connection for this feed *)
  subPc ← new_pc (se_newPc env);
  modify (upd_conn subPc (with_events (SubscriberEvents user)));;
  match jsep attachedEvt with
  | None => throw (TypeError "attachedEvt.jsep")
  | Some offer =>
      (* 5) answer the offer *)
      pc_setRemoteDescription subPc offer (se_setRemoteDescription env);;
      answer ← pc_createAnswer subPc (se_createAnswer env);
      pc_setLocalDescription subPc answer (se_setLocalDescription env);;
      (* 6) "start" *)
      sendJanusMessage subscriberHandleId
        (Start (roomId cfg) (userId cfg)) (Some answer) (se_start env);;
      log Debug "[JanusClient] subscriber => done (user=";;
      modify (λ c, set_subscribers
                (<[user := mkSub subscriberHandleId subPc]> (subscribers c)) c)
  end.

Definition subscribe_failed (user : string) (error : Err) : Err :=
  Wrapped ("[JanusClient] Failed to subscribe to speaker " +:+ user) error.

Definition subscribeSpeaker (user : string) (feedId : Z) (env : SubscribeEnv) : M unit :=
  act (Invoke "subscribeSpeaker" user feedId);;
  log Debug "[JanusClient] subscribeSpeaker => userId=";;
  try_catch
    (subscribe_steps user feedId env)
    (λ error,
       log Error ("[JanusClient] Failed to subscribe to speaker " +:+ user +:+ ":");;
       emit "warning" (PErr (subscribe_failed user error))).

(** [Promise.all(publishers.map((pub) => this.subscribeSpeaker(pub.display, pub.id)))],
    the calls taken one after the other; [envs i] is the environment of the
    call for the publisher at position [i]. *)
Fixpoint subscribe_all (i : nat) (l : list Publisher) (envs : nat → SubscribeEnv) : M unit :=
  match l with
  | [] => ret tt
  | pub :: l' =>
      subscribeSpeaker (pub_display pub) (pub_id pub) (envs i);;
      subscribe_all (S i) l' envs
  end.

(** ** Initialisation *)

Record GuestEnv := mkGuestEnv {
  ge_createSession : Fetched Envelope;
  ge_attach : Fetched Envelope;
  ge_firstPoll : FetchResult JanusEvent;
  ge_join : Fetched unit;
  ge_joined : list BusInput;
  ge_newPc : Call unit;
  ge_audio : AudioEnv;
  ge_configure : OfferEnv;
  ge_subscribe : nat → SubscribeEnv
}.

(** Steps 1 to 4 of the [try] block of [initializeGuestSpeaker]: session,
    handle, poll loop, join as a publisher, local connection and
    ["configure"]. The result is the [publishers] of the joined event. *)
Definition guest_join (sessionUUID : string) (env : GuestEnv) : M (list Publisher) :=
  sid ← createSession (ge_createSession env);
  modify (set_sessionId (Some sid));;
  hid ← attachPlugin (ge_attach env);
  modify (set_handleId (Some hid));;
  modify (set_pollActive true);;
  startPolling (ge_firstPoll env);;
  evtPromise ← waitForJanusEventWithPredicate
                  joined_predicate 10000 "Guest Speaker joined event";
  cfg ← gets config;
  sendJanusMessage hid (JoinPublisher (roomId cfg) (userId cfg)) None (ge_join env);;
  evt ← await_waiter evtPromise (ge_joined env);
  match data_of evt with
  | None => throw (TypeError "data.id")
  | Some d =>
      modify (set_publisherId (data_id d));;
      log Debug "[JanusClient] guest joined => publisherId=";;
      let pubs := default [] (publishers d) in
      log Debug "[JanusClient] existing publishers =>";;
      setupPeerConnection (ge_newPc env);;
      enableLocalAudio (ge_audio env);;
      configurePublisher sessionUUID (ge_configure env);;
      ret pubs
  end.

(** The [try] block of [initializeGuestSpeaker]: the steps above, then
    step 5, the subscription to each publisher of the joined event. *)
Definition guest_steps (sessionUUID : string) (env : GuestEnv) : M unit :=
  pubs ← guest_join sessionUUID env;
  subscribe_all 0 pubs (ge_subscribe env);;
  log Info "[JanusClient] Guest speaker negotiation complete".

Definition initializeGuestSpeaker (sessionUUID : string) (env : GuestEnv) : M unit :=
  log Debug "[JanusClient] initializeGuestSpeaker() called";;
  try_catch
    (guest_steps sessionUUID env)
    (λ error,
       log Error "[JanusClient] Guest speaker initialization failed:";;
       emit "error"
         (PErr (Wrapped "[JanusClient] Guest speaker initialization failed" error));;
       throw error).

Record HostEnv := mkHostEnv {
  he_createSession : Fetched Envelope;
  he_attach : Fetched Envelope;
  he_firstPoll : FetchResult JanusEvent;
  he_createRoom : Fetched Envelope;
  he_join : JoinEnv;
  he_newPc : Call unit;
  he_audio : AudioEnv;
  he_configure : OfferEnv
}.

Definition initialize (env : HostEnv) : M unit :=
  log Debug "[JanusClient] initialize() called";;
  try_catch
    (sid ← createSession (he_createSession env);
     modify (set_sessionId (Some sid));;
     hid ← attachPlugin (he_attach env);
     modify (set_handleId (Some hid));;
     modify (set_pollActive true);;
     startPolling (he_firstPoll env);;
     createRoom (he_createRoom env);;
     pid ← joinRoom (he_join env);
     modify (set_publisherId pid);;
     setupPeerConnection (he_newPc env);;
     enableLocalAudio (he_audio env);;
     configurePublisher "" (he_configure env);;
     log Info "[JanusClient] Initialization complete")
    (λ error,
       log Error "[JanusClient] Initialization failed:";;
       emit "error" (PErr (Wrapped "[JanusClient] Initialization failed" error));;
       throw error).

(** ** Stopping *)

(** [stop()]; [closes n] is what [close()] of connection [n] does. The
    entries of the map are visited in the order of [map_to_list]. *)
Definition stop (closes : nat → Call unit) : M unit :=
  log Info "[JanusClient] Stopping...";;
  modify (set_pollActive false);;
  subs ← gets (λ c, map_to_list (subscribers c));
  for_each subs (λ entry,
    try_catch
      (pc_close (sub_pc entry.2) (closes (sub_pc entry.2));;
       log Debug ("[JanusClient] Closed subscriber connection for " +:+ entry.1))
      (λ error, log Error ("[JanusClient] Error closing subscriber for " +:+ entry.1)));;
  modify (set_subscribers ∅);;
  p ← gets pc;
  (match p with
   | Some n =>
       try_catch
         (pc_close n (closes n))
         (λ error, log Error "[JanusClient] Error closing main peer connection:");;
       modify (set_pc None)
   | None => ret tt
   end);;
  log Info "[JanusClient] All WebRTC connections closed".

(** ** Vocabulary of the properties *)

(** A method [keeps] a relation between the client before and after it,
    whatever it ends in. *)
Definition keeps {A} (R : Client → Client → Prop) (m : M A) : Prop :=
  ∀ c, R c (m c).2.

(** A method [returns]: it neither throws nor hangs. *)
Definition returns {A} (m : M A) : Prop :=
  ∀ c, ∃ a, (m c).1 = Ok a.

(** The state outside the emitter: everything but the trace, the waiters
    and the poll flag. *)
Record same_core (c c' : Client) : Prop := mk_same_core {
  sc_config : config c' = config c;
  sc_sessionId : sessionId c' = sessionId c;
  sc_handleId : handleId c' = handleId c;
  sc_publisherId : publisherId c' = publisherId c;
  sc_pc : pc c' = pc c;
  sc_localAudioSource : localAudioSource c' = localAudioSource c;
  sc_subscribers : subscribers c' = subscribers c;
  sc_listeners : listeners c' = listeners c;
  sc_conns : conns c' = conns c
}.

Definition same_waiters (c c' : Client) : Prop := waiters c' = waiters c.

Definition same_subscribers (c c' : Client) : Prop := subscribers c' = subscribers c.

(** What the handler of a waiter does to its closure when the predicate
    holds, and what an [emit('janus', e)] does to a waiter. *)
Definition fire (e : JanusEvent) (w : Waiter) : Waiter :=
  if w_predicate w e
  then resolved e (with_listening false (with_timer false w))
  else w.

Definition deliver (e : JanusEvent) (w : Waiter) : Waiter :=
  if w_listening w then fire e w else w.

(** What the timer of a waiter does to its closure. *)
Definition expire (w : Waiter) : Waiter :=
  if w_timer w
  then rejected (timeout_error (w_description w)) (with_timer false w)
  else w.

(** A pending promise still has its timer armed. *)
Definition armed (w : Waiter) : Prop :=
  w_promise w = Pending → w_timer w = true.

Definition wait_ok (i : nat) (c : Client) : Prop :=
  ∃ w, waiters c !! i = Some w ∧ armed w.

Definition keeps_wait (i : nat) (c c' : Client) : Prop :=
  wait_ok i c → wait_ok i c'.

(** The first event of a list that satisfies a predicate. *)
Definition first_match (P : JanusEvent → bool) (l : list JanusEvent) : option JanusEvent :=
  List.find P l.

(** The trace only grows. *)
Definition extends (c c' : Client) : Prop :=
  ∃ t, trace c' = (trace c ++ t)%list.

(** The gateway events of a list, each fetched by one run of the poll loop. *)
Definition poll_all (events : list JanusEvent) : M unit :=
  for_each events (λ e, doPoll (Response 200 "" (Some e))).

(** The events of a list, each published with [emit('janus', e)]. *)
Definition emit_all (events : list JanusEvent) : M unit :=
  for_each events (λ e, emit "janus" (PEvent e)).

(** The closure of a waiter just registered. *)
Definition fresh_waiter (P : JanusEvent → bool) (t : Z) (d : string) : Waiter :=
  mkWaiter P t d true true Pending 0 0.

(** A method [settles]: it returns or throws, but does not hang. *)
Definition settles {A} (m : M A) : Prop :=
  ∀ c, (m c).1 ≠ Hang.

(** The gateway events of a list, each handed to [handleJanusEvent]. *)
Definition handle_all (events : list JanusEvent) : M unit :=
  for_each events handleJanusEvent.

(** ** A scenario

    The gateway answers session 100 and handle 200 on room "42"; the guest
    is "me"; the publisher "alice" has feed 55. *)

Definition scenario_config : JanusConfig :=
  mkConfig "https://gateway.example/janus" "42" "credential" "me" "42".

Definition fresh_client : Client := new_client scenario_config ["error"].

Definition alice : Publisher := mkPublisher 55 "alice" None.

Definition videoroom_event (kind : string) (id : option Z)
    (pubs : option (list Publisher)) (from : option Z) (j : option Jsep) : JanusEvent :=
  mkEvent "event" from
    (Some (mkPluginData "janus.plugin.videoroom"
             (Some (mkRoomData kind id None pubs None))))
    j.

Definition joined_event : JanusEvent :=
  videoroom_event "joined" (Some 7) (Some [alice]) (Some 200) None.

Definition attached_event (handle : Z) : JanusEvent :=
  videoroom_event "attached" (Some 55) None (Some handle)
    (Some (mkJsep "offer" "v=0 offer of the gateway")).

Definition success (id : Z) : Fetched Envelope :=
  mkFetched [] (Response 200 "" (Some (mkEnvelope "success" id))).

Definition accepted : Fetched unit :=
  mkFetched [] (Response 200 "" None).

(** The REST requests of a trace. *)
Definition fetches (tr : list Action) : list Request :=
  omap (λ a, match a with Fetch r => Some r | _ => None end) tr.

(** Once the poll flag is down, it stays down and nothing is fetched. *)
Definition stays_stopped (c c' : Client) : Prop :=
  pollActive c = false →
  pollActive c' = false ∧ fetches (trace c') = fetches (trace c).

(** A client whose session is created and whose poll loop is running. *)
Definition polling_client : Client :=
  set_pollActive true (set_handleId (Some 200) (set_sessionId (Some 100) fresh_client)).

(** An audio platform in which every call throws. *)
Definition broken_audio : AudioEnv :=
  mkAudioEnv (Throws (Platform "JanusAudioSource")) (Throws (Platform "getTrack"))
             (Throws (Platform "MediaStream")) (Throws (Platform "addTrack")).

(** The method only appends to the trace, and only actions that satisfy [Q]. *)
Definition adds (Q : Action → bool) (c c' : Client) : Prop :=
  ∃ t, trace c' = (trace c ++ t)%list ∧ forallb Q t = true.

(** What the callbacks that run while a method is suspended can do: log,
    emit, poll, time the next poll, and run the closures of the waiters. *)
Definition bus_action (a : Action) : bool :=
  match a with
  | Log _ _ | Emit _ _ | Fetch (ReqPoll _) | SetTimeout DoPoll _
  | ClearTimeout _ | RemoveListener _ | Handler _ _ | Resolve _ | Reject _ => true
  | _ => false
  end.

(** The offers of an ICE restart sent to the gateway: a ["configure"]
    without [session_uuid] carrying a description, which only [restartIce]
    sends. *)
Definition is_restart_send (a : Action) : bool :=
  match a with
  | Fetch (ReqMessage _ _ (Configure _ _ None _ _) (Some _)) => true
  | _ => false
  end.

Definition restart_sends (tr : list Action) : nat :=
  length (List.filter is_restart_send tr).

Definition is_timer (a : Action) : bool :=
  match a with
  | SetTimeout _ _ => true
  | _ => false
  end.

(** The publisher of the scenario, its peer connection set up. *)
Definition publishing_client : Client :=
  exec (setupPeerConnection (Returns tt)) polling_client.

Definition good_offer : OfferEnv :=
  mkOfferEnv (Returns "v=0 offer of the client") (Returns tt) accepted.

(** The grace period of the specification, in ms. *)
Definition grace_period : Z := 5000.

(** The connection is reported disconnected at time 0 and connected again
    one second later. *)
Definition blip : list IceNotice :=
  [mkIceNotice 0 0 IceDisconnected good_offer;
   mkIceNotice 1000 0 IceConnected good_offer].

(** The position of the first action of a trace that satisfies [P]. *)
Fixpoint position (P : Action → bool) (tr : list Action) : option nat :=
  match tr with
  | [] => None
  | a :: tr' => if P a then Some 0%nat else S <$> position P tr'
  end.

Definition is_on (a : Action) : bool :=
  match a with
  | On _ => true
  | _ => false
  end.

(** The ["join"] requests, of a publisher or of a subscriber. *)
Definition is_join_send (a : Action) : bool :=
  match a with
  | Fetch (ReqMessage _ _ (JoinPublisher _ _) _) => true
  | Fetch (ReqMessage _ _ (JoinSubscriber _ _ _) _) => true
  | _ => false
  end.

(** In a trace, the first waiter is registered before the first join is sent. *)
Definition registered_before_sent (tr : list Action) : bool :=
  match position is_on tr, position is_join_send tr with
  | Some i, Some j => bool_decide (i < j)%nat
  | _, _ => false
  end.

(** What a method has appended to the trace of [c]. *)
Definition appended {A} (m : M A) (c : Client) : list Action :=
  drop (length (trace c)) (trace (exec m c)).

(** A gateway that accepts the subscription on handle [h]; the "attached"
    event with the offer is published on ['janus'] either while the join
    request is in flight ([early]) or after it has returned. *)
Definition subscription (h : Z) (early : bool) : SubscribeEnv :=
  mkSubscribeEnv
    (success h) []
    (mkFetched (if early then [Emitted (attached_event h)] else [])
               (Response 200 "" None))
    (if early then [] else [Emitted (attached_event h)])
    (Returns tt) (Returns tt) (Returns "v=0 answer of the client") (Returns tt)
    accepted.

Definition good_audio : AudioEnv :=
  mkAudioEnv (Returns tt) (Returns tt) (Returns tt) (Returns tt).

Definition keepalive : JanusEvent := mkEvent "keepalive" None None None.

(** The guest path of the scenario: the joined event, with its publishers,
    is published on ['janus'] after the join request has returned; [subs]
    are the environments of the subscriptions that follow. *)
Definition guest_scenario (joined : JanusEvent) (subs : nat → SubscribeEnv) : GuestEnv :=
  mkGuestEnv (success 100) (success 200) (Response 200 "" (Some keepalive))
             accepted [Emitted joined] (Returns tt) good_audio good_offer subs.

Definition host_join : JoinEnv := mkJoinEnv accepted [Emitted joined_event].

(** The entries of the other participants are the same. *)
Definition same_others (user : string) (c c' : Client) : Prop :=
  ∀ other, other ≠ user → subscribers c' !! other = subscribers c !! other.

(** A method keeps [R] unless it returns. *)
Definition unless_ok {A} (R : Client → Client → Prop) (m : M A) : Prop :=
  ∀ c, match (m c).1 with
       | Ok _ => True
       | _ => R c (m c).2
       end.

(** The client when [subscribeSpeaker] enters its [try] block. *)
Definition entered (user : string) (feedId : Z) (c : Client) : Client :=
  set_trace (trace c ++ [Invoke "subscribeSpeaker" user feedId;
                         Log Debug "[JanusClient] subscribeSpeaker => userId="]) c.

(** A completed subscription of [user] on the handle [h]: its entry holds
    [h] and a connection that was just created, open, after the connections
    that existed. *)
Definition recorded (user : string) (h : Z) (c c' : Client) : Prop :=
  ∃ x,
    subscribers c' = <[user := mkSub h (length (conns c))]> (subscribers c)
    ∧ conns c' = (conns c ++ [x])%list
    ∧ pc_closed x = false
    ∧ pc_events x = Some (SubscriberEvents user).

(** The handle of the answer of the gateway to an attach request. *)
Definition attached_handle (f : Fetched Envelope) (h : Z) : Prop :=
  ∃ status text answer,
    outcome f = Response status text (Some answer) ∧ env_data_id answer = h.

(** The entries of a map of subscribers under one participant. *)
Definition entries_of (user : string) (m : gmap string Subscription)
    : list (string * Subscription) :=
  filter (λ e, e.1 = user) (map_to_list m).

(** A connection of a trace is closed before another is created. *)
Definition closed_before_created (tr : list Action) (prior new : nat) : Prop :=
  ∃ i j, tr !! i = Some (ClosePc prior) ∧ tr !! j = Some (NewPc new) ∧ (i < j)%nat.

(** Two subscriptions to "alice", both completed. *)
Definition subscribed_once : Client :=
  exec (subscribeSpeaker "alice" 55 (subscription 300 false)) publishing_client.

Definition subscribed_twice : Client :=
  exec (subscribeSpeaker "alice" 55 (subscription 301 false)) subscribed_once.

(** The connections the client holds: those of the entries of the map of
    subscribers, and that of the publisher. *)
Definition held (c : Client) (n : nat) : Prop :=
  (∃ user sub, subscribers c !! user = Some sub ∧ sub_pc sub = n) ∨ pc c = Some n.

(** [close()] on each connection of a list, where it returns. *)
Definition close_all (closes : nat → Call unit) (ns : list nat)
    (cs : list PeerConnection) : list PeerConnection :=
  foldl (λ cs n, match closes n with
                 | Returns _ => alter with_closed n cs
                 | Throws _ => cs
                 end) cs ns.

(** What the loop of [stop] appends to the trace. *)
Definition loop_trace (closes : nat → Call unit)
    (l : list (string * Subscription)) : list Action :=
  flat_map (λ entry,
    [ClosePc (sub_pc entry.2);
     match closes (sub_pc entry.2) with
     | Returns _ => Log Debug ("[JanusClient] Closed subscriber connection for " +:+ entry.1)
     | Throws _ => Log Error ("[JanusClient] Error closing subscriber for " +:+ entry.1)
     end]) l.

Definition publisher_trace (closes : nat → Call unit) (p : option nat) : list Action :=
  match p with
  | Some n =>
      ClosePc n ::
      match closes n with
      | Returns _ => []
      | Throws _ => [Log Error "[JanusClient] Error closing main peer connection:"]
      end
  | None => []
  end.

(** The connections [stop] calls [close()] on, in order. *)
Definition held_list (c : Client) : list nat :=
  ((λ entry, sub_pc entry.2) <$> map_to_list (subscribers c)) ++ option_list (pc c).

(** The client after [stop]. *)
Definition stopped (closes : nat → Call unit) (c : Client) : Client :=
  mkClient (config c) (sessionId c) (handleId c) (publisherId c) None
           (localAudioSource c) false ∅ (waiters c) (listeners c)
           (close_all closes (held_list c) (conns c))
           (trace c ++ [Log Info "[JanusClient] Stopping..."]
                    ++ loop_trace closes (map_to_list (subscribers c))
                    ++ publisher_trace closes (pc c)
                    ++ [Log Info "[JanusClient] All WebRTC connections closed"]).

Definition always_closes : nat → Call unit := λ _, Returns tt.

(** The calls of [subscribeSpeaker] of a trace, with their arguments. *)
Definition calls (tr : list Action) : list (string * Z) :=
  omap (λ a, match a with
             | Invoke _ user feed => Some (user, feed)
             | _ => None
             end) tr.

Definition no_call (a : Action) : bool :=
  match a with
  | Invoke _ _ _ => false
  | _ => true
  end.

(** No waiter of the client is a wait for the list of publishers. *)
Definition discovery_free (c : Client) : Prop :=
  Forall (λ w, w_description w ≠ discovery_description) (waiters c).

Definition keeps_free (c c' : Client) : Prop :=
  discovery_free c → discovery_free c'.

(** A joined event that carries a list of publishers. *)
Definition joined_with (pubs : list Publisher) : JanusEvent :=
  videoroom_event "joined" (Some 7) (Some pubs) (Some 200) None.

(** The client when [initializeGuestSpeaker] enters its [try] block. *)
Definition guest_entered (c : Client) : Client :=
  set_trace (trace c ++ [Log Debug "[JanusClient] initializeGuestSpeaker() called"]) c.

(** The poll flag is the same. *)
Definition same_poll (c c' : Client) : Prop := pollActive c' = pollActive c.

(** A client with a local audio source and its track on the connection. *)
Definition streaming_client : Client :=
  exec (enableLocalAudio good_audio) publishing_client.

(** An audio platform that creates the source and fails to give its track. *)
Definition trackless_audio : AudioEnv :=
  mkAudioEnv (Returns tt) (Throws (Platform "getTrack"))
             (Returns tt) (Returns tt).

(** A property of the closure of waiter [i], and its preservation. *)
Definition holds_at (Inv : Waiter → Prop) (i : nat) (c : Client) : Prop :=
  ∃ w, waiters c !! i = Some w ∧ Inv w.

Definition keeps_at (Inv : Waiter → Prop) (i : nat) (c c' : Client) : Prop :=
  holds_at Inv i c → holds_at Inv i c'.

(** The callbacks of a promise were called at most once each: [resolve] not
    before the handler is removed, [reject] not before the timer is gone. *)
Definition once (w : Waiter) : Prop :=
  (w_resolve_calls w ≤ 1)%nat ∧ (w_reject_calls w ≤ 1)%nat
  ∧ (w_listening w = true → w_resolve_calls w = 0%nat)
  ∧ (w_timer w = true → w_reject_calls w = 0%nat).

(** What a request method throws for a failure: the [emit('error', ...)]
    of its [catch] block throws the wrapped error when nobody listens to
    ['error']; otherwise the failure itself is thrown again. *)
Definition rethrown (ctx : string) (c : Client) (error : Err) : Err :=
  if bool_decide ("error" ∈ listeners c) then error else Wrapped ctx error.

(** What the [catch] block of a request method appends to the trace, and
    what the method appends for a failure it has noticed in its [try] block. *)
Definition caught (label ctx : string) (error : Err) : list Action :=
  [Log Error label; Emit "error" (PErr (Wrapped ctx error))].

Definition refused (message label ctx : string) (error : Err) : list Action :=
  Log Error message :: Emit "error" (PErr error) :: caught label ctx error.

(** The ['error'] events of a trace. *)
Definition error_emits (tr : list Action) : list Err :=
  omap (λ a, match a with
             | Emit "error" (PErr e) => Some e
             | _ => None
             end) tr.

(** A call into the platform has returned. *)
Definition returned {A} (r : Call A) : bool :=
  match r with
  | Returns _ => true
  | Throws _ => false
  end.

(** The log lines and the two notifications of [handleJanusEvent]. *)
Definition logs_or_notifies (a : Action) : bool :=
  match a with
  | Log _ _ => true
  | Emit "publishersUpdated" (PPublishers _) => true
  | Emit "hangup" (PData _) => true
  | _ => false
  end.

(** No connection of the client has a remote description. *)
Definition no_answer (c : Client) : Prop :=
  Forall (λ x, pc_remote x = None) (conns c).

Definition keeps_unanswered (c c' : Client) : Prop :=
  no_answer c → no_answer c'.

(** The answer of the gateway to a poll says that the session is gone. *)
Definition not_found (r : FetchResult JanusEvent) : bool :=
  match r with
  | Response status _ _ => (status =? 404)%Z
  | NetworkError _ => false
  end.

(** The host path of the scenario. *)
Definition host_scenario : HostEnv :=
  mkHostEnv (success 100) (success 200) (Response 200 "ok" (Some keepalive))
            (success 42) host_join (Returns tt) good_audio good_offer.

(** The events published on ['janus'] among what the event loop runs. *)
Definition emitted (l : list BusInput) : list JanusEvent :=
  omap (λ a, match a with Emitted e => Some e | _ => None end) l.

(** No timeout of a waiter elapses among what the event loop runs. *)
Definition no_timeout (a : BusInput) : bool :=
  match a with
  | Elapsed _ => false
  | _ => true
  end.

(** The ['error'] of the poll loop for a session that is gone. *)
Definition session_lost : Action :=
  Emit "error" (PErr (Msg "[JanusClient] Session not found (404)")).

(** The client has a session and a handle and polls, unless the gateway
    has answered 404 to a poll. *)
Definition polling (sid hid : Z) (c : Client) : Prop :=
  sessionId c = Some sid ∧ handleId c = Some hid
  ∧ (pollActive c = true ∨ session_lost ∈ trace c).

Definition keeps_polling (sid hid : Z) (c c' : Client) : Prop :=
  polling sid hid c → polling sid hid c'.

(** A gateway that refuses to create the room. *)
Definition roomless_host : HostEnv :=
  mkHostEnv (success 100) (success 200) (Response 200 "ok" (Some keepalive))
            (mkFetched [] (Response 500 "no room" None))
            host_join (Returns tt) good_audio good_offer.

(** A polling client of an application that does not listen to ['error']. *)
Definition unheard_client : Client :=
  set_pollActive true (set_sessionId (Some 100) (new_client scenario_config [])).

(** The guest path as the program runs it: the gateway accepts every
    request, and its events, among them the joined event, come back from
    the long poll. *)
Definition polled_guest (joined : JanusEvent) (subs : nat → SubscribeEnv) : GuestEnv :=
  mkGuestEnv (success 100) (success 200) (Response 200 "ok" (Some keepalive))
             accepted [PollTick (Response 200 "ok" (Some joined))]
             (Returns tt) good_audio good_offer subs.

(** * Properties *)

(** ** The monad *)

Lemma exec_bind {A B} (m : M A) (k : A → M B) c :
  exec (bind m k) c =
  match m c with
  | (Ok a, c') => exec (k a) c'
  | (_, c') => c'
  end.
Proof. unfold exec, bind. by destruct (m c) as [[a|e|] c']. Qed.

(** Unfolds the operations of the monad in the goal. *)
Ltac msimpl :=
  repeat (progress (unfold bind, gets, try_catch, ret, throw, hang, modify, act, log, call;
                    simpl)).

Section Keeps.
Context (R : Client → Client → Prop) `{!Reflexive R} `{!Transitive R}.

Lemma keeps_ret {A} (a : A) : keeps R (ret a).
Proof. intros c. simpl. reflexivity. Qed.

Lemma keeps_throw {A} e : keeps R (@throw A e).
Proof. intros c. simpl. reflexivity. Qed.

Lemma keeps_hang {A} : keeps R (@hang A).
Proof. intros c. simpl. reflexivity. Qed.

Lemma keeps_gets {A} (f : Client → A) : keeps R (gets f).
Proof. intros c. simpl. reflexivity. Qed.

Lemma keeps_modify f : (∀ c, R c (f c)) → keeps R (modify f).
Proof. intros H c. apply H. Qed.

Lemma keeps_bind {A B} (m : M A) (k : A → M B) :
  keeps R m → (∀ a, keeps R (k a)) → keeps R (bind m k).
Proof.
  intros Hm Hk c. unfold bind. specialize (Hm c).
  destruct (m c) as [[a|e|] c']; simpl in *; try done.
  etrans; [exact Hm | apply Hk].
Qed.

Lemma keeps_try_catch {A} (m : M A) (h : Err → M A) :
  keeps R m → (∀ e, keeps R (h e)) → keeps R (try_catch m h).
Proof.
  intros Hm Hh c. unfold try_catch. specialize (Hm c).
  destruct (m c) as [[a|e|] c']; simpl in *; try done.
  etrans; [exact Hm | apply Hh].
Qed.

Lemma keeps_for_each {A} (l : list A) (f : A → M unit) :
  (∀ x, keeps R (f x)) → keeps R (for_each l f).
Proof.
  intros Hf. induction l as [|x l IH]; simpl.
  - apply keeps_ret.
  - apply keeps_bind; auto.
Qed.

Lemma keeps_call {A} (r : Call A) : keeps R (call r).
Proof. destruct r; [apply keeps_ret | apply keeps_throw]. Qed.

End Keeps.

Create HintDb keeps.

Ltac keeps_step :=
  first
    [ solve [eauto with keeps]
    | lazymatch goal with
      | |- keeps _ (ret _) => apply keeps_ret; try tc_solve
      | |- keeps _ (throw _) => apply keeps_throw; try tc_solve
      | |- keeps _ hang => apply keeps_hang; try tc_solve
      | |- keeps _ (gets _) => apply keeps_gets; try tc_solve
      | |- keeps _ (call _) => apply keeps_call; try tc_solve
      | |- keeps _ (bind _ _) => apply keeps_bind; [tc_solve| |intros ?]
      | |- keeps _ (try_catch _ _) => apply keeps_try_catch; [tc_solve| |intros ?]
      | |- keeps _ (for_each _ _) => apply keeps_for_each; [tc_solve|tc_solve|intros ?]
      | |- keeps _ (if ?b then _ else _) => destruct b
      | |- keeps _ (match ?x with _ => _ end) => destruct x
      end ].

Ltac keeps_tac := repeat keeps_step.

(** ** The state outside the emitter *)

#[global] Instance same_core_refl : Reflexive same_core.
Proof. intros c. by split. Qed.

#[global] Instance same_core_trans : Transitive same_core.
Proof. intros c1 c2 c3 [] []. split; congruence. Qed.

Lemma act_core a : keeps same_core (act a).
Proof. intros c. by split. Qed.

Lemma log_core l m : keeps same_core (log l m).
Proof. apply act_core. Qed.

Lemma upd_waiter_core i f : keeps same_core (modify (upd_waiter i f)).
Proof. intros c. by split. Qed.

Lemma set_pollActive_core b : keeps same_core (modify (set_pollActive b)).
Proof. intros c. by split. Qed.

#[global] Hint Resolve act_core log_core upd_waiter_core set_pollActive_core : keeps.

Lemma eventHandler_core i e : keeps same_core (eventHandler i e).
Proof. unfold eventHandler, clearTimeout, removeListener, resolve. keeps_tac. Qed.

#[global] Hint Resolve eventHandler_core : keeps.

Lemma emit_core name p : keeps same_core (emit name p).
Proof. unfold emit. keeps_tac. Qed.

#[global] Hint Resolve emit_core : keeps.

Lemma timeout_fires_core i : keeps same_core (timeout_fires i).
Proof. unfold timeout_fires, reject. keeps_tac. Qed.

Lemma waitFor_core P t d : keeps same_core (waitForJanusEventWithPredicate P t d).
Proof.
  unfold waitForJanusEventWithPredicate. keeps_tac.
  apply keeps_modify. intros c. by split.
Qed.

Lemma handleJanusEvent_core e : keeps same_core (handleJanusEvent e).
Proof. unfold handleJanusEvent. keeps_tac. Qed.

#[global] Hint Resolve timeout_fires_core waitFor_core handleJanusEvent_core : keeps.

Lemma doPoll_core r : keeps same_core (doPoll r).
Proof. unfold doPoll. keeps_tac. Qed.

#[global] Hint Resolve doPoll_core : keeps.

Lemma bus_step_core a : keeps same_core (bus_step a).
Proof. destruct a; simpl; keeps_tac. Qed.

#[global] Hint Resolve bus_step_core : keeps.

Lemma arrive_core l : keeps same_core (arrive l).
Proof. unfold arrive. keeps_tac. Qed.

#[global] Hint Resolve arrive_core : keeps.

Lemma await_waiter_core i l : keeps same_core (await_waiter i l).
Proof. induction l as [|a l IH]; simpl; keeps_tac. Qed.

Lemma fetch_core {B} req (f : Fetched B) : keeps same_core (fetch req f).
Proof. unfold fetch. keeps_tac. Qed.

#[global] Hint Resolve await_waiter_core fetch_core : keeps.

Lemma createSession_core f : keeps same_core (createSession f).
Proof. unfold createSession. keeps_tac. Qed.

Lemma attachPlugin_core f : keeps same_core (attachPlugin f).
Proof. unfold attachPlugin. keeps_tac. Qed.

Lemma sendJanusMessage_core h b j f : keeps same_core (sendJanusMessage h b j f).
Proof. unfold sendJanusMessage. keeps_tac. Qed.

#[global] Hint Resolve createSession_core attachPlugin_core sendJanusMessage_core : keeps.

(** ** The waiters under the callbacks of the emitter *)

Lemma exec_eventHandler i e c :
  waiters (exec (eventHandler i e) c) = alter (fire e) i (waiters c).
Proof.
  unfold exec, eventHandler, bind, gets. simpl.
  destruct (waiters c !! i) as [w|] eqn:Hw; simpl.
  - unfold fire. destruct (w_predicate w e) eqn:HP; simpl.
    + rewrite !list_alter_alter_eq. apply list_eq. intros j.
      destruct (decide (i = j)) as [->|Hne].
      * rewrite !list_lookup_alter_eq, Hw. simpl. by rewrite HP.
      * by rewrite !list_lookup_alter_ne.
    + apply list_eq. intros j. destruct (decide (i = j)) as [->|Hne].
      * rewrite list_lookup_alter_eq, Hw. simpl. by rewrite HP.
      * by rewrite list_lookup_alter_ne.
  - apply list_eq. intros j. destruct (decide (i = j)) as [->|Hne].
    + by rewrite list_lookup_alter_eq, Hw.
    + by rewrite list_lookup_alter_ne.
Qed.

Lemma eventHandler_returns i e : returns (eventHandler i e).
Proof.
  intros c. unfold eventHandler, bind, gets. simpl.
  destruct (waiters c !! i) as [w|]; simpl; [|by eexists].
  destruct (w_predicate w e); simpl; by eexists.
Qed.

Lemma for_each_handlers_lookup e l c j :
  NoDup l →
  waiters (exec (for_each l (λ i, eventHandler i e)) c) !! j =
  if decide (j ∈ l) then fire e <$> waiters c !! j else waiters c !! j.
Proof.
  revert c. induction l as [|i l IH]; intros c Hnd.
  - done.
  - apply NoDup_cons in Hnd as [Hi Hnd]. simpl for_each.
    rewrite exec_bind.
    destruct (eventHandler_returns i e c) as [[] Hr].
    pose proof (exec_eventHandler i e c) as Hw. unfold exec in Hw.
    destruct (eventHandler i e c) as [r c'] eqn:Hc. simpl in *. subst r.
    rewrite IH by done. rewrite Hw.
    destruct (decide (j = i)) as [->|Hne].
    + rewrite decide_False by done.
      rewrite decide_True by (apply elem_of_cons; by left).
      by rewrite list_lookup_alter_eq.
    + rewrite list_lookup_alter_ne by done.
      destruct (decide (j ∈ l)) as [Hl|Hl].
      * rewrite decide_True; [done|apply elem_of_cons; by right].
      * rewrite decide_False; [done|]. by intros [?|?]%elem_of_cons.
Qed.

Lemma elem_of_janus_listeners c j :
  j ∈ janus_listeners c ↔ w_listening <$> waiters c !! j = Some true.
Proof.
  unfold janus_listeners. rewrite list_elem_of_filter, elem_of_seq.
  split; [by intros [? _]|]. intros H. split; [done|].
  destruct (waiters c !! j) eqn:E; [|done].
  apply lookup_lt_Some in E. lia.
Qed.

(** An [emit('janus', e)] calls the handler of every waiter that is still
    registered, and nothing else changes a waiter. *)
Lemma emit_janus_waiters e c :
  waiters (exec (emit "janus" (PEvent e)) c) = deliver e <$> waiters c.
Proof.
  unfold emit. rewrite exec_bind. simpl.
  rewrite exec_bind. simpl.
  apply list_eq. intros j.
  rewrite for_each_handlers_lookup
    by (apply NoDup_filter, NoDup_seq).
  rewrite list_lookup_fmap.
  set (c1 := set_trace _ c).
  change (waiters c1) with (waiters c).
  destruct (decide _) as [Hin|Hin]; rewrite elem_of_janus_listeners in Hin;
    change (waiters c1) with (waiters c) in Hin;
    destruct (waiters c !! j) as [w|] eqn:Hw; simpl in *; try done.
  - unfold deliver. injection Hin as ->. done.
  - unfold deliver. by destruct (w_listening w).
Qed.

Lemma exec_timeout_fires i c :
  waiters (exec (timeout_fires i) c) = alter expire i (waiters c).
Proof.
  unfold exec, timeout_fires, reject, bind, gets. simpl.
  apply list_eq. intros j.
  destruct (waiters c !! i) as [w|] eqn:Hw; simpl.
  - destruct (w_timer w) eqn:Ht; simpl.
    + rewrite list_alter_alter_eq. destruct (decide (i = j)) as [->|Hne].
      * rewrite !list_lookup_alter_eq, Hw. simpl. unfold expire. by rewrite Ht.
      * by rewrite !list_lookup_alter_ne.
    + destruct (decide (i = j)) as [->|Hne].
      * rewrite list_lookup_alter_eq, Hw. simpl. unfold expire. by rewrite Ht.
      * by rewrite list_lookup_alter_ne.
  - destruct (decide (i = j)) as [->|Hne].
    + by rewrite list_lookup_alter_eq, Hw.
    + by rewrite list_lookup_alter_ne.
Qed.

Lemma exec_waitFor P t d c :
  waiters (exec (waitForJanusEventWithPredicate P t d) c)
  = (waiters c ++ [fresh_waiter P t d])%list.
Proof. done. Qed.

Lemma result_waitFor P t d c :
  result (waitForJanusEventWithPredicate P t d) c = Ok (length (waiters c)).
Proof. done. Qed.

(** *** The waiters are out of reach of the poll loop *)

#[global] Instance same_waiters_refl : Reflexive same_waiters.
Proof. by intros c. Qed.

#[global] Instance same_waiters_trans : Transitive same_waiters.
Proof. unfold same_waiters. intros c1 c2 c3 ??. congruence. Qed.

Lemma act_waiters a : keeps same_waiters (act a).
Proof. by intros c. Qed.

Lemma log_waiters l m : keeps same_waiters (log l m).
Proof. by intros c. Qed.

Lemma set_pollActive_waiters b : keeps same_waiters (modify (set_pollActive b)).
Proof. by intros c. Qed.

Lemma emit_waiters name p :
  name ≠ "janus" → keeps same_waiters (emit name p).
Proof.
  intros Hne. unfold emit.
  destruct (String.eqb_spec name "janus") as [|_]; [done|].
  keeps_tac; first [apply act_waiters | apply keeps_throw; tc_solve | apply keeps_ret; tc_solve].
Qed.

#[global] Hint Resolve act_waiters log_waiters set_pollActive_waiters : keeps.
#[global] Hint Extern 2 (keeps same_waiters (emit _ _)) =>
  (apply emit_waiters; discriminate) : keeps.

Lemma handleJanusEvent_waiters e : keeps same_waiters (handleJanusEvent e).
Proof. unfold handleJanusEvent. keeps_tac. Qed.

#[global] Hint Resolve handleJanusEvent_waiters : keeps.

Lemma doPoll_waiters r : keeps same_waiters (doPoll r).
Proof. unfold doPoll. keeps_tac. Qed.

#[global] Hint Resolve doPoll_waiters : keeps.

Lemma poll_all_waiters events : keeps same_waiters (poll_all events).
Proof. unfold poll_all. keeps_tac. Qed.

(** ** Methods that return, methods that settle *)

Lemma returns_settles {A} (m : M A) : returns m → settles m.
Proof. intros H c. destruct (H c) as [a ->]. done. Qed.

Lemma returns_ret {A} (a : A) : returns (ret a).
Proof. intros c. by eexists. Qed.

Lemma returns_gets {A} (f : Client → A) : returns (gets f).
Proof. intros c. by eexists. Qed.

Lemma returns_modify f : returns (modify f).
Proof. intros c. by eexists. Qed.

Lemma returns_act a : returns (act a).
Proof. intros c. by eexists. Qed.

Lemma returns_log l m : returns (log l m).
Proof. intros c. by eexists. Qed.

Lemma returns_bind {A B} (m : M A) (k : A → M B) :
  returns m → (∀ a, returns (k a)) → returns (bind m k).
Proof.
  intros Hm Hk c. unfold bind. destruct (Hm c) as [a Ha].
  destruct (m c) as [r c']. simpl in Ha. subst r. apply Hk.
Qed.

Lemma returns_try_catch {A} (m : M A) (h : Err → M A) :
  settles m → (∀ e, returns (h e)) → returns (try_catch m h).
Proof.
  intros Hm Hh c. unfold try_catch. specialize (Hm c).
  destruct (m c) as [[a|e|] c']; simpl in *; [by eexists|apply Hh|done].
Qed.

Lemma returns_for_each {A} (l : list A) (f : A → M unit) :
  (∀ x, returns (f x)) → returns (for_each l f).
Proof.
  intros Hf. induction l as [|x l IH]; simpl.
  - apply returns_ret.
  - apply returns_bind; auto.
Qed.

Lemma settles_ret {A} (a : A) : settles (ret a).
Proof. by intros c. Qed.

Lemma settles_throw {A} e : settles (@throw A e).
Proof. by intros c. Qed.

Lemma settles_call {A} (r : Call A) : settles (call r).
Proof. by destruct r. Qed.

Lemma settles_bind {A B} (m : M A) (k : A → M B) :
  settles m → (∀ a, settles (k a)) → settles (bind m k).
Proof.
  intros Hm Hk c. unfold bind. specialize (Hm c).
  destruct (m c) as [[a|e|] c']; simpl in *; [apply Hk|done|done].
Qed.

Lemma settles_try_catch {A} (m : M A) (h : Err → M A) :
  settles m → (∀ e, settles (h e)) → settles (try_catch m h).
Proof.
  intros Hm Hh c. unfold try_catch. specialize (Hm c).
  destruct (m c) as [[a|e|] c']; simpl in *; [done|apply Hh|done].
Qed.

Create HintDb ends.

#[global] Hint Resolve returns_ret returns_gets returns_modify returns_act
  returns_log settles_ret settles_throw settles_call : ends.
#[global] Hint Resolve returns_settles | 10 : ends.

Ltac ends_step :=
  first
    [ solve [eauto with ends]
    | lazymatch goal with
      | |- returns (bind _ _) => apply returns_bind; [|intros ?]
      | |- returns (try_catch _ _) => apply returns_try_catch; [|intros ?]
      | |- returns (for_each _ _) => apply returns_for_each; intros ?
      | |- settles (bind _ _) => apply settles_bind; [|intros ?]
      | |- settles (try_catch _ _) => apply settles_try_catch; [|intros ?]
      | |- settles (for_each _ _) => apply returns_settles
      | |- returns (if ?b then _ else _) => destruct b
      | |- returns (match ?x with _ => _ end) => destruct x
      | |- settles (if ?b then _ else _) => destruct b
      | |- settles (match ?x with _ => _ end) => destruct x
      end ].

Ltac ends_tac := repeat ends_step.

#[global] Hint Resolve eventHandler_returns : ends.

(** An [emit] returns, except an ['error'] without a listener. *)
Lemma emit_returns name p : name ≠ "error" → returns (emit name p).
Proof.
  intros Hne. unfold emit.
  destruct (String.eqb_spec name "error") as [|_]; [done|].
  ends_tac.
Qed.

Lemma emit_settles name p : settles (emit name p).
Proof.
  unfold emit. ends_tac.
Qed.

#[global] Hint Resolve emit_settles : ends.
#[global] Hint Extern 2 (returns (emit _ _)) =>
  (apply emit_returns; discriminate) : ends.

Lemma timeout_fires_returns i : returns (timeout_fires i).
Proof. unfold timeout_fires, reject. ends_tac. Qed.

Lemma handleJanusEvent_settles e : settles (handleJanusEvent e).
Proof. unfold handleJanusEvent. ends_tac. Qed.

#[global] Hint Resolve timeout_fires_returns handleJanusEvent_settles : ends.

(** A run of [doPoll] never throws: the loop cannot die of an exception. *)
Lemma doPoll_returns r : returns (doPoll r).
Proof. unfold doPoll. ends_tac. Qed.

#[global] Hint Resolve doPoll_returns : ends.

Lemma bus_step_returns a : returns (bus_step a).
Proof. destruct a; simpl; ends_tac. Qed.

#[global] Hint Resolve bus_step_returns : ends.

Lemma arrive_returns l : returns (arrive l).
Proof. unfold arrive. ends_tac. Qed.

#[global] Hint Resolve arrive_returns : ends.

Lemma poll_all_returns events : returns (poll_all events).
Proof. unfold poll_all. ends_tac. Qed.

(** ** Waiters and the gateway events *)

Lemma promise_of_lookup i c w :
  waiters c !! i = Some w → promise_of i c = w_promise w.
Proof. unfold promise_of. by intros ->. Qed.

Lemma await_timeout i c w :
  waiters c !! i = Some w → w_promise w = Pending → w_timer w = true →
  result (await_waiter i []) c = Throw (timeout_error (w_description w)).
Proof.
  intros Hw Hp Ht. unfold result. simpl. unfold bind at 1. simpl.
  rewrite (promise_of_lookup _ _ _ Hw), Hp.
  unfold bind at 1.
  destruct (timeout_fires_returns i c) as [[] Hr].
  pose proof (exec_timeout_fires i c) as Hx. unfold exec in Hx.
  destruct (timeout_fires i c) as [r c'] eqn:Hc. simpl in *. subst r.
  unfold bind, gets. simpl. unfold promise_of. rewrite Hx.
  rewrite list_lookup_alter_eq, Hw. simpl.
  unfold expire. rewrite Ht. simpl. by rewrite Hp.
Qed.

Lemma await_only_polls i l c w :
  waiters c !! i = Some w → w_promise w = Pending → w_timer w = true →
  result (await_waiter i (PollTick <$> l)) c
  = Throw (timeout_error (w_description w)).
Proof.
  revert c. induction l as [|r l IH]; intros c Hw Hp Ht.
  - by apply await_timeout.
  - unfold result. simpl. unfold bind at 1. simpl.
    rewrite (promise_of_lookup _ _ _ Hw), Hp.
    unfold bind at 1.
    destruct (doPoll_returns r c) as [[] Hr].
    pose proof (doPoll_waiters r c) as Hx. unfold same_waiters in Hx.
    destruct (doPoll r c) as [o c'] eqn:Hc. simpl in *. subst o.
    apply IH; [by rewrite Hx|done|done].
Qed.

(** C1 (defect of the code). Gateway events reach the client through the
    poll loop, which hands each of them to [handleJanusEvent]; that method
    never publishes on ['janus'], the only name the waiters listen to. So
    whatever events the gateway delivers, matching or not, a waiter
    registered with [waitForJanusEventWithPredicate] is left as it was
    registered (promise pending, handler never run, [resolve] never called),
    and awaiting it ends in its timeout. *)
Theorem gateway_events_never_reach_waiters
    (c : Client) (P : JanusEvent → bool) (t : Z) (d : string)
    (events : list JanusEvent) :
  let i := length (waiters c) in
  let c1 := exec (waitForJanusEventWithPredicate P t d) c in
  waiters (exec (poll_all events) c1) !! i = Some (fresh_waiter P t d)
  ∧ waiters (exec (handle_all events) c1) !! i = Some (fresh_waiter P t d)
  ∧ promise_of i (exec (poll_all events) c1) = Pending
  ∧ result (await_waiter i (PollTick <$> ((λ e, Response 200 "" (Some e)) <$> events))) c1
    = Throw (timeout_error d).
Proof.
  intros i c1.
  assert (Hc1 : waiters c1 !! i = Some (fresh_waiter P t d)).
  { unfold c1, i. rewrite exec_waitFor. by apply list_lookup_middle. }
  assert (H1 : waiters (exec (poll_all events) c1) !! i = Some (fresh_waiter P t d)).
  { pose proof (poll_all_waiters events c1) as Hx. unfold same_waiters in Hx.
    unfold exec. by rewrite Hx. }
  split; [done|]. split.
  { assert (Hk : keeps same_waiters (handle_all events))
      by (unfold handle_all; keeps_tac).
    specialize (Hk c1). unfold same_waiters in Hk. unfold exec. by rewrite Hk. }
  split.
  { by rewrite (promise_of_lookup _ _ _ H1). }
  by rewrite (await_only_polls i _ c1 _ Hc1).
Qed.

(** *** What the registry does with events published on ['janus'] *)

Lemma emit_all_lookup events c i :
  waiters (exec (emit_all events) c) !! i
  = (λ w, foldl (λ w e, deliver e w) w events) <$> waiters c !! i.
Proof.
  revert c. induction events as [|e l IH]; intros c.
  - simpl. unfold exec. simpl. by destruct (waiters c !! i).
  - unfold emit_all in *. simpl for_each. rewrite exec_bind.
    assert (Hr : returns (emit "janus" (PEvent e))) by ends_tac.
    destruct (Hr c) as [[] Hok].
    pose proof (emit_janus_waiters e c) as Hx. unfold exec in Hx.
    destruct (emit "janus" (PEvent e) c) as [o c'] eqn:Hc. simpl in *. subst o.
    rewrite IH, Hx, list_lookup_fmap. by destruct (waiters c !! i).
Qed.

Lemma deliver_not_listening e w : w_listening w = false → deliver e w = w.
Proof. unfold deliver. by intros ->. Qed.

Lemma foldl_deliver_not_listening l w :
  w_listening w = false → foldl (λ w e, deliver e w) w l = w.
Proof.
  revert w. induction l as [|e l IH]; intros w Hw; [done|].
  simpl. rewrite deliver_not_listening by done. by apply IH.
Qed.

Lemma foldl_deliver_fresh P t d l :
  foldl (λ w e, deliver e w) (fresh_waiter P t d) l
  = match first_match P l with
    | Some e => mkWaiter P t d false false (Fulfilled e) 1 0
    | None => fresh_waiter P t d
    end.
Proof.
  induction l as [|e l IH]; [done|].
  simpl. unfold deliver at 2, fire. simpl.
  destruct (P e) eqn:HP; simpl.
  - by rewrite foldl_deliver_not_listening.
  - apply IH.
Qed.

(** Events published with [emit('janus', e)] do reach the waiter: its
    promise is fulfilled with the first event that satisfies the predicate,
    and [resolve] is called once, or not at all when no event matches. *)
Lemma emitted_events_resolve_first_match
    (c : Client) (P : JanusEvent → bool) (t : Z) (d : string)
    (events : list JanusEvent) :
  let i := length (waiters c) in
  let c1 := exec (waitForJanusEventWithPredicate P t d) c in
  waiters (exec (emit_all events) c1) !! i
  = Some match first_match P events with
         | Some e => mkWaiter P t d false false (Fulfilled e) 1 0
         | None => fresh_waiter P t d
         end.
Proof.
  intros i c1. rewrite emit_all_lookup. unfold c1, i.
  rewrite exec_waitFor, list_lookup_middle by done. simpl.
  by rewrite foldl_deliver_fresh.
Qed.

(** ** Waiters and their timeout *)

#[global] Instance extends_refl : Reflexive extends.
Proof. intros x. exists []. by rewrite app_nil_r. Qed.

#[global] Instance extends_trans : Transitive extends.
Proof.
  intros x y z [t1 H1] [t2 H2]. exists (t1 ++ t2)%list.
  by rewrite H2, H1, app_assoc.
Qed.

Lemma act_extends a : keeps extends (act a).
Proof. intros c. by exists [a]. Qed.

Lemma log_extends l m : keeps extends (log l m).
Proof. apply act_extends. Qed.

Lemma modify_extends f :
  (∀ c, trace (f c) = trace c) → keeps extends (modify f).
Proof. intros H c. exists []. simpl. by rewrite H, app_nil_r. Qed.

#[global] Hint Resolve act_extends log_extends : keeps.
#[global] Hint Extern 2 (keeps extends (modify _)) =>
  (apply modify_extends; intros ?; reflexivity) : keeps.

Lemma eventHandler_extends i e : keeps extends (eventHandler i e).
Proof. unfold eventHandler, clearTimeout, removeListener, resolve. keeps_tac. Qed.

#[global] Hint Resolve eventHandler_extends : keeps.

Lemma handler_in_trace e l c i w :
  i ∈ l → waiters c !! i = Some w →
  Handler i e ∈ trace (exec (for_each l (λ i, eventHandler i e)) c).
Proof.
  revert c w. induction l as [|j l IH]; intros c w Hi Hw.
  - by apply elem_of_nil in Hi.
  - simpl for_each. rewrite exec_bind.
    destruct (eventHandler_returns j e c) as [[] Hr].
    pose proof (exec_eventHandler j e c) as Hx. unfold exec in Hx.
    destruct (eventHandler j e c) as [o c'] eqn:Hc. simpl in *. subst o.
    destruct (decide (i = j)) as [->|Hne].
    + assert (Hin : Handler j e ∈ trace c').
      { revert Hc. unfold eventHandler, bind, gets. simpl. rewrite Hw. simpl.
        destruct (w_predicate w e); simpl; intros [= <-]; simpl;
          rewrite ?elem_of_app, ?list_elem_of_singleton; tauto. }
      assert (Hext : keeps extends (for_each l (λ i, eventHandler i e)))
        by keeps_tac.
      destruct (Hext c') as [t Ht]. unfold exec. rewrite Ht.
      apply elem_of_app. by left.
    + apply elem_of_cons in Hi as [?|Hi]; [done|].
      eapply IH; [done|]. rewrite Hx. rewrite list_lookup_alter_ne by done. done.
Qed.

(** C4 (defect of the code). When the timeout of a waiter elapses before a
    matching event, the wait fails with the timeout error that carries the
    label; but the timeout callback only rejects: the handler stays
    registered on ['janus'] (the path of a match removes it, this one does
    not), and a matching event published afterwards runs the handler, which
    calls [resolve] on the promise already rejected. *)
Theorem timed_out_waiter_stays_registered
    (c : Client) (P : JanusEvent → bool) (t : Z) (d : string) (e : JanusEvent) :
  P e = true →
  let i := length (waiters c) in
  let c1 := exec (waitForJanusEventWithPredicate P t d) c in
  let c2 := exec (bus_step (Elapsed i)) c1 in
  let c3 := exec (bus_step (Emitted e)) c2 in
  result (await_waiter i []) c1 = Throw (timeout_error d)
  ∧ waiters c2 !! i
    = Some (mkWaiter P t d false true (Rejected (timeout_error d)) 0 1)
  ∧ i ∈ janus_listeners c2
  ∧ Handler i e ∈ trace c3
  ∧ waiters c3 !! i
    = Some (mkWaiter P t d false false (Rejected (timeout_error d)) 1 1).
Proof.
  intros HP i c1 c2 c3.
  assert (Hc1 : waiters c1 !! i = Some (fresh_waiter P t d)).
  { unfold c1, i. rewrite exec_waitFor. by apply list_lookup_middle. }
  assert (Hc2 : waiters c2 !! i
                = Some (mkWaiter P t d false true (Rejected (timeout_error d)) 0 1)).
  { unfold c2. simpl bus_step. rewrite exec_timeout_fires.
    by rewrite list_lookup_alter_eq, Hc1. }
  assert (Hl : i ∈ janus_listeners c2).
  { apply (proj2 (elem_of_janus_listeners c2 i)). by rewrite Hc2. }
  split; [by rewrite (await_timeout i c1 _ Hc1)|].
  split; [done|]. split; [done|]. split.
  - unfold c3. simpl bus_step. unfold emit. rewrite exec_bind. simpl.
    rewrite exec_bind. simpl.
    eapply handler_in_trace; [|exact Hc2].
    apply (proj2 (elem_of_janus_listeners _ i)). simpl. by rewrite Hc2.
  - unfold c3. simpl bus_step. rewrite emit_janus_waiters.
    rewrite list_lookup_fmap, Hc2. simpl.
    unfold deliver, fire. simpl. by rewrite HP.
Qed.

Lemma timed_out_waiter_witness :
  joined_predicate joined_event = true
  ∧ Handler 0 joined_event
    ∈ trace (exec (bus_step (Emitted joined_event))
               (exec (bus_step (Elapsed 0))
                  (exec (waitForJanusEventWithPredicate
                           joined_predicate 12000 "Host Joined Event")
                        fresh_client))).
Proof.
  split; [reflexivity|].
  apply (timed_out_waiter_stays_registered
           fresh_client joined_predicate 12000 "Host Joined Event" joined_event).
  reflexivity.
Defined.

(** ** Updates of the trace *)

Lemma set_trace_set_trace t t' c : set_trace t (set_trace t' c) = set_trace t c.
Proof. done. Qed.

Lemma set_trace_set_pollActive t b c :
  set_trace t (set_pollActive b c) = set_pollActive b (set_trace t c).
Proof. done. Qed.

Lemma trace_set_trace t c : trace (set_trace t c) = t.
Proof. done. Qed.

(** Brings a client built by successive appends to the trace to the form
    [set_trace (trace c ++ actions) c]. *)
Ltac norm_trace :=
  rewrite ?set_trace_set_pollActive, ?set_trace_set_trace, <- ?app_assoc;
  cbn [app].

(** ** The long-poll loop *)

#[global] Instance stays_stopped_refl : Reflexive stays_stopped.
Proof. by intros c H. Qed.

#[global] Instance stays_stopped_trans : Transitive stays_stopped.
Proof.
  intros c1 c2 c3 H12 H23 H. destruct (H12 H) as [H2 E2].
  destruct (H23 H2) as [H3 E3]. split; [done|congruence].
Qed.

Lemma act_stopped a :
  match a with Fetch _ => False | _ => True end → keeps stays_stopped (act a).
Proof.
  intros Ha c H. split; [done|]. simpl. unfold fetches.
  rewrite omap_app. destruct a; simpl; try done; by rewrite app_nil_r.
Qed.

Lemma modify_stopped f :
  (∀ c, trace (f c) = trace c ∧ pollActive (f c) = pollActive c) →
  keeps stays_stopped (modify f).
Proof. intros Hf c H. destruct (Hf c) as [Ht Hp]. simpl. by rewrite Ht, Hp. Qed.

#[global] Hint Extern 2 (keeps stays_stopped (act _)) =>
  (apply act_stopped; exact I) : keeps.
#[global] Hint Extern 2 (keeps stays_stopped (log _ _)) =>
  (apply act_stopped; exact I) : keeps.
#[global] Hint Extern 2 (keeps stays_stopped (modify _)) =>
  (apply modify_stopped; intros ?; split; reflexivity) : keeps.

Lemma eventHandler_stopped i e : keeps stays_stopped (eventHandler i e).
Proof. unfold eventHandler, clearTimeout, removeListener, resolve. keeps_tac. Qed.

#[global] Hint Resolve eventHandler_stopped : keeps.

Lemma emit_stopped name p : keeps stays_stopped (emit name p).
Proof. unfold emit. keeps_tac. Qed.

Lemma timeout_fires_stopped i : keeps stays_stopped (timeout_fires i).
Proof. unfold timeout_fires, reject. keeps_tac. Qed.

(** With the flag down, [doPoll] logs and returns: no fetch, no timer. *)
Lemma doPoll_inactive r c :
  pollActive c = false →
  doPoll r c
  = (Ok tt, set_trace (trace c ++ [Log Debug "[JanusClient] Polling stopped"]) c).
Proof. intros H. unfold doPoll. msimpl. by rewrite H. Qed.

Lemma doPoll_stopped r : keeps stays_stopped (doPoll r).
Proof.
  intros c H. rewrite doPoll_inactive by done. simpl. split; [done|].
  unfold fetches. rewrite omap_app. simpl. by rewrite app_nil_r.
Qed.

#[global] Hint Resolve emit_stopped timeout_fires_stopped doPoll_stopped : keeps.

Lemma bus_step_stopped a : keeps stays_stopped (bus_step a).
Proof. destruct a; simpl; keeps_tac. Qed.

#[global] Hint Resolve bus_step_stopped : keeps.

Lemma arrive_stopped l : keeps stays_stopped (arrive l).
Proof. unfold arrive. keeps_tac. Qed.

Lemma doPoll_network_error e c :
  pollActive c = true → truthy (sessionId c) = true →
  doPoll (NetworkError e) c
  = (Ok tt,
     set_trace (trace c ++ [Fetch (ReqPoll (default 0 (sessionId c)));
                            Log Error "[JanusClient] poll exception =>";
                            SetTimeout DoPoll 500]) c).
Proof.
  intros Ha Hs. unfold doPoll. msimpl.
  rewrite Ha, Hs. msimpl. by norm_trace.
Qed.

Lemma doPoll_http_error status text json c :
  pollActive c = true → truthy (sessionId c) = true →
  resp_ok status = false → status ≠ 404 →
  doPoll (Response status text json) c
  = (Ok tt,
     set_trace (trace c ++ [Fetch (ReqPoll (default 0 (sessionId c)));
                            Log Warn "[JanusClient] poll error =>";
                            SetTimeout DoPoll 500]) c).
Proof.
  intros Ha Hs Hok Hne. unfold doPoll. msimpl.
  rewrite Ha, Hs. msimpl. rewrite Hok. msimpl.
  destruct (Z.eqb_spec status 404) as [|_]; [done|]. msimpl.
  by norm_trace.
Qed.

Lemma emit_error_run e c :
  emit "error" (PErr e) c
  = (if bool_decide ("error" ∈ listeners c) then Ok tt else Throw e,
     set_trace (trace c ++ [Emit "error" (PErr e)]) c).
Proof.
  unfold emit, bind, gets, act, modify. cbn [String.eqb Ascii.eqb Bool.eqb].
  change (listeners (set_trace _ c)) with (listeners c).
  destruct (bool_decide ("error" ∈ listeners c)); reflexivity.
Qed.

#[local] Arguments emit : simpl never.

Lemma doPoll_not_found text json c :
  pollActive c = true → truthy (sessionId c) = true →
  doPoll (Response 404 text json) c
  = (Ok tt,
     set_pollActive false
       (set_trace
          (trace c ++
             [Fetch (ReqPoll (default 0 (sessionId c)));
              Log Warn "[JanusClient] poll error =>";
              Log Error "[JanusClient] Session not found (404), polling stopped";
              Emit "error" (PErr (Msg "[JanusClient] Session not found (404)"))] ++
             (if bool_decide ("error" ∈ listeners c) then []
              else [Log Error "[JanusClient] poll exception =>";
                    SetTimeout DoPoll 500])) c)).
Proof.
  intros Ha Hs. unfold doPoll. msimpl.
  rewrite Ha, Hs. msimpl. rewrite emit_error_run.
  cbn [listeners set_pollActive set_trace].
  destruct (bool_decide ("error" ∈ listeners c)); msimpl; by norm_trace.
Qed.

(** One run of [doPoll] while polling is active (flag up, session
    known). A fetch that fails and an HTTP error other than 404 are logged
    and the next run is timed after 500 ms, the client otherwise unchanged.
    A 404 lowers the flag and emits the fatal error; no fetch is ever issued
    afterwards, whatever runs later on the event loop. When the application
    listens to ['error'] no timer is set at all; when nobody listens the
    emitter throws into the [catch] of [doPoll], and the run that is then
    still timed finds the flag down and fetches nothing. *)
Theorem poll_iteration_error_handling (c : Client) :
  pollActive c = true → truthy (sessionId c) = true →
  let request := Fetch (ReqPoll (default 0 (sessionId c))) in
  let fatal := Emit "error" (PErr (Msg "[JanusClient] Session not found (404)")) in
  (∀ e,
     doPoll (NetworkError e) c
     = (Ok tt, set_trace (trace c ++ [request;
                                      Log Error "[JanusClient] poll exception =>";
                                      SetTimeout DoPoll 500]) c))
  ∧ (∀ status text json,
       resp_ok status = false → status ≠ 404 →
       doPoll (Response status text json) c
       = (Ok tt, set_trace (trace c ++ [request;
                                        Log Warn "[JanusClient] poll error =>";
                                        SetTimeout DoPoll 500]) c))
  ∧ (∀ text json,
       let c' := exec (doPoll (Response 404 text json)) c in
       result (doPoll (Response 404 text json)) c = Ok tt
       ∧ pollActive c' = false
       ∧ fatal ∈ trace c'
       ∧ ("error" ∈ listeners c →
          trace c'
          = (trace c ++
             [request;
              Log Warn "[JanusClient] poll error =>";
              Log Error "[JanusClient] Session not found (404), polling stopped";
              fatal])%list)
       ∧ (∀ later,
            pollActive (exec (arrive later) c') = false
            ∧ fetches (trace (exec (arrive later) c')) = fetches (trace c'))).
Proof.
  intros Ha Hs request fatal. split; [|split].
  - intros e. by apply doPoll_network_error.
  - intros status text json Hok Hne. by apply doPoll_http_error.
  - intros text json c'. unfold c', exec, result.
    rewrite (doPoll_not_found text json c Ha Hs). simpl.
    split; [done|]. split; [done|]. split; [|split].
    + apply elem_of_app. right. rewrite !elem_of_cons. tauto.
    + intros Hin. by rewrite bool_decide_true by done.
    + intros later. by apply (arrive_stopped later).
Qed.

Lemma poll_iteration_witness :
  pollActive polling_client = true
  ∧ truthy (sessionId polling_client) = true
  ∧ doPoll (Response 500 "Internal Server Error" None) polling_client
    = (Ok tt,
       set_trace (trace polling_client ++
                  [Fetch (ReqPoll 100);
                   Log Warn "[JanusClient] poll error =>";
                   SetTimeout DoPoll 500]) polling_client).
Proof.
  split; [reflexivity|]. split; [reflexivity|].
  refine (proj1 (proj2 (poll_iteration_error_handling polling_client _ _)) 500 _ _ _ _);
    [reflexivity|reflexivity|reflexivity|lia].
Defined.

(** C6 (defect of the code). A 404 does not always end the scheduling. When
    the application has no listener on ['error'], the [emit('error', ...)]
    of the 404 branch throws, as the Node.js emitter does for an ['error']
    nobody listens to; the exception is caught by the [catch] of [doPoll]
    itself, the [return] that follows the emit is never reached, and the
    run ends in [setTimeout(doPoll, 500)] like any other: one more run is
    timed after the loop has logged that polling stopped. The flag being
    down, that run only logs and returns. *)
Theorem not_found_without_listener_times_another_run
    (c : Client) (text : string) (json : option JanusEvent) :
  pollActive c = true → truthy (sessionId c) = true → "error" ∉ listeners c →
  let c' := exec (doPoll (Response 404 text json)) c in
  result (doPoll (Response 404 text json)) c = Ok tt
  ∧ pollActive c' = false
  ∧ trace c'
    = (trace c ++
       [Fetch (ReqPoll (default 0 (sessionId c)));
        Log Warn "[JanusClient] poll error =>";
        Log Error "[JanusClient] Session not found (404), polling stopped";
        Emit "error" (PErr (Msg "[JanusClient] Session not found (404)"));
        Log Error "[JanusClient] poll exception =>";
        SetTimeout DoPoll 500])%list
  ∧ (∀ r, doPoll r c'
          = (Ok tt,
             set_trace (trace c' ++ [Log Debug "[JanusClient] Polling stopped"]) c')).
Proof.
  intros Ha Hs Hl c'. unfold c', result, exec.
  rewrite doPoll_not_found by done.
  rewrite (bool_decide_eq_false_2 _ Hl). simpl.
  split; [done|]. split; [done|]. split; [done|].
  intros r. by rewrite doPoll_inactive.
Qed.

Lemma not_found_without_listener_witness :
  last (trace (exec (doPoll (Response 404 "Not Found" None)) unheard_client))
  = Some (SetTimeout DoPoll 500).
Proof.
  destruct (not_found_without_listener_times_another_run unheard_client
              "Not Found" None) as (_ & _ & Ht & _).
  - reflexivity.
  - reflexivity.
  - apply not_elem_of_nil.
  - rewrite Ht. reflexivity.
Defined.

(** ** Local audio *)

Lemma enableLocalAudio_returns env : returns (enableLocalAudio env).
Proof. unfold enableLocalAudio. ends_tac. Qed.

#[global] Hint Resolve enableLocalAudio_returns : ends.

Lemma pushLocalAudio_returns env push samples rate channels :
  returns (pushLocalAudio env push samples rate channels).
Proof. unfold pushLocalAudio. ends_tac. Qed.

(** C10. [pushLocalAudio] never throws, for any frame, any client and
    whatever the audio platform does: without an audio source it warns and
    calls [enableLocalAudio], which warns and returns when there is no peer
    connection (the frame is then dropped); an error of [pushPcmData] is
    caught and logged. *)
Theorem pushLocalAudio_never_throws
    (env : AudioEnv) (push : Call unit)
    (samples : list Z) (sampleRate channels : Z) (c : Client) :
  result (pushLocalAudio env push samples sampleRate channels) c = Ok tt
  ∧ (localAudioSource c = false → pc c = None →
     exec (pushLocalAudio env push samples sampleRate channels) c
     = set_trace
         (trace c ++
          [Log Warn "[JanusClient] No localAudioSource => enabling now...";
           Log Warn "[JanusClient] enableLocalAudio => No RTCPeerConnection"]) c)
  ∧ (localAudioSource c = true → ∀ e,
     exec (pushLocalAudio env (Throws e) samples sampleRate channels) c
     = set_trace
         (trace c ++
          [PushPcm samples sampleRate channels;
           Log Error "[JanusClient] Error pushing local audio:"]) c).
Proof.
  split; [|split].
  - destruct (pushLocalAudio_returns env push samples sampleRate channels c)
      as [[] H]. exact H.
  - intros Hs Hp. unfold exec, pushLocalAudio, enableLocalAudio. msimpl.
    rewrite Hs. msimpl. rewrite Hp. msimpl. rewrite Hs. msimpl.
    by norm_trace.
  - intros Hs e. unfold exec, pushLocalAudio. msimpl.
    rewrite Hs. msimpl. rewrite Hs. msimpl.
    by norm_trace.
Qed.

Lemma pushLocalAudio_witness :
  localAudioSource fresh_client = false
  ∧ pc fresh_client = None
  ∧ exec (pushLocalAudio broken_audio (Throws (Platform "pushPcmData"))
            [0; 12; -12] 48000 1) fresh_client
    = set_trace
        [Log Warn "[JanusClient] No localAudioSource => enabling now...";
         Log Warn "[JanusClient] enableLocalAudio => No RTCPeerConnection"]
        fresh_client.
Proof.
  split; [reflexivity|]. split; [reflexivity|].
  refine (proj1 (proj2 (pushLocalAudio_never_throws
            broken_audio (Throws (Platform "pushPcmData"))
            [0; 12; -12] 48000 1 fresh_client)) _ _); reflexivity.
Defined.

(** ** What a suspended method can observe *)

#[global] Instance adds_refl Q : Reflexive (adds Q).
Proof. intros c. exists []. by rewrite app_nil_r. Qed.

#[global] Instance adds_trans Q : Transitive (adds Q).
Proof.
  intros c1 c2 c3 (t1 & H1 & Q1) (t2 & H2 & Q2). exists (t1 ++ t2)%list.
  split; [by rewrite H2, H1, app_assoc|].
  rewrite forallb_app. by rewrite Q1, Q2.
Qed.

Lemma adds_mono (Q Q' : Action → bool) c c' :
  (∀ a, Q a = true → Q' a = true) → adds Q c c' → adds Q' c c'.
Proof.
  intros HQ (t & Ht & Hf). exists t. split; [done|].
  apply forallb_forall. intros a Ha.
  apply HQ. revert Ha. by apply forallb_forall.
Qed.

Lemma keeps_adds_mono {A} (Q Q' : Action → bool) (m : M A) :
  (∀ a, Q a = true → Q' a = true) → keeps (adds Q) m → keeps (adds Q') m.
Proof. intros HQ Hm c. eapply adds_mono; [exact HQ|apply Hm]. Qed.

Lemma act_adds Q a : Q a = true → keeps (adds Q) (act a).
Proof. intros Ha c. exists [a]. split; [done|]. simpl. by rewrite Ha. Qed.

Lemma modify_adds Q f :
  (∀ c, trace (f c) = trace c) → keeps (adds Q) (modify f).
Proof. intros H c. exists []. simpl. by rewrite H, app_nil_r. Qed.

#[global] Hint Extern 2 (keeps (adds _) (act _)) =>
  (apply act_adds; reflexivity) : keeps.
#[global] Hint Extern 2 (keeps (adds _) (log _ _)) =>
  (apply act_adds; reflexivity) : keeps.
#[global] Hint Extern 2 (keeps (adds _) (modify _)) =>
  (apply modify_adds; intros ?; reflexivity) : keeps.

Lemma eventHandler_bus i e : keeps (adds bus_action) (eventHandler i e).
Proof. unfold eventHandler, clearTimeout, removeListener, resolve. keeps_tac. Qed.

#[global] Hint Resolve eventHandler_bus : keeps.

Lemma emit_bus name p : keeps (adds bus_action) (emit name p).
Proof. unfold emit. keeps_tac. Qed.

Lemma timeout_fires_bus i : keeps (adds bus_action) (timeout_fires i).
Proof. unfold timeout_fires, reject. keeps_tac. Qed.

#[global] Hint Resolve emit_bus timeout_fires_bus : keeps.

Lemma handleJanusEvent_bus e : keeps (adds bus_action) (handleJanusEvent e).
Proof. unfold handleJanusEvent. keeps_tac. Qed.

#[global] Hint Resolve handleJanusEvent_bus : keeps.

Lemma doPoll_bus r : keeps (adds bus_action) (doPoll r).
Proof. unfold doPoll. keeps_tac. Qed.

#[global] Hint Resolve doPoll_bus : keeps.

Lemma bus_step_bus a : keeps (adds bus_action) (bus_step a).
Proof. destruct a; simpl; keeps_tac. Qed.

#[global] Hint Resolve bus_step_bus : keeps.

Lemma arrive_bus l : keeps (adds bus_action) (arrive l).
Proof. unfold arrive. keeps_tac. Qed.

#[global] Hint Resolve arrive_bus : keeps.

Lemma await_waiter_bus i l : keeps (adds bus_action) (await_waiter i l).
Proof. induction l as [|a l IH]; simpl; keeps_tac. Qed.

#[global] Hint Resolve await_waiter_bus : keeps.

(** *** A pending promise keeps its timer *)

#[global] Instance keeps_wait_refl i : Reflexive (keeps_wait i).
Proof. by intros c H. Qed.

#[global] Instance keeps_wait_trans i : Transitive (keeps_wait i).
Proof. intros c1 c2 c3 H12 H23 H. auto. Qed.

Lemma armed_fire e w : armed w → armed (fire e w).
Proof.
  unfold armed, fire. destruct (w_predicate w e); [|done].
  simpl. by destruct (w_promise w).
Qed.

Lemma armed_expire w : armed w → armed (expire w).
Proof.
  unfold armed, expire. destruct (w_timer w) eqn:E.
  - simpl. by destruct (w_promise w).
  - intros H Hp. by specialize (H Hp).
Qed.

Lemma alter_wait i j f c c' :
  waiters c' = alter f j (waiters c) → (∀ w, armed w → armed (f w)) →
  keeps_wait i c c'.
Proof.
  intros Hw Hf (w & Hl & Ha). unfold wait_ok. rewrite Hw.
  destruct (decide (j = i)) as [->|Hne].
  - rewrite list_lookup_alter_eq, Hl. simpl. eauto.
  - rewrite list_lookup_alter_ne by done. eauto.
Qed.

Lemma same_waiters_wait i c c' : waiters c' = waiters c → keeps_wait i c c'.
Proof. intros Hw. unfold keeps_wait, wait_ok. by rewrite Hw. Qed.

Lemma modify_wait i f :
  (∀ c, waiters (f c) = waiters c) → keeps (keeps_wait i) (modify f).
Proof. intros H c. apply same_waiters_wait. apply H. Qed.

#[global] Hint Extern 2 (keeps (keeps_wait _) (act _)) =>
  (apply modify_wait; intros ?; reflexivity) : keeps.
#[global] Hint Extern 2 (keeps (keeps_wait _) (log _ _)) =>
  (apply modify_wait; intros ?; reflexivity) : keeps.
#[global] Hint Extern 2 (keeps (keeps_wait _) (modify _)) =>
  (apply modify_wait; intros ?; reflexivity) : keeps.

Lemma eventHandler_wait i j e : keeps (keeps_wait i) (eventHandler j e).
Proof.
  intros c. eapply alter_wait; [apply exec_eventHandler|]. apply armed_fire.
Qed.

Lemma timeout_fires_wait i j : keeps (keeps_wait i) (timeout_fires j).
Proof.
  intros c. eapply alter_wait; [apply exec_timeout_fires|]. apply armed_expire.
Qed.

#[global] Hint Resolve eventHandler_wait timeout_fires_wait : keeps.

Lemma emit_wait i name p : keeps (keeps_wait i) (emit name p).
Proof. unfold emit. keeps_tac. Qed.

#[global] Hint Resolve emit_wait : keeps.

Lemma doPoll_wait i r : keeps (keeps_wait i) (doPoll r).
Proof. intros c. apply same_waiters_wait. apply doPoll_waiters. Qed.

#[global] Hint Resolve doPoll_wait : keeps.

Lemma bus_step_wait i a : keeps (keeps_wait i) (bus_step a).
Proof. destruct a; simpl; keeps_tac. Qed.

#[global] Hint Resolve bus_step_wait : keeps.

Lemma arrive_wait i l : keeps (keeps_wait i) (arrive l).
Proof. unfold arrive. keeps_tac. Qed.

#[global] Hint Resolve arrive_wait : keeps.

(** Awaiting a waiter whose pending promise has its timer always settles:
    with the event that fulfilled the promise or with the error that
    rejected it. *)
Lemma await_waiter_settles i l c :
  wait_ok i c → (await_waiter i l c).1 ≠ Hang.
Proof.
  revert c. induction l as [|a l IH]; intros c Hok.
  - destruct Hok as (w & Hw & Ha). simpl. unfold bind at 1. simpl.
    rewrite (promise_of_lookup _ _ _ Hw).
    destruct (w_promise w) eqn:Hp; [|done|done].
    unfold bind at 1.
    destruct (timeout_fires_returns i c) as [[] Hr].
    pose proof (exec_timeout_fires i c) as Hx. unfold exec in Hx.
    destruct (timeout_fires i c) as [r c'] eqn:Hc. simpl in *. subst r.
    unfold bind, gets. simpl. unfold promise_of. rewrite Hx.
    rewrite list_lookup_alter_eq, Hw. simpl.
    unfold expire. rewrite (Ha Hp). simpl. by rewrite Hp.
  - simpl. unfold bind at 1. simpl.
    destruct (promise_of i c); [|done|done].
    unfold bind at 1.
    destruct (bus_step_returns a c) as [[] Hr].
    pose proof (bus_step_wait i a c Hok) as Hx.
    destruct (bus_step a c) as [r c'] eqn:Hc. simpl in *. subst r.
    by apply IH.
Qed.

(** ** Requests on a handle *)

#[local] Arguments fetch : simpl never.
#[local] Arguments arrive : simpl never.
#[local] Arguments await_waiter : simpl never.
#[local] Arguments sendJanusMessage : simpl never.
#[local] Arguments attachPlugin : simpl never.
#[local] Arguments doPoll : simpl never.

Lemma arrive_run l c :
  ∃ c', arrive l c = (Ok tt, c')
        ∧ same_core c c' ∧ adds bus_action c c' ∧ ∀ i, keeps_wait i c c'.
Proof.
  destruct (arrive_returns l c) as [[] Hr].
  pose proof (arrive_core l c) as H1. pose proof (arrive_bus l c) as H2.
  pose proof (λ i, arrive_wait i l c) as H3.
  destruct (arrive l c) as [r c']. simpl in *. subst r. by exists c'.
Qed.

Lemma fetch_trace {B} req (f : Fetched B) c :
  ∃ t, trace (exec (fetch req f) c) = (trace c ++ Fetch req :: t)%list
       ∧ forallb bus_action t = true.
Proof.
  unfold exec, fetch. unfold bind at 1. simpl.
  set (c1 := set_trace _ c). unfold bind at 1.
  destruct (arrive_run (during f) c1) as (c2 & -> & _ & (t & Ht & Hq) & _).
  exists t. split; [|done].
  destruct (outcome f); simpl; rewrite Ht; unfold c1; simpl;
    by rewrite <- app_assoc.
Qed.

Lemma sendJanusMessage_trace h b j f c :
  truthy (sessionId c) = true →
  ∃ t, trace (exec (sendJanusMessage h b j f) c)
       = (trace c ++ Fetch (ReqMessage (default 0 (sessionId c)) h b j) :: t)%list
       ∧ forallb bus_action t = true.
Proof.
  intros Hs. unfold exec, sendJanusMessage. unfold bind at 1. simpl.
  rewrite Hs. simpl. unfold try_catch. unfold bind at 1.
  destruct (fetch_trace (ReqMessage (default 0 (sessionId c)) h b j) f c)
    as (t & Ht & Hq).
  unfold exec in Ht.
  destruct (fetch _ f c) as [[[[status text] json]|e|] c'] eqn:Hf; simpl in *.
  - destruct (resp_ok status); simpl.
    + by exists t.
    + exists (t ++ [Log Error "[JanusClient] Failed to send Janus message:"])%list.
      rewrite Ht, <- app_assoc. split; [done|].
      rewrite forallb_app, Hq. done.
  - exists (t ++ [Log Error "[JanusClient] Failed to send Janus message:"])%list.
    rewrite Ht, <- app_assoc. split; [done|].
    rewrite forallb_app, Hq. done.
  - by exists t.
Qed.

Lemma fetch_settles {B} req (f : Fetched B) : settles (fetch req f).
Proof. unfold fetch. ends_tac. Qed.

#[global] Hint Resolve fetch_settles : ends.

Lemma sendJanusMessage_settles h b j f : settles (sendJanusMessage h b j f).
Proof. unfold sendJanusMessage. ends_tac. Qed.

Lemma attachPlugin_settles f : settles (attachPlugin f).
Proof. unfold attachPlugin. ends_tac. Qed.

Lemma createSession_settles f : settles (createSession f).
Proof. unfold createSession. ends_tac. Qed.

#[global] Hint Resolve sendJanusMessage_settles attachPlugin_settles
  createSession_settles : ends.

(** ** Answers to the session and handle requests *)

Lemma fetch_run {B} req (f : Fetched B) c :
  fetch req f c
  = (match outcome f with
     | NetworkError e => Throw e
     | Response status text json => Ok (status, text, json)
     end,
     exec (arrive (during f)) (set_trace (trace c ++ [Fetch req]) c)).
Proof.
  unfold fetch, exec. unfold bind at 1. simpl.
  set (c1 := set_trace _ c). unfold bind at 1.
  destruct (arrive_run (during f) c1) as (c2 & -> & _). simpl.
  by destruct (outcome f).
Qed.

Lemma fetch_listeners {B} req (f : Fetched B) c :
  listeners (exec (fetch req f) c) = listeners c.
Proof. by destruct (fetch_core req f c). Qed.

(** An awaited [fetch], split into its result and the client after it. *)
Lemma fetch_split {B} req (f : Fetched B) c :
  fetch req f c
  = (match outcome f with
     | NetworkError e => Throw e
     | Response status text json => Ok (status, text, json)
     end,
     exec (fetch req f) c)
  ∧ listeners (exec (fetch req f) c) = listeners c.
Proof.
  split; [|apply fetch_listeners].
  unfold exec. by rewrite fetch_run.
Qed.

(** Runs the failure path of a request method: the [emit] of the [try]
    block, where there is one, and that of the [catch] block. *)
Ltac request_fails Hl :=
  msimpl; rewrite emit_error_run; simpl; rewrite Hl;
  let Hb := fresh "Hb" in
  destruct (bool_decide _) eqn:Hb; simpl;
  [ first [ by norm_trace
          | msimpl; rewrite emit_error_run; simpl; rewrite Hl, Hb; simpl;
            by norm_trace ]
  | first [ by norm_trace
          | msimpl; rewrite emit_error_run; simpl; rewrite Hl, Hb; simpl;
            by norm_trace ] ].

Lemma attachPlugin_run (f : Fetched Envelope) (c : Client) :
  let c1 := exec (fetch (ReqAttach (default 0 (sessionId c))) f) c in
  let label := "[JanusClient] Failed to attach to plugin:" in
  let ctx := "[JanusClient] Plugin attachment failed" in
  let fails t e := (Throw (rethrown ctx c e), set_trace (trace c1 ++ t) c1) in
  attachPlugin f c
  = if truthy (sessionId c) then
      match outcome f with
      | NetworkError e => fails (caught label ctx e) e
      | Response status text json =>
          if resp_ok status then
            match json with
            | None => fails (caught label ctx (Platform "resp.json")) (Platform "resp.json")
            | Some json =>
                if env_janus json =? "success" then
                  (Ok (env_data_id json),
                   set_trace
                     (trace c1 ++ [Log Debug "[JanusClient] Plugin attached, handle ID:"]) c1)
                else
                  let e := BadEnvelope "[JanusClient] attachPlugin invalid response"
                                       (env_janus json) in
                  fails (refused "[JanusClient] attachPlugin invalid response" label ctx e) e
            end
          else
            let e := Http "[JanusClient] attachPlugin failed" status text in
            fails (refused "[JanusClient] attachPlugin failed" label ctx e) e
      end
    else (Throw (Msg "[JanusClient] attachPlugin => no sessionId"), c).
Proof.
  intros c1 label ctx fails. unfold fails, rethrown, caught, refused.
  destruct (fetch_split (ReqAttach (default 0 (sessionId c))) f c) as [Hr Hl].
  fold c1 in Hr, Hl. clearbody c1. clear fails.
  unfold attachPlugin. unfold bind at 1. simpl.
  destruct (truthy (sessionId c)); simpl; [|done].
  unfold try_catch. unfold bind at 1. rewrite Hr.
  destruct (outcome f) as [e|status text json]; simpl.
  - request_fails Hl.
  - destruct (resp_ok status); simpl.
    + destruct json as [json|]; simpl.
      * destruct (env_janus json =? "success"); simpl; [done|]. request_fails Hl.
      * request_fails Hl.
    + request_fails Hl.
Qed.

(** When [attachPlugin] returns, what it returns is [data.id] of the
    answer of the gateway. *)
Lemma attachPlugin_ok_inv f c h c1 :
  attachPlugin f c = (Ok h, c1) →
  ∃ status text answer,
    outcome f = Response status text (Some answer) ∧ env_data_id answer = h.
Proof.
  rewrite attachPlugin_run. cbv zeta.
  destruct (truthy (sessionId c)); [|discriminate].
  destruct (outcome f) as [e|status text json]; [discriminate|].
  destruct (resp_ok status); [|discriminate].
  destruct json as [answer|]; [|discriminate].
  destruct (env_janus answer =? "success"); [|discriminate].
  intros [= <- _]. by exists status, text, answer.
Qed.

(** ** ICE state of the publisher *)

Lemma restartIce_run env c n s :
  pc c = Some n → truthy (handleId c) = true → truthy (sessionId c) = true →
  oe_createOffer env = Returns s → oe_setLocalDescription env = Returns tt →
  result (restartIce env) c = Ok tt
  ∧ ∃ rest,
      trace (exec (restartIce env) c)
      = (trace c ++
         [Log Info "[JanusClient] Attempting to restart ICE negotiation...";
          CreateOffer n true;
          SetLocalDescription n;
          Fetch (ReqMessage (default 0 (sessionId c)) (default 0 (handleId c))
                   (Configure (roomId (config c)) (userId (config c)) None
                              (streamName (config c)) (credential (config c)))
                   (Some (mkJsep "offer" s)))] ++ rest)%list
      ∧ forallb bus_action rest = true.
Proof.
  intros Hp Hh Hs Ho Hl.
  unfold result, exec, restartIce, pc_createOffer, pc_setLocalDescription.
  msimpl. rewrite Hp. msimpl. rewrite Hh. msimpl. rewrite Ho. msimpl.
  rewrite Hl. msimpl.
  match goal with
  | |- context [sendJanusMessage ?h ?b ?j ?f ?cx] =>
      destruct (sendJanusMessage_trace h b j f cx Hs) as (t & Ht & Hq);
      pose proof (sendJanusMessage_settles h b j f cx) as Hset;
      unfold exec in Ht;
      destruct (sendJanusMessage h b j f cx) as [[[]|e|] c2]
  end; simpl in *; [| |done].
  - split; [done|].
    exists (t ++ [Log Info "[JanusClient] ICE restart initiated"])%list.
    rewrite Ht. rewrite <- !app_assoc. split; [done|].
    by rewrite forallb_app, Hq.
  - split; [done|].
    exists (t ++ [Log Error "[JanusClient] ICE restart failed:"])%list.
    rewrite Ht. rewrite <- !app_assoc. split; [done|].
    by rewrite forallb_app, Hq.
Qed.

Lemma restart_sends_app t1 t2 :
  restart_sends (t1 ++ t2) = (restart_sends t1 + restart_sends t2)%nat.
Proof. unfold restart_sends. by rewrite List.filter_app, length_app. Qed.

Lemma restart_sends_bus t : forallb bus_action t = true → restart_sends t = 0%nat.
Proof.
  unfold restart_sends. induction t as [|a t IH]; [done|].
  simpl. intros [Ha Ht]%andb_prop.
  destruct a as [| |[]| | | | | | | | | | | | | | | |]; simpl in *;
    try discriminate; by apply IH.
Qed.

(** C3, as stated, fails: the listener of [setupPeerEvents] starts no timer.
    The connection is reported disconnected and, one second later (within
    the grace period of 5 s), connected again: one ICE-restart offer has been
    sent all the same, and no timer was ever set. *)
Lemma restart_sent_despite_recovery :
  let c' := exec (ice_timeline blip) publishing_client in
  (1000 - 0 < grace_period)%Z
  ∧ restart_sends (trace publishing_client) = 0%nat
  ∧ restart_sends (trace c') = 1%nat
  ∧ List.filter is_timer (trace c') = [].
Proof. vm_compute. repeat split; reflexivity. Qed.

(** C3, amended. When the ICE state of the publisher's connection becomes
    ['disconnected'], the listener calls [restartIce] at once, without a
    grace timer and whatever the time: with a handle and a session, and the
    platform creating and setting the offer, one offer flagged [iceRestart]
    is created and sent with ["configure"] (exactly one more restart offer
    than before); nothing but callbacks of the event loop follows. For any
    other state the listener only logs. *)
Theorem disconnected_restarts_ice_at_once
    (c : Client) (n : nat) (x : PeerConnection) (t : Z)
    (env : OfferEnv) (s : string) :
  pc c = Some n → conns c !! n = Some x → pc_events x = Some PublisherEvents →
  truthy (handleId c) = true → truthy (sessionId c) = true →
  oe_createOffer env = Returns s → oe_setLocalDescription env = Returns tt →
  let c' := exec (ice_state_change t n IceDisconnected env) c in
  result (ice_state_change t n IceDisconnected env) c = Ok tt
  ∧ (∃ rest,
       trace c'
       = (trace c ++
          [Log Debug "[JanusClient] ICE connection state:";
           Log Warn "[JanusClient] ICE connection disconnected, attempting restart...";
           Log Info "[JanusClient] Attempting to restart ICE negotiation...";
           CreateOffer n true;
           SetLocalDescription n;
           Fetch (ReqMessage (default 0 (sessionId c)) (default 0 (handleId c))
                    (Configure (roomId (config c)) (userId (config c)) None
                               (streamName (config c)) (credential (config c)))
                    (Some (mkJsep "offer" s)))] ++ rest)%list
       ∧ forallb bus_action rest = true)
  ∧ restart_sends (trace c') = S (restart_sends (trace c))
  ∧ (∀ st, st ≠ IceDisconnected →
       ice_state_change t n st env c
       = (Ok tt,
          set_trace (trace c ++ [Log Debug "[JanusClient] ICE connection state:"])
                    (upd_conn n (with_ice st) c))).
Proof.
  intros Hp Hx Hev Hh Hs Ho Hl c'.
  assert (Hrun :
    ice_state_change t n IceDisconnected env c
    = restartIce env
        (set_trace
           (trace c ++
            [Log Debug "[JanusClient] ICE connection state:";
             Log Warn "[JanusClient] ICE connection disconnected, attempting restart..."])
           (upd_conn n (with_ice IceDisconnected) c))).
  { unfold ice_state_change, publisher_ice_listener. msimpl.
    rewrite list_lookup_alter_eq, Hx. simpl. rewrite Hev. msimpl.
    rewrite Hp. simpl. rewrite list_lookup_alter_eq, Hx. simpl.
    norm_trace. done. }
  set (c1 := set_trace _ (upd_conn n (with_ice IceDisconnected) c)) in Hrun.
  destruct (restartIce_run env c1 n s Hp Hh Hs Ho Hl) as (Hr & rest & Ht & Hq).
  assert (Htrace :
    trace c'
    = (trace c ++
       [Log Debug "[JanusClient] ICE connection state:";
        Log Warn "[JanusClient] ICE connection disconnected, attempting restart...";
        Log Info "[JanusClient] Attempting to restart ICE negotiation...";
        CreateOffer n true;
        SetLocalDescription n;
        Fetch (ReqMessage (default 0 (sessionId c)) (default 0 (handleId c))
                 (Configure (roomId (config c)) (userId (config c)) None
                            (streamName (config c)) (credential (config c)))
                 (Some (mkJsep "offer" s)))] ++ rest)%list).
  { unfold c', exec. rewrite Hrun. unfold exec in Ht. rewrite Ht.
    unfold c1. simpl. by rewrite <- !app_assoc. }
  split; [|split; [|split]].
  - unfold result. rewrite Hrun. exact Hr.
  - by exists rest.
  - rewrite Htrace, !restart_sends_app, (restart_sends_bus rest Hq).
    unfold restart_sends at 2. simpl. lia.
  - intros st Hst. unfold ice_state_change, publisher_ice_listener. msimpl.
    rewrite list_lookup_alter_eq, Hx. simpl. rewrite Hev. msimpl.
    rewrite Hp. simpl. rewrite list_lookup_alter_eq, Hx. simpl.
    rewrite bool_decide_false by congruence. msimpl. done.
Qed.

Lemma disconnected_restarts_witness :
  pc publishing_client = Some 0%nat
  ∧ restart_sends
      (trace (exec (ice_state_change 0 0 IceDisconnected good_offer)
                   publishing_client))
    = S (restart_sends (trace publishing_client)).
Proof.
  split; [reflexivity|].
  refine (proj1 (proj2 (proj2 (disconnected_restarts_ice_at_once
            publishing_client 0 (mkPc false IceNew (Some PublisherEvents) None None 0)
            0 good_offer "v=0 offer of the client" _ _ _ _ _ _ _))));
    reflexivity.
Defined.

(** ** Order of registration and request *)

(** C5 (defect of the code). The host join and the guest join register
    their waiter before they send the join request. [subscribeSpeaker] does
    not: it sends the subscriber join, awaits its response and only then
    registers the waiter of the "attached" event. An "attached" event
    published while the join is in flight is therefore lost, and the
    subscription ends in the timeout warning; the same event published after
    the request has returned completes the subscription. *)
Theorem subscriber_waiter_registered_after_join :
  registered_before_sent (appended (joinRoom host_join) polling_client) = true
  ∧ registered_before_sent
      (appended (initializeGuestSpeaker "uuid"
                   (guest_scenario joined_event (λ _, subscription 300 false)))
                fresh_client) = true
  ∧ registered_before_sent
      (appended (subscribeSpeaker "alice" 55 (subscription 300 false))
                polling_client) = false
  ∧ position is_join_send
      (appended (subscribeSpeaker "alice" 55 (subscription 300 false))
                polling_client) = Some 6%nat
  ∧ position is_on
      (appended (subscribeSpeaker "alice" 55 (subscription 300 false))
                polling_client) = Some 8%nat
  ∧ subscribers (exec (subscribeSpeaker "alice" 55 (subscription 300 false))
                      polling_client) !! "alice"
    = Some (mkSub 300 0)
  ∧ subscribers (exec (subscribeSpeaker "alice" 55 (subscription 300 true))
                      polling_client) !! "alice"
    = None
  ∧ Emit "warning"
      (PErr (subscribe_failed "alice" (timeout_error "subscriber attached + offer")))
    ∈ trace (exec (subscribeSpeaker "alice" 55 (subscription 300 true))
                  polling_client).
Proof.
  repeat split; try (vm_compute; reflexivity).
  apply list_elem_of_In. vm_compute. tauto.
Qed.

(** ** Subscriptions *)

#[local] Arguments waitForJanusEventWithPredicate : simpl never.

Lemma waitFor_run P t d c :
  waitForJanusEventWithPredicate P t d c
  = (Ok (length (waiters c)),
     set_trace (trace c ++ [SetTimeout (RejectWaiter (length (waiters c))) t;
                            On (length (waiters c))])
       (set_waiters (waiters c ++ [fresh_waiter P t d]) c)).
Proof. unfold waitForJanusEventWithPredicate. msimpl. by rewrite <- app_assoc. Qed.

Lemma waitFor_await_settles {B} P t d l (k : JanusEvent → M B) :
  (∀ e, settles (k e)) →
  settles (bind (waitForJanusEventWithPredicate P t d)
                (λ w, bind (await_waiter w l) k)).
Proof.
  intros Hk c. unfold bind at 1. rewrite waitFor_run.
  set (c1 := set_trace _ _). unfold bind.
  assert (Hok : wait_ok (length (waiters c)) c1).
  { exists (fresh_waiter P t d). split; [|done].
    unfold c1. simpl. by apply list_lookup_middle. }
  pose proof (await_waiter_settles _ l c1 Hok) as Hs.
  destruct (await_waiter _ l c1) as [[e|err|] c2]; simpl in *;
    [apply Hk|done|done].
Qed.

Ltac settles_tac :=
  repeat first
    [ lazymatch goal with
      | |- settles (bind (waitForJanusEventWithPredicate _ _ _) _) =>
          apply waitFor_await_settles; intros ?
      end
    | ends_step ].

Lemma new_pc_settles r : settles (new_pc r).
Proof. unfold new_pc. ends_tac. Qed.

Lemma pc_setRemoteDescription_settles n d r : settles (pc_setRemoteDescription n d r).
Proof. unfold pc_setRemoteDescription. ends_tac. Qed.

Lemma pc_setLocalDescription_settles n d r : settles (pc_setLocalDescription n d r).
Proof. unfold pc_setLocalDescription. ends_tac. Qed.

Lemma pc_createAnswer_settles n r : settles (pc_createAnswer n r).
Proof. unfold pc_createAnswer. ends_tac. Qed.

Lemma pc_createOffer_settles n b r : settles (pc_createOffer n b r).
Proof. unfold pc_createOffer. ends_tac. Qed.

#[global] Hint Resolve new_pc_settles pc_setRemoteDescription_settles
  pc_setLocalDescription_settles pc_createAnswer_settles
  pc_createOffer_settles : ends.

Lemma subscribe_steps_settles user feedId env :
  settles (subscribe_steps user feedId env).
Proof. unfold subscribe_steps. settles_tac. Qed.

(** [subscribeSpeaker] returns, whatever happens in its steps. *)
Lemma subscribeSpeaker_returns user feedId env :
  returns (subscribeSpeaker user feedId env).
Proof.
  unfold subscribeSpeaker.
  apply returns_bind; [ends_tac|intros ?].
  apply returns_bind; [ends_tac|intros ?].
  apply returns_try_catch; [apply subscribe_steps_settles|intros ?].
  ends_tac.
Qed.

#[global] Hint Resolve subscribeSpeaker_returns : ends.

#[global] Instance same_subscribers_refl : Reflexive same_subscribers.
Proof. by intros c. Qed.

#[global] Instance same_subscribers_trans : Transitive same_subscribers.
Proof. unfold same_subscribers. intros c1 c2 c3 ??. congruence. Qed.

Lemma keeps_core_subscribers {A} (m : M A) :
  keeps same_core m → keeps same_subscribers m.
Proof. intros H c. apply H. Qed.

Lemma modify_subscribers f :
  (∀ c, subscribers (f c) = subscribers c) → keeps same_subscribers (modify f).
Proof. intros H c. apply H. Qed.

#[global] Hint Extern 2 (keeps same_subscribers (modify _)) =>
  (apply modify_subscribers; intros ?; reflexivity) : keeps.
#[global] Hint Extern 2 (keeps same_subscribers (act _)) =>
  (apply modify_subscribers; intros ?; reflexivity) : keeps.
#[global] Hint Extern 2 (keeps same_subscribers (log _ _)) =>
  (apply modify_subscribers; intros ?; reflexivity) : keeps.
#[global] Hint Extern 4 (keeps same_subscribers _) =>
  (apply keeps_core_subscribers; solve [eauto with keeps]) : keeps.

Lemma new_pc_subscribers r : keeps same_subscribers (new_pc r).
Proof. unfold new_pc. keeps_tac. Qed.

Lemma pc_setRemoteDescription_subscribers n d r :
  keeps same_subscribers (pc_setRemoteDescription n d r).
Proof. unfold pc_setRemoteDescription. keeps_tac. Qed.

Lemma pc_setLocalDescription_subscribers n d r :
  keeps same_subscribers (pc_setLocalDescription n d r).
Proof. unfold pc_setLocalDescription. keeps_tac. Qed.

Lemma pc_createAnswer_subscribers n r : keeps same_subscribers (pc_createAnswer n r).
Proof. unfold pc_createAnswer. keeps_tac. Qed.

Lemma pc_createOffer_subscribers n b r : keeps same_subscribers (pc_createOffer n b r).
Proof. unfold pc_createOffer. keeps_tac. Qed.

#[global] Hint Resolve new_pc_subscribers pc_setRemoteDescription_subscribers
  pc_setLocalDescription_subscribers pc_createAnswer_subscribers
  pc_createOffer_subscribers : keeps.

Section Unless.
Context (R : Client → Client → Prop) `{!Reflexive R} `{!Transitive R}.

Lemma unless_ok_keeps {A} (m : M A) : keeps R m → unless_ok R m.
Proof. intros H c. specialize (H c). by destruct (m c).1. Qed.

Lemma unless_ok_returns {A} (m : M A) : returns m → unless_ok R m.
Proof. intros H c. destruct (H c) as [a ->]. done. Qed.

Lemma unless_ok_bind {A B} (m : M A) (k : A → M B) :
  keeps R m → (∀ a, unless_ok R (k a)) → unless_ok R (bind m k).
Proof.
  intros Hm Hk c. unfold bind. specialize (Hm c).
  destruct (m c) as [[a|e|] c1]; simpl in *; [|done|done].
  specialize (Hk a c1). destruct (k a c1) as [[b|e|] c2]; simpl in *;
    [done|by etrans|by etrans].
Qed.

End Unless.

Ltac unless_step :=
  lazymatch goal with
  | |- unless_ok _ (bind _ _) =>
      apply unless_ok_bind; try tc_solve; [keeps_tac|intros ?]
  | |- unless_ok _ (if ?b then _ else _) => destruct b
  | |- unless_ok _ (match ?x with _ => _ end) => destruct x
  | |- unless_ok _ (modify _) => apply unless_ok_returns; apply returns_modify
  | |- unless_ok _ _ => apply unless_ok_keeps; try tc_solve; keeps_tac
  end.

(** The map of subscribers is written in the last step only. *)
Lemma subscribe_steps_unless_ok user feedId env :
  unless_ok same_subscribers (subscribe_steps user feedId env).
Proof. unfold subscribe_steps. repeat unless_step. Qed.

#[global] Instance same_others_refl user : Reflexive (same_others user).
Proof. by intros c other. Qed.

#[global] Instance same_others_trans user : Transitive (same_others user).
Proof. intros c1 c2 c3 H12 H23 other Hne. by rewrite H23, H12. Qed.

Lemma emit_warning_run p c :
  emit "warning" p c = (Ok tt, set_trace (trace c ++ [Emit "warning" p]) c).
Proof.
  unfold emit, bind, gets, act, modify. cbn [String.eqb Ascii.eqb Bool.eqb andb].
  reflexivity.
Qed.

Lemma subscribeSpeaker_run user feedId env c :
  subscribeSpeaker user feedId env c
  = match subscribe_steps user feedId env (entered user feedId c) with
    | (Throw error, c1) =>
        (Ok tt,
         set_trace
           (trace c1 ++
            [Log Error ("[JanusClient] Failed to subscribe to speaker " +:+ user +:+ ":");
             Emit "warning" (PErr (subscribe_failed user error))]) c1)
    | r => r
    end.
Proof.
  unfold subscribeSpeaker. unfold bind at 1. simpl. unfold bind at 1. simpl.
  rewrite set_trace_set_trace, <- app_assoc. cbn [app].
  fold (entered user feedId c). unfold try_catch.
  destruct (subscribe_steps user feedId env (entered user feedId c))
    as [[[]|e|] c1]; [done| |done].
  unfold bind at 1. simpl. rewrite emit_warning_run.
  by rewrite set_trace_set_trace, trace_set_trace, <- app_assoc.
Qed.

Lemma keeps_subscribers_others {A} user (m : M A) :
  keeps same_subscribers m → keeps (same_others user) m.
Proof. intros Hm x o _. by rewrite (Hm x). Qed.

Lemma subscribe_steps_others user feedId env :
  keeps (same_others user) (subscribe_steps user feedId env).
Proof.
  unfold subscribe_steps.
  repeat first
    [ apply keeps_subscribers_others; solve [keeps_tac]
    | lazymatch goal with
      | |- keeps _ (bind _ _) => apply keeps_bind; try tc_solve; [|intros ?]
      | |- keeps _ (if ?b then _ else _) => destruct b
      | |- keeps _ (match ?x with _ => _ end) => destruct x
      | |- keeps _ (modify _) =>
          apply keeps_modify; intros x o Ho; simpl; by rewrite lookup_insert_ne
      end ].
Qed.

(** A [subscribeSpeaker] leaves the entries of the other participants. *)
Lemma subscribeSpeaker_others user feedId env c other :
  other ≠ user →
  subscribers (exec (subscribeSpeaker user feedId env) c) !! other
  = subscribers c !! other.
Proof.
  intros Hne. unfold exec. rewrite subscribeSpeaker_run.
  pose proof (subscribe_steps_others user feedId env
                (entered user feedId c) other Hne) as Hk.
  by destruct (subscribe_steps user feedId env (entered user feedId c))
    as [[[]|e|] c1].
Qed.

(** C7. Whatever goes wrong in a step of [subscribeSpeaker] (the attach, the
    discovery of the feed, the join, the wait for the offer, the peer
    connection, the start), the method returns: the error is caught, logged
    and emitted as a ['warning'], and the map of subscribers is left as it
    was. In every case the entries of the other participants are unchanged. *)
Theorem subscribe_failure_is_isolated
    (c : Client) (user : string) (feedId : Z) (env : SubscribeEnv) :
  let c' := exec (subscribeSpeaker user feedId env) c in
  result (subscribeSpeaker user feedId env) c = Ok tt
  ∧ (∀ other, other ≠ user → subscribers c' !! other = subscribers c !! other)
  ∧ (∀ error,
       result (subscribe_steps user feedId env) (entered user feedId c) = Throw error →
       let c1 := exec (subscribe_steps user feedId env) (entered user feedId c) in
       c' = set_trace
              (trace c1 ++
               [Log Error ("[JanusClient] Failed to subscribe to speaker " +:+ user +:+ ":");
                Emit "warning" (PErr (subscribe_failed user error))]) c1
       ∧ subscribers c' = subscribers c).
Proof.
  intros c'.
  pose proof (subscribe_steps_unless_ok user feedId env (entered user feedId c)) as Hu.
  split; [|split].
  - destruct (subscribeSpeaker_returns user feedId env c) as [[] H]. exact H.
  - intros other Hne. by apply subscribeSpeaker_others.
  - intros error Hr c1. unfold c', exec. rewrite subscribeSpeaker_run.
    unfold result in Hr. unfold c1, exec.
    destruct (subscribe_steps user feedId env (entered user feedId c))
      as [r c2]; simpl in *. subst r. simpl. split; [done|exact Hu].
Qed.

Lemma subscribe_failure_witness :
  result (subscribe_steps "alice" 55 (subscription 300 true))
         (entered "alice" 55 polling_client)
  = Throw (timeout_error "subscriber attached + offer")
  ∧ subscribers (exec (subscribeSpeaker "alice" 55 (subscription 300 true))
                      polling_client)
    = subscribers polling_client.
Proof.
  split; [vm_compute; reflexivity|].
  refine (proj2 (proj2 (proj2 (subscribe_failure_is_isolated
            polling_client "alice" 55 (subscription 300 true)))
            (timeout_error "subscriber attached + offer") _)).
  vm_compute. reflexivity.
Defined.

(** *** A completed subscription *)

(** Runs the first method of the goal [match bind m k c with ...], keeping
    [same_core] across it; only the case in which it returns is left. *)
Ltac step_core H a c1 :=
  unfold bind at 1;
  lazymatch goal with
  | |- context [match ?m ?c with _ => _ end] =>
      assert (H : same_core c (m c).2)
        by (generalize c; change (keeps same_core m); keeps_tac);
      let r := fresh "r" in
      destruct (m c) as [r c1]; destruct r as [a|?|]; simpl in H |- *;
      [|exact I|exact I]
  end.

Lemma subscribe_steps_recorded user feedId env c :
  match subscribe_steps user feedId env c with
  | (Ok _, c') => ∃ h, attached_handle (se_attach env) h ∧ recorded user h c c'
  | _ => True
  end.
Proof.
  unfold subscribe_steps.
  unfold bind at 1.
  pose proof (attachPlugin_core (se_attach env) c) as H1.
  destruct (attachPlugin (se_attach env) c) as [[h|?|] c1] eqn:Ha;
    simpl in H1 |- *; [|exact I|exact I].
  apply attachPlugin_ok_inv in Ha.
  step_core H2 u2 c2. step_core H3 feed c3.
  step_core H4 u4 c4. step_core H5 cfg c5. step_core H6 u6 c6.
  step_core H7 w c7. step_core H8 attachedEvt c8. step_core H9 u9 c9.
  assert (Hc : same_core c c9).
  { repeat (etrans; [eassumption|]). reflexivity. }
  clear H1 H2 H3 H4 H5 H6 H7 H8 H9.
  unfold new_pc, pc_setRemoteDescription, pc_createAnswer, pc_setLocalDescription.
  destruct (se_newPc env) as [[]|]; msimpl; [|exact I].
  destruct (jsep attachedEvt) as [offer|]; msimpl; [|exact I].
  destruct (se_setRemoteDescription env) as [[]|]; msimpl; [|exact I].
  destruct (se_createAnswer env) as [answer|]; msimpl; [|exact I].
  destruct (se_setLocalDescription env) as [[]|]; msimpl; [|exact I].
  match goal with
  | |- context [sendJanusMessage ?h ?b ?j ?f ?cx] =>
      pose proof (sendJanusMessage_core h b j f cx) as Hs;
      destruct (sendJanusMessage h b j f cx) as [[[]|e|] c10]
  end; simpl in *; [|exact I|exact I].
  destruct Hs as [_ _ _ _ _ _ Hsub _ Hconns]. simpl in *.
  destruct Hc as [_ _ _ _ _ _ Hsub' _ Hconns'].
  exists h. split; [exact Ha|].
  exists
    (with_local (mkJsep "answer" answer) (with_remote offer
       (with_events (SubscriberEvents user)
          (mkPc false IceNew None None None 0)))).
  cbn [subscribers conns set_subscribers set_trace].
  rewrite Hsub, Hconns, Hsub', Hconns'.
  split; [done|]. split; [|done].
  rewrite !list_alter_alter_eq.
  apply list_eq. intros k.
  destruct (decide (k = length (conns c))) as [->|Hne].
  - rewrite list_lookup_alter_eq, !list_lookup_middle by done. done.
  - rewrite list_lookup_alter_ne by done.
    destruct (decide (k < length (conns c))%nat).
    + by rewrite !lookup_app_l by done.
    + rewrite !lookup_ge_None_2; [done|rewrite length_app; simpl; lia..].
Qed.

Lemma filter_key_absent {V} (user : string) (l : list (string * V)) :
  user ∉ l.*1 → filter (λ e, e.1 = user) l = [].
Proof.
  induction l as [|[k v] l IH]; [done|].
  simpl. intros [Hne Hl]%not_elem_of_cons. rewrite filter_cons. simpl.
  rewrite decide_False by done. by apply IH.
Qed.

Lemma filter_key_length {V} (user : string) (l : list (string * V)) :
  NoDup l.*1 → (length (filter (λ e, e.1 = user) l) ≤ 1)%nat.
Proof.
  induction l as [|[k v] l IH]; [simpl; lia|].
  simpl. intros [Hk Hnd]%NoDup_cons. rewrite filter_cons. simpl.
  destruct (decide (k = user)) as [->|Hne]; [|by apply IH].
  rewrite filter_key_absent by done. simpl. lia.
Qed.

Lemma entries_of_length user (m : gmap string Subscription) :
  (length (entries_of user m) ≤ 1)%nat.
Proof. apply filter_key_length, NoDup_fst_map_to_list. Qed.

(** C2, as stated, fails: a second [subscribeSpeaker] for the same
    participant does not close the peer connection of the prior entry. Both
    subscriptions to "alice" complete; the entry then holds the second
    connection, and the first one was never closed. *)
Lemma resubscribe_leaves_prior_connection_open :
  subscribers subscribed_once !! "alice" = Some (mkSub 300 1)
  ∧ subscribers subscribed_twice !! "alice" = Some (mkSub 301 2)
  ∧ pc_closed <$> conns subscribed_twice !! 1%nat = Some false
  ∧ ¬ closed_before_created (trace subscribed_twice) 1 2.
Proof.
  split; [vm_compute; reflexivity|].
  split; [vm_compute; reflexivity|].
  split; [vm_compute; reflexivity|].
  intros (i & j & Hi & _).
  assert (Hin : In (ClosePc 1) (trace subscribed_twice)).
  { apply list_elem_of_In. eapply list_elem_of_lookup_2. exact Hi. }
  revert Hin. vm_compute. intuition discriminate.
Qed.

(** C2, amended. The map of subscribers holds at most one entry for every
    participant, at any time. A [subscribeSpeaker] that completes writes the
    entry of its participant, replacing a prior entry if there is one, with
    the handle it attached ([data.id] of the answer of the gateway to its
    attach request) and a connection it has just created, which is open;
    the connections that existed, among them that of a prior entry, are
    left as they were (none is closed), and so are the entries of the other
    participants. *)
Theorem resubscribe_replaces_entry
    (c : Client) (user : string) (feedId : Z) (env : SubscribeEnv) :
  let c' := exec (subscribeSpeaker user feedId env) c in
  (∀ who, (length (entries_of who (subscribers c')) ≤ 1)%nat)
  ∧ (∀ other, other ≠ user → subscribers c' !! other = subscribers c !! other)
  ∧ (result (subscribe_steps user feedId env) (entered user feedId c) = Ok tt →
     (∃ status text answer x,
        outcome (se_attach env) = Response status text (Some answer)
        ∧ subscribers c' !! user
          = Some (mkSub (env_data_id answer) (length (conns c)))
        ∧ conns c' !! length (conns c) = Some x
        ∧ pc_closed x = false)
     ∧ (∀ k, (k < length (conns c))%nat → conns c' !! k = conns c !! k)).
Proof.
  intros c'. split; [|split].
  - intros who. apply entries_of_length.
  - intros other Hne. by apply subscribeSpeaker_others.
  - intros Hok. unfold c', exec. rewrite subscribeSpeaker_run.
    pose proof (subscribe_steps_recorded user feedId env (entered user feedId c)) as Hrec.
    unfold result in Hok.
    destruct (subscribe_steps user feedId env (entered user feedId c)) as [r c1].
    simpl in *. subst r.
    destruct Hrec as (h & (status & text & answer & Ho & <-) & x & Hs & Hc & Hclosed & _).
    simpl in *. split.
    + exists status, text, answer, x. rewrite Hs, Hc. split; [done|].
      split; [by rewrite lookup_insert_eq|].
      split; [by apply list_lookup_middle|done].
    + intros k Hk. rewrite Hc. by apply lookup_app_l.
Qed.

Lemma resubscribe_witness :
  result (subscribe_steps "alice" 55 (subscription 301 false))
         (entered "alice" 55 subscribed_once) = Ok tt
  ∧ conns subscribed_twice !! 1%nat = conns subscribed_once !! 1%nat.
Proof.
  split; [vm_compute; reflexivity|].
  refine (proj2 (proj2 (proj2 (resubscribe_replaces_entry
            subscribed_once "alice" 55 (subscription 301 false))) _) 1%nat _).
  - vm_compute. reflexivity.
  - vm_compute. lia.
Defined.

(** ** Stopping *)

Lemma close_loop closes l c :
  for_each l (λ entry,
    try_catch
      (pc_close (sub_pc entry.2) (closes (sub_pc entry.2));;
       log Debug ("[JanusClient] Closed subscriber connection for " +:+ entry.1))
      (λ error, log Error ("[JanusClient] Error closing subscriber for " +:+ entry.1))) c
  = (Ok tt,
     set_trace (trace c ++ loop_trace closes l)
       (set_conns (close_all closes ((λ entry, sub_pc entry.2) <$> l) (conns c)) c)).
Proof.
  revert c. induction l as [|[user sub] l IH]; intros c.
  - simpl. unfold ret. rewrite app_nil_r. by destruct c.
  - simpl for_each. unfold bind at 1. unfold pc_close.
    destruct (closes (sub_pc sub)) as [[]|e] eqn:Hc; msimpl;
      rewrite IH; simpl; rewrite Hc; simpl;
      by rewrite <- !app_assoc.
Qed.

Lemma client_eq c1 c2 :
  config c1 = config c2 → sessionId c1 = sessionId c2 →
  handleId c1 = handleId c2 → publisherId c1 = publisherId c2 →
  pc c1 = pc c2 → localAudioSource c1 = localAudioSource c2 →
  pollActive c1 = pollActive c2 → subscribers c1 = subscribers c2 →
  waiters c1 = waiters c2 → listeners c1 = listeners c2 →
  conns c1 = conns c2 → trace c1 = trace c2 → c1 = c2.
Proof. destruct c1, c2. simpl. intros. by subst. Qed.

Lemma stop_run closes c : stop closes c = (Ok tt, stopped closes c).
Proof.
  unfold stop. unfold bind at 1. simpl. unfold bind at 1. simpl.
  unfold bind at 1. simpl. unfold bind at 1.
  rewrite close_loop. simpl.
  unfold stopped, held_list, close_all, pc_close. rewrite foldl_app.
  destruct (pc c) as [n|] eqn:Hp; simpl.
  - destruct (closes n) as [[]|e] eqn:Hc; msimpl; rewrite ?Hp; msimpl;
      rewrite ?Hc; msimpl; f_equal; apply client_eq; simpl; try done;
      by rewrite <- !app_assoc.
  - msimpl. rewrite Hp. msimpl. f_equal. apply client_eq; simpl; try done.
    by rewrite <- !app_assoc.
Qed.

Lemma with_closed_idemp x : with_closed (with_closed x) = with_closed x.
Proof. done. Qed.

Lemma close_all_not_in closes ns cs n :
  n ∉ ns → close_all closes ns cs !! n = cs !! n.
Proof.
  revert cs. induction ns as [|k ns IH]; intros cs Hn; [done|].
  apply not_elem_of_cons in Hn as [Hne Hn]. simpl.
  rewrite (IH _ Hn). destruct (closes k); [|done].
  by rewrite list_lookup_alter_ne.
Qed.

Lemma close_all_closed closes ns cs n :
  close_all closes ns (alter with_closed n cs) !! n = with_closed <$> cs !! n.
Proof.
  revert cs. induction ns as [|k ns IH]; intros cs.
  - simpl. by rewrite list_lookup_alter_eq.
  - simpl. destruct (closes k); [|apply IH].
    destruct (decide (k = n)) as [->|Hne].
    + rewrite list_alter_alter_eq.
      rewrite (list_alter_ext _ with_closed _ cs) by done. apply IH.
    + rewrite list_alter_alter_ne by done. rewrite IH.
      by rewrite list_lookup_alter_ne.
Qed.

Lemma close_all_in closes ns cs n :
  n ∈ ns → closes n = Returns tt →
  close_all closes ns cs !! n = with_closed <$> cs !! n.
Proof.
  revert cs. induction ns as [|k ns IH]; intros cs Hn Hc.
  - by apply elem_of_nil in Hn.
  - simpl. destruct (decide (k = n)) as [->|Hne].
    + rewrite Hc. apply close_all_closed.
    + apply elem_of_cons in Hn as [?|Hn]; [done|].
      rewrite IH by done. destruct (closes k); [|done].
      by rewrite list_lookup_alter_ne.
Qed.

Lemma elem_of_held_list c n : n ∈ held_list c ↔ held c n.
Proof.
  unfold held_list, held. rewrite elem_of_app, list_elem_of_fmap. split.
  - intros [([user sub] & -> & Hin)|Hp].
    + left. exists user, sub. split; [|done]. by apply elem_of_map_to_list.
    + right. destruct (pc c); simpl in Hp; [|by apply elem_of_nil in Hp].
      apply list_elem_of_singleton in Hp. by subst.
  - intros [(user & sub & Hl & <-)|Hp].
    + left. exists (user, sub). split; [done|]. by apply elem_of_map_to_list.
    + right. rewrite Hp. simpl. by apply list_elem_of_singleton.
Qed.

Lemma close_in_trace closes c n :
  held c n → ClosePc n ∈ trace (stopped closes c).
Proof.
  intros Hh. simpl. apply elem_of_app. right. apply elem_of_cons. right.
  apply elem_of_app.
  destruct Hh as [(user & sub & Hl & <-)|Hp].
  - left. unfold loop_trace.
    apply list_elem_of_In, in_flat_map. exists (user, sub). split.
    + apply list_elem_of_In. by apply elem_of_map_to_list.
    + simpl. by left.
  - right. apply elem_of_app. left. rewrite Hp. simpl.
    apply elem_of_cons. by left.
Qed.

(** C8, as stated, fails: [stop] closes the connections the client holds,
    and the client does not hold every connection it created. After the two
    subscriptions to "alice", the connection of the first one is no longer in
    the map: it is still open after [stop], and after a second [stop]. *)
Lemma stop_leaves_replaced_connection_open :
  let c1 := exec (stop always_closes) subscribed_twice in
  let c2 := exec (stop always_closes) c1 in
  result (stop always_closes) subscribed_twice = Ok tt
  ∧ result (stop always_closes) c1 = Ok tt
  ∧ pc_closed <$> conns subscribed_twice !! 1%nat = Some false
  ∧ pc_closed <$> conns c1 !! 1%nat = Some false
  ∧ pc_closed <$> conns c2 !! 1%nat = Some false.
Proof. repeat split; vm_compute; reflexivity. Qed.

(** C8, amended. [stop] never throws, even when a [close()] does. It lowers
    the poll flag, calls [close()] on the connection of every entry of the
    map of subscribers and on the publisher's connection (each of them is
    closed when its [close()] returns), empties the map and forgets the
    publisher's connection, so that the client holds no connection
    afterwards. The connections the client did not hold are left as they
    were. A second [stop] closes nothing and changes nothing but the log. *)
Theorem stop_closes_held_connections (closes : nat → Call unit) (c : Client) :
  let c1 := exec (stop closes) c in
  result (stop closes) c = Ok tt
  ∧ pollActive c1 = false ∧ subscribers c1 = ∅ ∧ pc c1 = None
  ∧ (∀ n, held c n → ClosePc n ∈ trace c1)
  ∧ (∀ n, held c n → closes n = Returns tt →
          conns c1 !! n = with_closed <$> conns c !! n)
  ∧ (∀ n, ¬ held c n → conns c1 !! n = conns c !! n)
  ∧ (∀ n, ¬ held c1 n)
  ∧ stop closes c1
    = (Ok tt,
       set_trace (trace c1 ++ [Log Info "[JanusClient] Stopping...";
                               Log Info "[JanusClient] All WebRTC connections closed"]) c1).
Proof.
  intros c1. unfold c1, exec, result. rewrite stop_run. simpl.
  split; [done|]. split; [done|]. split; [done|]. split; [done|].
  split; [apply close_in_trace|]. split; [|split; [|split]].
  - intros n Hh Hc. apply close_all_in; [by apply elem_of_held_list|done].
  - intros n Hh. apply close_all_not_in. by rewrite elem_of_held_list.
  - intros n [(user & sub & Hl & _)|Hp]; simpl in *.
    + by rewrite lookup_empty in Hl.
    + done.
  - rewrite stop_run. by f_equal.
Qed.

Lemma stop_witness :
  held subscribed_twice 2
  ∧ always_closes 2%nat = Returns tt
  ∧ conns (exec (stop always_closes) subscribed_twice) !! 2%nat
    = with_closed <$> conns subscribed_twice !! 2%nat.
Proof.
  assert (H : held subscribed_twice 2).
  { left. exists "alice", (mkSub 301 2). split; [vm_compute|]; reflexivity. }
  split; [exact H|]. split; [reflexivity|].
  exact (proj1 (proj2 (proj2 (proj2 (proj2 (proj2
           (stop_closes_held_connections always_closes subscribed_twice))))))
         2%nat H eq_refl).
Defined.

(** ** The subscriptions of the guest path *)

Lemma bus_no_call a : bus_action a = true → no_call a = true.
Proof. by destruct a. Qed.

#[global] Hint Extern 5 (keeps (adds no_call) _) =>
  (apply (keeps_adds_mono bus_action no_call _ bus_no_call);
   solve [eauto with keeps]) : keeps.

Lemma fetch_no_call {B} req (f : Fetched B) : keeps (adds no_call) (fetch req f).
Proof. unfold fetch. keeps_tac. Qed.

#[global] Hint Resolve fetch_no_call : keeps.

Lemma sendJanusMessage_no_call h b j f :
  keeps (adds no_call) (sendJanusMessage h b j f).
Proof. unfold sendJanusMessage. keeps_tac. Qed.

Lemma attachPlugin_no_call f : keeps (adds no_call) (attachPlugin f).
Proof. unfold attachPlugin. keeps_tac. Qed.

Lemma waitFor_no_call P t d :
  keeps (adds no_call) (waitForJanusEventWithPredicate P t d).
Proof. unfold waitForJanusEventWithPredicate. keeps_tac. Qed.

#[global] Hint Resolve sendJanusMessage_no_call attachPlugin_no_call
  waitFor_no_call : keeps.

Lemma subscribe_steps_no_call user feedId env :
  keeps (adds no_call) (subscribe_steps user feedId env).
Proof.
  unfold subscribe_steps, new_pc, pc_setRemoteDescription, pc_createAnswer,
    pc_setLocalDescription.
  keeps_tac.
Qed.

Lemma calls_app t1 t2 : calls (t1 ++ t2) = (calls t1 ++ calls t2)%list.
Proof. apply omap_app. Qed.

Lemma calls_no_call t : forallb no_call t = true → calls t = [].
Proof.
  induction t as [|a t IH]; [done|]. simpl.
  intros [Ha Ht]%andb_prop. unfold calls in *. simpl.
  destruct a; simpl in *; try discriminate; by apply IH.
Qed.

(** A [subscribeSpeaker] is one call, whatever happens in it. *)
Lemma subscribeSpeaker_calls user feedId env c :
  calls (trace (exec (subscribeSpeaker user feedId env) c))
  = (calls (trace c) ++ [(user, feedId)])%list.
Proof.
  unfold exec. rewrite subscribeSpeaker_run.
  destruct (subscribe_steps_no_call user feedId env (entered user feedId c))
    as (t & Ht & Hq).
  destruct (subscribe_steps user feedId env (entered user feedId c))
    as [[[]|e|] c1]; simpl in *; rewrite Ht, !calls_app, (calls_no_call t Hq);
    simpl; by rewrite ?app_nil_r.
Qed.

Lemma subscribe_all_run i pub pubs envs c :
  subscribe_all i (pub :: pubs) envs c
  = subscribe_all (S i) pubs envs
      (exec (subscribeSpeaker (pub_display pub) (pub_id pub) (envs i)) c).
Proof.
  simpl. unfold bind, exec.
  destruct (subscribeSpeaker_returns (pub_display pub) (pub_id pub) (envs i) c)
    as [[] Hr].
  destruct (subscribeSpeaker _ _ _ c) as [r c1]. simpl in *. by subst r.
Qed.

Lemma subscribe_all_returns i pubs envs : returns (subscribe_all i pubs envs).
Proof.
  revert i. induction pubs as [|pub pubs IH]; intros i; simpl; ends_tac.
Qed.

(** The subscriptions of a list of publishers are one call for each, in
    order, with the display name and the feed of the publisher. *)
Lemma subscribe_all_calls i pubs envs c :
  calls (trace (exec (subscribe_all i pubs envs) c))
  = (calls (trace c) ++ ((λ p, (pub_display p, pub_id p)) <$> pubs))%list.
Proof.
  revert i c. induction pubs as [|pub pubs IH]; intros i c.
  - simpl. by rewrite app_nil_r.
  - unfold exec at 1. rewrite subscribe_all_run.
    change (calls (trace (exec (subscribe_all (S i) pubs envs)
              (exec (subscribeSpeaker (pub_display pub) (pub_id pub) (envs i)) c)))
            = (calls (trace c) ++
               ((λ p, (pub_display p, pub_id p)) <$> pub :: pubs))%list).
    rewrite IH, subscribeSpeaker_calls. simpl. by rewrite <- app_assoc.
Qed.

(** *** No discovery when the feed is known *)

#[global] Instance keeps_free_refl : Reflexive keeps_free.
Proof. by intros c H. Qed.

#[global] Instance keeps_free_trans : Transitive keeps_free.
Proof. intros c1 c2 c3 H12 H23 H. auto. Qed.

Lemma modify_free f :
  (∀ c, waiters (f c) = waiters c) → keeps keeps_free (modify f).
Proof. intros H c. unfold keeps_free, discovery_free. simpl. by rewrite H. Qed.

#[global] Hint Extern 2 (keeps keeps_free (act _)) =>
  (apply modify_free; intros ?; reflexivity) : keeps.
#[global] Hint Extern 2 (keeps keeps_free (log _ _)) =>
  (apply modify_free; intros ?; reflexivity) : keeps.
#[global] Hint Extern 2 (keeps keeps_free (modify _)) =>
  (apply modify_free; intros ?; reflexivity) : keeps.

Lemma alter_free j f c c' :
  waiters c' = alter f j (waiters c) →
  (∀ w, w_description (f w) = w_description w) →
  keeps_free c c'.
Proof.
  intros Hw Hf. unfold keeps_free, discovery_free. rewrite Hw, !Forall_lookup.
  intros H i w. destruct (decide (j = i)) as [->|Hne].
  - rewrite list_lookup_alter_eq. destruct (waiters c !! i) as [w0|] eqn:E; [|done].
    simpl. intros [= <-]. rewrite Hf. by eapply H.
  - rewrite list_lookup_alter_ne by done. apply H.
Qed.

Lemma eventHandler_free j e : keeps keeps_free (eventHandler j e).
Proof.
  intros c. eapply alter_free; [apply exec_eventHandler|].
  intros w. unfold fire. by destruct (w_predicate w e).
Qed.

Lemma timeout_fires_free j : keeps keeps_free (timeout_fires j).
Proof.
  intros c. eapply alter_free; [apply exec_timeout_fires|].
  intros w. unfold expire. by destruct (w_timer w).
Qed.

#[global] Hint Resolve eventHandler_free timeout_fires_free : keeps.

Lemma emit_free name p : keeps keeps_free (emit name p).
Proof. unfold emit. keeps_tac. Qed.

#[global] Hint Resolve emit_free : keeps.

Lemma doPoll_free r : keeps keeps_free (doPoll r).
Proof.
  intros c. unfold keeps_free, discovery_free. by rewrite (doPoll_waiters r c).
Qed.

#[global] Hint Resolve doPoll_free : keeps.

Lemma bus_step_free a : keeps keeps_free (bus_step a).
Proof. destruct a; simpl; keeps_tac. Qed.

#[global] Hint Resolve bus_step_free : keeps.

Lemma arrive_free l : keeps keeps_free (arrive l).
Proof. unfold arrive. keeps_tac. Qed.

Lemma await_waiter_free i l : keeps keeps_free (await_waiter i l).
Proof.
  induction l as [|a l IH]; unfold await_waiter; fold await_waiter; keeps_tac.
Qed.

#[global] Hint Resolve arrive_free await_waiter_free : keeps.

Lemma waitFor_free P t d :
  d ≠ discovery_description →
  keeps keeps_free (waitForJanusEventWithPredicate P t d).
Proof.
  intros Hd c. rewrite waitFor_run. unfold keeps_free, discovery_free. simpl.
  intros H. apply Forall_app. split; [done|]. by apply Forall_singleton.
Qed.

Lemma subscribe_steps_free user feedId env :
  feedId ≠ 0 → keeps keeps_free (subscribe_steps user feedId env).
Proof.
  intros Hf. unfold subscribe_steps.
  rewrite (proj2 (Z.eqb_neq feedId 0) Hf).
  unfold attachPlugin, sendJanusMessage, fetch, new_pc, pc_setRemoteDescription,
    pc_createAnswer, pc_setLocalDescription.
  repeat first
    [ apply waitFor_free; discriminate
    | keeps_step ].
Qed.

(** With a feed that is known (not 0), [subscribeSpeaker] registers no
    waiter for the list of publishers. *)
Lemma subscribeSpeaker_skips_discovery user feedId env c :
  feedId ≠ 0 → discovery_free c →
  discovery_free (exec (subscribeSpeaker user feedId env) c).
Proof.
  intros Hf Hc. unfold exec. rewrite subscribeSpeaker_run.
  pose proof (subscribe_steps_free user feedId env Hf (entered user feedId c) Hc) as H.
  by destruct (subscribe_steps user feedId env (entered user feedId c))
    as [[[]|e|] c1].
Qed.

(** When the first four steps of the guest path return, the publishers of
    the joined event are subscribed to one after the other and the method
    returns: no subscription can make it fail. *)
Lemma initializeGuestSpeaker_run uuid env c pubs c1 :
  guest_join uuid env (guest_entered c) = (Ok pubs, c1) →
  let c2 := exec (subscribe_all 0 pubs (ge_subscribe env)) c1 in
  initializeGuestSpeaker uuid env c
  = (Ok tt,
     set_trace (trace c2 ++ [Log Info "[JanusClient] Guest speaker negotiation complete"])
               c2).
Proof.
  intros Hj c2. unfold initializeGuestSpeaker. unfold bind at 1. simpl.
  fold (guest_entered c). unfold try_catch, guest_steps. unfold bind at 1.
  rewrite Hj. unfold bind at 1. unfold c2, exec.
  destruct (subscribe_all_returns 0 pubs (ge_subscribe env) c1) as [[] Hr].
  destruct (subscribe_all 0 pubs (ge_subscribe env) c1) as [r c3].
  simpl in *. by subst r.
Qed.

Lemma guest_scenario_joins pubs subs :
  let r := guest_join "uuid" (guest_scenario (joined_with pubs) subs)
             (guest_entered fresh_client) in
  r.1 = Ok pubs ∧ calls (trace r.2) = [] ∧ discovery_free r.2.
Proof.
  split; [vm_compute; reflexivity|]. split; [vm_compute; reflexivity|].
  unfold discovery_free.
  assert (w_description <$> waiters
            (guest_join "uuid" (guest_scenario (joined_with pubs) subs)
               (guest_entered fresh_client)).2
          = ["Guest Speaker joined event"]) as Hw by (vm_compute; reflexivity).
  apply Forall_forall. intros w Hin Hd.
  assert (w_description w ∈ ["Guest Speaker joined event"]) as Hin'.
  { rewrite <- Hw. apply list_elem_of_fmap. eauto. }
  apply list_elem_of_singleton in Hin'. rewrite Hd in Hin'. discriminate.
Qed.

(** When the joined event is published on ['janus'], the guest path does
    what is expected of it: a joined event whose payload carries the
    publishers [{display: "alice", id: 55}] triggers exactly one call
    [subscribeSpeaker("alice", 55)], whatever becomes of that subscription;
    the feed being known, no waiter for the list of publishers is ever
    registered, and the initialisation returns. *)
Lemma guest_join_subscribes_once (subs : nat → SubscribeEnv) :
  let c' := exec (initializeGuestSpeaker "uuid" (guest_scenario joined_event subs))
                 fresh_client in
  result (initializeGuestSpeaker "uuid" (guest_scenario joined_event subs))
         fresh_client = Ok tt
  ∧ calls (trace c') = [("alice", 55)]
  ∧ discovery_free c'.
Proof.
  intros c'.
  destruct (guest_scenario_joins [alice] subs) as (Hr & Hcalls & Hfree).
  change (joined_with [alice]) with joined_event in *.
  destruct (guest_join "uuid" (guest_scenario joined_event subs)
              (guest_entered fresh_client)) as [r c1] eqn:Hj.
  simpl in Hr, Hcalls, Hfree. subst r.
  pose proof (initializeGuestSpeaker_run _ _ _ _ _ Hj) as Hrun.
  unfold c', result, exec. rewrite Hrun. simpl.
  split; [done|]. split.
  - rewrite calls_app. simpl. rewrite app_nil_r.
    change (calls (trace (exec (subscribe_all 0 [alice] subs) c1)) = [("alice", 55)]).
    by rewrite subscribe_all_calls, Hcalls.
  - unfold discovery_free. simpl.
    change (discovery_free (exec (subscribe_all 0 [alice] subs) c1)).
    unfold exec. rewrite subscribe_all_run. simpl.
    by apply subscribeSpeaker_skips_discovery.
Qed.

(** * Further properties *)

(** ** The emitter and the waiters *)

(** One [emit('janus', e)] runs the handler of every waiter that is still
    registered: each of them whose predicate holds of [e] is resolved with
    [e], its timer cleared and its handler removed, all in the same emit;
    every other waiter is left exactly as it was. *)
Theorem emit_reaches_every_registered_waiter
    (e : JanusEvent) (c : Client) (i : nat) (w : Waiter) :
  waiters c !! i = Some w →
  waiters (exec (emit "janus" (PEvent e)) c) !! i
  = Some (if w_listening w && w_predicate w e
          then mkWaiter (w_predicate w) (w_timeout w) (w_description w) false false
                 (match w_promise w with Pending => Fulfilled e | p => p end)
                 (S (w_resolve_calls w)) (w_reject_calls w)
          else w)
  ∧ length (waiters (exec (emit "janus" (PEvent e)) c)) = length (waiters c).
Proof.
  intros Hw. rewrite emit_janus_waiters, list_lookup_fmap, Hw, length_fmap.
  split; [|done]. simpl. f_equal. unfold deliver, fire.
  destruct (w_listening w); [|done]. simpl. by destruct (w_predicate w e).
Qed.

Lemma emit_reaches_witness :
  waiters (exec (waitForJanusEventWithPredicate joined_predicate 12000
                   "Host Joined Event") fresh_client) !! 0%nat
  = Some (fresh_waiter joined_predicate 12000 "Host Joined Event")
  ∧ length (waiters (exec (emit "janus" (PEvent joined_event))
                       (exec (waitForJanusEventWithPredicate joined_predicate 12000
                                "Host Joined Event") fresh_client)))
    = 1%nat.
Proof.
  split; [reflexivity|].
  refine (eq_trans (proj2 (emit_reaches_every_registered_waiter joined_event
            (exec (waitForJanusEventWithPredicate joined_predicate 12000
                     "Host Joined Event") fresh_client)
            0 (fresh_waiter joined_predicate 12000 "Host Joined Event") _)) _);
    reflexivity.
Defined.



Section WaiterInvariant.
Context (Inv : Waiter → Prop).
Context (Inv_deliver : ∀ e w, Inv w → Inv (deliver e w)).
Context (Inv_expire : ∀ w, Inv w → Inv (expire w)).

Lemma bus_step_at i a c : keeps_at Inv i c (exec (bus_step a) c).
Proof.
  intros (w & Hw & HI). unfold holds_at. destruct a as [r|e|j]; simpl bus_step.
  - unfold exec. rewrite (doPoll_waiters r c). eauto.
  - rewrite emit_janus_waiters, list_lookup_fmap, Hw. simpl. eauto.
  - rewrite exec_timeout_fires. destruct (decide (j = i)) as [->|Hne].
    + rewrite list_lookup_alter_eq, Hw. simpl. eauto.
    + rewrite list_lookup_alter_ne by done. eauto.
Qed.

Lemma arrive_at i l c : keeps_at Inv i c (exec (arrive l) c).
Proof.
  revert c. induction l as [|a l IH]; intros c H; [done|].
  unfold arrive, exec in *. simpl for_each. unfold bind.
  destruct (bus_step_returns a c) as [[] Hr].
  pose proof (bus_step_at i a c H) as Ha. unfold exec in Ha.
  destruct (bus_step a c) as [r c1]. simpl in *. subst r. by apply IH.
Qed.

End WaiterInvariant.

Lemma once_deliver e w : once w → once (deliver e w).
Proof.
  unfold once, deliver, fire. intros (H1 & H2 & H3 & H4).
  destruct (w_listening w) eqn:Hl.
  - destruct (w_predicate w e); [simpl; rewrite (H3 eq_refl)|rewrite Hl];
      repeat split; try done; try lia.
  - rewrite Hl. repeat split; try done.
Qed.

Lemma once_expire w : once w → once (expire w).
Proof.
  unfold once, expire. intros (H1 & H2 & H3 & H4).
  destruct (w_timer w) eqn:Ht.
  - simpl. rewrite (H4 eq_refl). repeat split; try done; try lia.
  - rewrite Ht. repeat split; try done.
Qed.

(** Whatever runs on the event loop after a waiter is registered, in any
    order (poll runs, events published on ['janus'], timeouts, also of
    other waiters), [resolve] is called at most once and [reject] at most
    once on its promise, and its predicate, timeout and label stay the
    same. *)
Theorem waiter_callbacks_run_at_most_once
    (c : Client) (P : JanusEvent → bool) (t : Z) (d : string)
    (l : list BusInput) :
  let i := length (waiters c) in
  let c1 := exec (waitForJanusEventWithPredicate P t d) c in
  ∃ w, waiters (exec (arrive l) c1) !! i = Some w
       ∧ (w_resolve_calls w ≤ 1)%nat ∧ (w_reject_calls w ≤ 1)%nat
       ∧ w_description w = d ∧ w_timeout w = t.
Proof.
  intros i c1.
  set (Inv := λ w, once w ∧ w_description w = d ∧ w_timeout w = t).
  assert (H1 : holds_at Inv i c1).
  { exists (fresh_waiter P t d). split.
    - unfold c1, i. rewrite exec_waitFor. by apply list_lookup_middle.
    - unfold Inv, once. simpl. repeat split; lia || done. }
  assert (Hd : ∀ e w, Inv w → Inv (deliver e w)).
  { intros e w (Ho & Hdesc & Ht). split; [by apply once_deliver|].
    unfold deliver, fire. destruct (w_listening w); [|done].
    by destruct (w_predicate w e). }
  assert (He : ∀ w, Inv w → Inv (expire w)).
  { intros w (Ho & Hdesc & Ht). split; [by apply once_expire|].
    unfold expire. by destruct (w_timer w). }
  destruct (arrive_at Inv Hd He i l c1 H1) as (w & Hw & (H2 & H3 & _) & Hdesc & Ht).
  exists w. by repeat split.
Qed.


(** ** Session and handle requests *)



(** [createRoom] in closed form: as [attachPlugin], with the handle in the
    place of the session; a successful answer is only logged. *)
Theorem createRoom_emits_and_rethrows (f : Fetched Envelope) (c : Client) :
  let c1 := exec (fetch (ReqCreateRoom (default 0 (sessionId c)) (roomId (config c))) f) c in
  let label := "[JanusClient] Failed to create room:" in
  let ctx := "[JanusClient] Room creation failed" in
  let fails t e := (Throw (rethrown ctx c e), set_trace (trace c1 ++ t) c1) in
  createRoom f c
  = if truthy (handleId c) then
      match outcome f with
      | NetworkError e => fails (caught label ctx e) e
      | Response status text json =>
          if resp_ok status then
            match json with
            | None => fails (caught label ctx (Platform "resp.json")) (Platform "resp.json")
            | Some json =>
                if env_janus json =? "success" then
                  (Ok tt,
                   set_trace (trace c1 ++ [Log Debug "[JanusClient] Room created, ID:"]) c1)
                else
                  let e := BadEnvelope "[JanusClient] Invalid room response"
                                       (env_janus json) in
                  fails (refused "[JanusClient] Invalid room response" label ctx e) e
            end
          else
            let e := Http "[JanusClient] Room creation failed" status text in
            fails (refused "[JanusClient] Room creation failed" label ctx e) e
      end
    else (Throw (Msg "[JanusClient] createRoom => no handleId"), c).
Proof.
  intros c1 label ctx fails. unfold fails, rethrown, caught, refused.
  destruct (fetch_split (ReqCreateRoom (default 0 (sessionId c)) (roomId (config c))) f c)
    as [Hr Hl].
  fold c1 in Hr, Hl. clearbody c1. clear fails.
  unfold createRoom. unfold bind at 1. simpl.
  destruct (truthy (handleId c)); simpl; [|done].
  unfold bind at 1. simpl. unfold bind at 1. simpl.
  unfold try_catch. unfold bind at 1. rewrite Hr.
  destruct (outcome f) as [e|status text json]; simpl.
  - request_fails Hl.
  - destruct (resp_ok status); simpl.
    + destruct json as [json|]; simpl.
      * destruct (env_janus json =? "success"); simpl; [done|]. request_fails Hl.
      * request_fails Hl.
    + request_fails Hl.
Qed.

(** [sendJanusMessage] in closed form: it returns exactly when the answer
    is 2xx, whatever its body; it throws the failure of the request or the
    HTTP error after logging it, and, unlike the session requests, emits
    nothing on ['error']. Without a session it throws before any request. *)
Theorem sendJanusMessage_returns_on_2xx_only
    (h : Z) (b : Body) (j : option Jsep) (f : Fetched unit) (c : Client) :
  let c1 := exec (fetch (ReqMessage (default 0 (sessionId c)) h b j) f) c in
  let fails e :=
    (Throw e,
     set_trace (trace c1 ++ [Log Error "[JanusClient] Failed to send Janus message:"]) c1) in
  sendJanusMessage h b j f c
  = if truthy (sessionId c) then
      match outcome f with
      | NetworkError e => fails e
      | Response status text _ =>
          if resp_ok status then (Ok tt, c1)
          else fails (Http "[JanusClient] sendJanusMessage failed" status text)
      end
    else (Throw (Msg "[JanusClient] No session for sendJanusMessage"), c).
Proof.
  intros c1 fails. unfold fails.
  destruct (fetch_split (ReqMessage (default 0 (sessionId c)) h b j) f c) as [Hr _].
  fold c1 in Hr. clearbody c1. clear fails.
  unfold sendJanusMessage. unfold bind at 1. simpl.
  destruct (truthy (sessionId c)); simpl; [|done].
  unfold try_catch. unfold bind at 1. rewrite Hr.
  destruct (outcome f) as [e|status text json]; simpl; [done|].
  by destruct (resp_ok status).
Qed.

(** ** What [stop] leaves as it is *)

Lemma fetches_app t1 t2 : fetches (t1 ++ t2) = (fetches t1 ++ fetches t2)%list.
Proof. apply omap_app. Qed.

Lemma fetches_loop_trace closes l : fetches (loop_trace closes l) = [].
Proof.
  induction l as [|entry l IH]; [done|].
  unfold loop_trace. simpl. fold (loop_trace closes l).
  unfold fetches in *. simpl. by destruct (closes _).
Qed.

Lemma fetches_publisher_trace closes p : fetches (publisher_trace closes p) = [].
Proof. destruct p as [n|]; [|done]. simpl. by destruct (closes n). Qed.

(** [stop] sends no request to the gateway: the session is neither left nor
    destroyed, and [sessionId] and [handleId] stay set. It ends the poll
    loop: a timer of the loop that fires afterwards logs and returns,
    without a fetch and without a new timer, and whatever runs on the event
    loop later, nothing more is fetched. *)
Theorem stop_sends_nothing_and_ends_polling
    (closes : nat → Call unit) (c : Client)
    (r : FetchResult JanusEvent) (later : list BusInput) :
  let c1 := exec (stop closes) c in
  fetches (trace c1) = fetches (trace c)
  ∧ sessionId c1 = sessionId c ∧ handleId c1 = handleId c
  ∧ doPoll r c1
    = (Ok tt, set_trace (trace c1 ++ [Log Debug "[JanusClient] Polling stopped"]) c1)
  ∧ pollActive (exec (arrive later) c1) = false
  ∧ fetches (trace (exec (arrive later) c1)) = fetches (trace c).
Proof.
  intros c1.
  assert (E : c1 = stopped closes c) by (unfold c1, exec; by rewrite stop_run).
  assert (Hf : fetches (trace c1) = fetches (trace c)).
  { rewrite E. unfold stopped. cbn [trace].
    rewrite !fetches_app, fetches_loop_trace, fetches_publisher_trace.
    simpl. by rewrite app_nil_r. }
  assert (Hp : pollActive c1 = false) by by rewrite E.
  split; [done|]. split; [by rewrite E|]. split; [by rewrite E|].
  split; [by apply doPoll_inactive|].
  destruct (arrive_stopped later c1 Hp) as [H1 H2]. split; [done|].
  unfold exec. by rewrite H2.
Qed.

(** [stop] settles no pending waiter and releases no audio source: the
    waiters, with their timers and handlers, are as before, and a frame
    pushed after [stop] is still handed to the audio source. *)
Theorem stop_releases_neither_waiters_nor_audio
    (closes : nat → Call unit) (c : Client) (env : AudioEnv)
    (samples : list Z) (sampleRate channels : Z) :
  localAudioSource c = true →
  let c1 := exec (stop closes) c in
  waiters c1 = waiters c
  ∧ localAudioSource c1 = true
  ∧ pushLocalAudio env (Returns tt) samples sampleRate channels c1
    = (Ok tt, set_trace (trace c1 ++ [PushPcm samples sampleRate channels]) c1).
Proof.
  intros Hs c1.
  assert (E : c1 = stopped closes c) by (unfold c1, exec; by rewrite stop_run).
  assert (Hs1 : localAudioSource c1 = true) by by rewrite E.
  split; [by rewrite E|]. split; [done|].
  unfold pushLocalAudio. msimpl. rewrite Hs1. msimpl. by rewrite Hs1.
Qed.

Lemma stop_releases_neither_witness :
  pushLocalAudio broken_audio (Returns tt) [0; 12; -12] 48000 1
    (exec (stop always_closes) streaming_client)
  = (Ok tt,
     set_trace (trace (exec (stop always_closes) streaming_client)
                ++ [PushPcm [0; 12; -12] 48000 1])
               (exec (stop always_closes) streaming_client)).
Proof.
  apply (stop_releases_neither_waiters_nor_audio always_closes streaming_client
           broken_audio [0; 12; -12] 48000 1).
  reflexivity.
Defined.

(** ** The local audio source *)

(** [enableLocalAudio] is not retried. Once the audio source has been
    created, the method returns with the source set, whether or not the
    track reached the connection: the track is added when the three calls
    that follow return, and not at all when one of them throws; and every
    later call only logs that the source is active, so that a track that
    was not added is never added. *)
Theorem enableLocalAudio_is_not_retried
    (env env' : AudioEnv) (c : Client) (n : nat) :
  pc c = Some n → localAudioSource c = false → ae_newSource env = Returns tt →
  let c1 := exec (enableLocalAudio env) c in
  result (enableLocalAudio env) c = Ok tt
  ∧ localAudioSource c1 = true
  ∧ conns c1
    = (if returned (ae_getTrack env) && returned (ae_newStream env)
          && returned (ae_addTrack env)
       then alter with_track n (conns c) else conns c)
  ∧ enableLocalAudio env' c1
    = (Ok tt,
       set_trace (trace c1 ++ [Log Debug "[JanusClient] localAudioSource already active"])
                 c1).
Proof.
  intros Hp Hs Hn c1.
  assert (Hp1 : pc c1 = Some n ∧ localAudioSource c1 = true
                ∧ result (enableLocalAudio env) c = Ok tt
                ∧ conns c1
                  = (if returned (ae_getTrack env) && returned (ae_newStream env)
                        && returned (ae_addTrack env)
                     then alter with_track n (conns c) else conns c)).
  { unfold c1, result, exec, enableLocalAudio. msimpl. rewrite Hp. msimpl.
    rewrite Hs. msimpl. rewrite Hn. msimpl.
    destruct (ae_getTrack env); msimpl; [|done].
    destruct (ae_newStream env); msimpl; [|done].
    by destruct (ae_addTrack env); msimpl. }
  destruct Hp1 as (Hp1 & Hs1 & Hr & Hc). repeat split; try done.
  unfold enableLocalAudio. msimpl. rewrite Hp1. msimpl. by rewrite Hs1.
Qed.

Lemma enableLocalAudio_is_not_retried_witness :
  let c1 := exec (enableLocalAudio trackless_audio) publishing_client in
  conns c1 = conns publishing_client
  ∧ localAudioSource c1 = true
  ∧ enableLocalAudio good_audio c1
    = (Ok tt,
       set_trace (trace c1 ++ [Log Debug "[JanusClient] localAudioSource already active"])
                 c1).
Proof.
  intros c1.
  destruct (enableLocalAudio_is_not_retried trackless_audio good_audio
              publishing_client 0 eq_refl eq_refl eq_refl) as (_ & Hs & Hc & Hr).
  split; [exact Hc|]. split; [exact Hs|exact Hr].
Defined.

(** ** ICE state of a subscriber, and the restart *)

(** A state change of the connection of a subscriber never restarts ICE
    and never closes or drops the subscription: the listener logs the
    state, and for ['failed'] warns and emits ['warning']; nothing else
    changes but the state of the connection. *)
Theorem subscriber_ice_failure_only_warns
    (c : Client) (n : nat) (x : PeerConnection) (user : string)
    (t : Z) (st : IceState) (env : OfferEnv) :
  conns c !! n = Some x → pc_events x = Some (SubscriberEvents user) →
  let message := "[JanusClient] Subscriber ICE connection failed for " +:+ user in
  ice_state_change t n st env c
  = (Ok tt,
     set_trace
       (trace c ++
        Log Debug "[JanusClient] Subscriber ICE state for" ::
        (if bool_decide (st = IceFailed)
         then [Log Warn message; Emit "warning" (PErr (Msg message))]
         else []))
       (upd_conn n (with_ice st) c)).
Proof.
  intros Hx He message. unfold ice_state_change, subscriber_ice_listener.
  unfold bind at 1. simpl. unfold bind at 1. simpl.
  rewrite list_lookup_alter_eq, Hx. simpl. rewrite He.
  unfold bind at 1. simpl. unfold bind at 1. simpl.
  rewrite list_lookup_alter_eq, Hx. simpl.
  destruct st; simpl; try done.
  unfold bind at 1. simpl. rewrite emit_warning_run. simpl.
  f_equal. unfold message. by norm_trace.
Qed.

Lemma subscriber_ice_failure_witness :
  ice_state_change 0 1 IceFailed good_offer subscribed_once
  = (Ok tt,
     set_trace
       (trace subscribed_once ++
        [Log Debug "[JanusClient] Subscriber ICE state for";
         Log Warn "[JanusClient] Subscriber ICE connection failed for alice";
         Emit "warning"
           (PErr (Msg "[JanusClient] Subscriber ICE connection failed for alice"))])
       (upd_conn 1 (with_ice IceFailed) subscribed_once)).
Proof.
  apply (subscriber_ice_failure_only_warns subscribed_once 1
           (mkPc false IceNew (Some (SubscriberEvents "alice"))
                 (Some (mkJsep "answer" "v=0 answer of the client"))
                 (Some (mkJsep "offer" "v=0 offer of the gateway")) 0)
           "alice" 0 IceFailed good_offer).
  - vm_compute. reflexivity.
  - reflexivity.
Defined.

Lemma restartIce_returns env : returns (restartIce env).
Proof.
  unfold restartIce, pc_createOffer, pc_setLocalDescription. ends_tac.
Qed.

(** [restartIce] never throws, whatever the platform and the gateway do:
    a failure is logged and swallowed. Without a peer connection or
    without a handle it only warns: no offer is created and nothing is sent. *)
Theorem restartIce_never_throws (env : OfferEnv) (c : Client) :
  result (restartIce env) c = Ok tt
  ∧ (pc c = None ∨ truthy (handleId c) = false →
     restartIce env c
     = (Ok tt,
        set_trace (trace c ++ [Log Warn "[JanusClient] Cannot restart ICE: no PC or handleId"])
                  c)).
Proof.
  split.
  - destruct (restartIce_returns env c) as [[] H]. exact H.
  - intros H. unfold restartIce. msimpl.
    destruct (pc c) as [n|]; [|done].
    destruct H as [|H]; [done|]. by rewrite H.
Qed.

Lemma restartIce_never_throws_witness :
  restartIce good_offer fresh_client
  = (Ok tt,
     set_trace (trace fresh_client
                ++ [Log Warn "[JanusClient] Cannot restart ICE: no PC or handleId"])
               fresh_client).
Proof.
  apply (restartIce_never_throws good_offer fresh_client). left. reflexivity.
Defined.

(** ** Gateway events and the poll loop *)

Lemma set_trace_nil c : set_trace (trace c ++ []) c = c.
Proof. destruct c. simpl. by rewrite app_nil_r. Qed.

Lemma handleJanusEvent_run e c :
  ∃ t, exec (handleJanusEvent e) c = set_trace (trace c ++ t) c
       ∧ forallb logs_or_notifies t = true
       ∧ result (handleJanusEvent e) c
         = if (janus e =? "event")
              && bool_decide (plugin_of e = Some "janus.plugin.videoroom")
              && match data_of e with None => true | Some _ => false end
           then Throw (TypeError "data.videoroom") else Ok tt.
Proof.
  unfold result, exec, handleJanusEvent, emit.
  destruct (String.eqb_spec (janus e) "") as [E0|E0].
  { rewrite E0. simpl. exists []. by rewrite set_trace_nil. }
  msimpl.
  destruct (String.eqb_spec (janus e) "keepalive") as [E1|E1].
  { rewrite E1. simpl. eexists. split; [by norm_trace|done]. }
  destruct (janus e =? "event"); simpl.
  - destruct (bool_decide (plugin_of e = Some "janus.plugin.videoroom")); simpl.
    + destruct (data_of e) as [d|]; simpl; [|eexists; split; [by norm_trace|done]].
      destruct (videoroom d =? "joined"); simpl;
        [eexists; split; [by norm_trace|done]|].
      destruct (videoroom d =? "attached"); simpl;
        [eexists; split; [by norm_trace|done]|].
      destruct (videoroom d =? "event"); simpl.
      { destruct (publishers d); msimpl.
        - eexists. split; [by norm_trace|done].
        - eexists. split; [by norm_trace|done]. }
      destruct (videoroom d =? "webrtcup"); simpl;
        [eexists; split; [by norm_trace|done]|].
      destruct (videoroom d =? "hangup"); msimpl;
        eexists; (split; [by norm_trace|done]).
    + eexists. split; [by norm_trace|done].
  - destruct (janus e =? "success"); simpl;
      eexists; (split; [by norm_trace|done]).
Qed.

Lemma fetches_notices t : forallb logs_or_notifies t = true → fetches t = [].
Proof.
  induction t as [|a t IH]; [done|]. simpl. intros [Ha Ht]%andb_prop.
  unfold fetches in *. simpl. destruct a; simpl in *; try discriminate; by apply IH.
Qed.

(** [handleJanusEvent] changes nothing of the client: it writes log lines
    and notifies the application with ['publishersUpdated'] and ['hangup'],
    and with nothing else; in particular it never emits ['janus']. It
    throws in one case only, a videoroom event without [data], and returns
    otherwise, also for an event of an unknown kind. *)
Theorem handleJanusEvent_only_logs_and_notifies (e : JanusEvent) (c : Client) :
  let t := appended (handleJanusEvent e) c in
  exec (handleJanusEvent e) c = set_trace (trace c ++ t) c
  ∧ forallb logs_or_notifies t = true
  ∧ result (handleJanusEvent e) c
    = if (janus e =? "event")
         && bool_decide (plugin_of e = Some "janus.plugin.videoroom")
         && match data_of e with None => true | Some _ => false end
      then Throw (TypeError "data.videoroom") else Ok tt.
Proof.
  intros t. destruct (handleJanusEvent_run e c) as (t' & Ht & Hq & Hr).
  assert (E : t = t').
  { unfold t, appended. rewrite Ht. simpl. by rewrite drop_app_length. }
  by rewrite E.
Qed.

Lemma doPoll_continues r c :
  pollActive c = true → truthy (sessionId c) = true → not_found r = false →
  let c1 := exec (doPoll r) c in
  result (doPoll r) c = Ok tt
  ∧ pollActive c1 = true
  ∧ last (trace c1) = Some (SetTimeout DoPoll 500)
  ∧ fetches (trace c1)
    = (fetches (trace c) ++ [ReqPoll (default 0 (sessionId c))])%list.
Proof.
  intros Hp Hs Hr c1. unfold c1, result, exec.
  destruct r as [e|status text json].
  - rewrite doPoll_network_error by done. simpl.
    split; [done|]. split; [done|].
    split; [apply last_app_Some; by left|]. rewrite !fetches_app; simpl; by rewrite ?app_nil_r.
  - simpl in Hr. apply Z.eqb_neq in Hr.
    destruct (resp_ok status) eqn:Hok.
    + unfold doPoll. msimpl. rewrite Hp, Hs. msimpl. rewrite Hok.
      destruct json as [e|]; msimpl.
      * match goal with
        | |- context [handleJanusEvent e ?cx] =>
            destruct (handleJanusEvent_run e cx) as (t & Ht & Hq & _);
            pose proof (handleJanusEvent_settles e cx) as Hset;
            unfold exec in Ht;
            destruct (handleJanusEvent e cx) as [[[]|err|] c2]
        end; simpl in *; [| |done]; subst c2; simpl;
          (split; [done|]); (split; [done|]);
          (split; [apply last_app_Some; by left|]);
          rewrite !fetches_app, (fetches_notices t Hq); simpl;
          by rewrite ?app_nil_r.
      * split; [done|]. split; [done|].
        split; [apply last_app_Some; by left|]. rewrite !fetches_app; simpl; by rewrite ?app_nil_r.
    + rewrite doPoll_http_error by done. simpl.
      split; [done|]. split; [done|].
      split; [apply last_app_Some; by left|]. rewrite !fetches_app; simpl; by rewrite ?app_nil_r.
Qed.

(** The poll loop goes on after anything but a 404: whatever the request
    gives (a network failure, an HTTP error, a body that is not JSON, an
    event on which [handleJanusEvent] throws, an event handled), one run
    of [doPoll] makes one request, returns, leaves the flag up and ends by
    timing the next run in 500 ms. *)
Theorem poll_continues_unless_404 (r : FetchResult JanusEvent) (c : Client) :
  pollActive c = true → truthy (sessionId c) = true → not_found r = false →
  let c1 := exec (doPoll r) c in
  result (doPoll r) c = Ok tt
  ∧ pollActive c1 = true
  ∧ last (trace c1) = Some (SetTimeout DoPoll 500)
  ∧ fetches (trace c1)
    = (fetches (trace c) ++ [ReqPoll (default 0 (sessionId c))])%list.
Proof. exact (doPoll_continues r c). Qed.

Lemma poll_continues_witness :
  last (trace (exec (doPoll (Response 200 "not json" None)) polling_client))
  = Some (SetTimeout DoPoll 500).
Proof.
  apply (poll_continues_unless_404 (Response 200 "not json" None) polling_client);
    reflexivity.
Defined.

(** ** The answer of the gateway to the publisher's offer *)

#[global] Instance keeps_unanswered_refl : Reflexive keeps_unanswered.
Proof. by intros c H. Qed.

#[global] Instance keeps_unanswered_trans : Transitive keeps_unanswered.
Proof. intros c1 c2 c3 H12 H23 H. by apply H23, H12. Qed.

Lemma core_unanswered {A} (m : M A) :
  keeps same_core m → keeps keeps_unanswered m.
Proof.
  intros Hm c H. destruct (Hm c) as [_ _ _ _ _ _ _ _ Hc].
  unfold no_answer. by rewrite Hc.
Qed.

Lemma act_unanswered a : keeps keeps_unanswered (act a).
Proof. by intros c H. Qed.

Lemma modify_unanswered f :
  (∀ c, conns (f c) = conns c) → keeps keeps_unanswered (modify f).
Proof. intros Hf c H. unfold no_answer. simpl. by rewrite Hf. Qed.

Lemma upd_conn_unanswered n g :
  (∀ x, pc_remote (g x) = pc_remote x) →
  keeps keeps_unanswered (modify (upd_conn n g)).
Proof.
  intros Hg c H. unfold no_answer in *. simpl.
  apply Forall_alter; [done|]. intros x _ Hx. by rewrite Hg.
Qed.

Lemma new_pc_unanswered r : keeps keeps_unanswered (new_pc r).
Proof.
  intros c H. unfold new_pc. destruct r as [[]|e]; [|done]. simpl.
  unfold no_answer in *. simpl. apply Forall_app. split; [done|].
  by apply Forall_singleton.
Qed.

#[global] Hint Resolve act_unanswered new_pc_unanswered : keeps.
#[global] Hint Extern 2 (keeps keeps_unanswered (log _ _)) =>
  apply act_unanswered : keeps.
#[global] Hint Extern 2 (keeps keeps_unanswered (modify (upd_conn _ _))) =>
  (apply upd_conn_unanswered; intros ?; reflexivity) : keeps.
#[global] Hint Extern 3 (keeps keeps_unanswered (modify _)) =>
  (apply modify_unanswered; intros ?; reflexivity) : keeps.
#[global] Hint Extern 5 (keeps keeps_unanswered _) =>
  (apply core_unanswered; solve [eauto with keeps]) : keeps.

Lemma restartIce_unanswered env : keeps keeps_unanswered (restartIce env).
Proof.
  unfold restartIce, pc_createOffer, pc_setLocalDescription. keeps_tac.
Qed.

#[global] Hint Resolve restartIce_unanswered : keeps.

Lemma ice_timeline_unanswered l : keeps keeps_unanswered (ice_timeline l).
Proof.
  unfold ice_timeline, ice_state_change, publisher_ice_listener,
    subscriber_ice_listener.
  keeps_tac.
Qed.

Lemma initialize_unanswered env : keeps keeps_unanswered (initialize env).
Proof.
  unfold initialize, startPolling, createRoom, joinRoom, setupPeerConnection,
    setupPeerEvents, enableLocalAudio, configurePublisher, pc_createOffer,
    pc_setLocalDescription.
  keeps_tac.
Qed.

(** The host never applies an answer of the gateway. [configurePublisher]
    sends the offer and returns while "waiting for answer", and nothing in
    [initialize], in the poll loop, in the waiters or in the ICE listeners
    and the ICE restart sets a remote description: after [initialize],
    whatever then runs on the event loop and whatever ICE states are
    reported, no connection of the client has one. *)
Theorem host_never_applies_an_answer
    (env : HostEnv) (later : list BusInput) (notices : list IceNotice)
    (c : Client) :
  no_answer c →
  no_answer (exec (ice_timeline notices)
               (exec (arrive later) (exec (initialize env) c))).
Proof.
  intros H. apply ice_timeline_unanswered.
  apply (core_unanswered _ (arrive_core later)).
  by apply initialize_unanswered.
Qed.

Lemma host_never_applies_an_answer_witness :
  no_answer (exec (ice_timeline blip)
               (exec (arrive [PollTick (Response 200 "ok" (Some keepalive))])
                  (exec (initialize host_scenario) fresh_client))).
Proof.
  apply (host_never_applies_an_answer host_scenario
           [PollTick (Response 200 "ok" (Some keepalive))] blip fresh_client).
  vm_compute. constructor.
Defined.

(** ** Joining the room *)

Lemma await_waiter_cons i a l :
  await_waiter i (a :: l)
  = bind (gets (promise_of i))
         (λ p, match p with
               | Fulfilled e => ret e
               | Rejected err => throw err
               | Pending => bind (bus_step a) (λ _, await_waiter i l)
               end).
Proof. reflexivity. Qed.

Lemma await_fulfilled i l c w e :
  waiters c !! i = Some w → w_promise w = Fulfilled e →
  await_waiter i l c = (Ok e, c).
Proof.
  intros Hw Hp. destruct l as [|a l].
  - unfold await_waiter. unfold bind at 1. simpl.
    by rewrite (promise_of_lookup _ _ _ Hw), Hp.
  - rewrite await_waiter_cons. unfold bind at 1. simpl.
    by rewrite (promise_of_lookup _ _ _ Hw), Hp.
Qed.

Lemma bus_step_waiters a c :
  no_timeout a = true →
  waiters (exec (bus_step a) c)
  = match a with
    | Emitted e => deliver e <$> waiters c
    | _ => waiters c
    end.
Proof.
  intros Ha. destruct a as [r|e|j]; simpl in *; [| |done].
  - apply (doPoll_waiters r c).
  - apply emit_janus_waiters.
Qed.

Lemma arrive_cons a l c :
  arrive (a :: l) c = arrive l (exec (bus_step a) c).
Proof.
  unfold arrive at 1. simpl for_each. unfold bind, exec.
  destruct (bus_step_returns a c) as [[] Hr].
  destruct (bus_step a c) as [r c1]. simpl in *. by subst r.
Qed.

Lemma arrive_waiters l c i :
  forallb no_timeout l = true →
  waiters (exec (arrive l) c) !! i
  = (λ w, foldl (λ w e, deliver e w) w (emitted l)) <$> waiters c !! i.
Proof.
  revert c. induction l as [|a l IH]; intros c Hl.
  - unfold exec. simpl. by destruct (waiters c !! i).
  - simpl in Hl. apply andb_prop in Hl as [Ha Hl].
    unfold exec. rewrite arrive_cons. fold (exec (arrive l) (exec (bus_step a) c)).
    rewrite (IH _ Hl), (bus_step_waiters a c Ha).
    destruct a as [r|e|j]; simpl; [done| |done].
    rewrite list_lookup_fmap. by destruct (waiters c !! i).
Qed.

Lemma first_match_app P l1 l2 :
  first_match P (l1 ++ l2)
  = match first_match P l1 with
    | Some e => Some e
    | None => first_match P l2
    end.
Proof.
  unfold first_match. induction l1 as [|e l1 IH]; [done|].
  simpl. by destruct (P e).
Qed.

Lemma emitted_app l1 l2 : emitted (l1 ++ l2) = (emitted l1 ++ emitted l2)%list.
Proof. apply omap_app. Qed.

(** Awaiting a waiter that is as it was registered: the first event
    published on ['janus'] that satisfies its predicate, or its timeout. *)
Lemma await_fresh i l c P t d :
  waiters c !! i = Some (fresh_waiter P t d) →
  forallb no_timeout l = true →
  result (await_waiter i l) c
  = match first_match P (emitted l) with
    | Some e => Ok e
    | None => Throw (timeout_error d)
    end.
Proof.
  revert c. induction l as [|a l IH]; intros c Hw Hl.
  - by apply (await_timeout i c _ Hw).
  - simpl in Hl. apply andb_prop in Hl as [Ha Hl].
    unfold result. rewrite await_waiter_cons. unfold bind at 1. simpl.
    rewrite (promise_of_lookup _ _ _ Hw). simpl.
    unfold bind at 1.
    destruct (bus_step_returns a c) as [[] Hr].
    pose proof (bus_step_waiters a c Ha) as Hx. unfold exec in Hx.
    destruct (bus_step a c) as [o c'] eqn:Hc. simpl in Hr, Hx |- *. subst o.
    destruct a as [r|e|j]; [| |done].
    + simpl. apply IH; [by rewrite Hx|done].
    + assert (Hw' : waiters c' !! i = Some (deliver e (fresh_waiter P t d)))
        by (by rewrite Hx, list_lookup_fmap, Hw).
      unfold emitted. simpl. fold (emitted l). unfold first_match. simpl.
      unfold deliver, fire in Hw'. simpl in Hw'.
      destruct (P e) eqn:HP.
      * by rewrite (await_fulfilled i l c' _ e Hw').
      * by apply IH.
Qed.

Lemma joined_predicate_data e :
  joined_predicate e = true → ∃ d, data_of e = Some d.
Proof.
  unfold joined_predicate. intros [_ H]%andb_prop.
  apply bool_decide_eq_true in H. unfold videoroom_of in H.
  destruct (data_of e) as [d|]; [by exists d|done].
Qed.

Lemma sendJanusMessage_ok h b j f c status text js :
  truthy (sessionId c) = true →
  outcome f = Response status text js → resp_ok status = true →
  sendJanusMessage h b j f c
  = (Ok tt,
     exec (arrive (during f))
       (set_trace (trace c ++ [Fetch (ReqMessage (default 0 (sessionId c)) h b j)]) c)).
Proof.
  intros Hs Ho Hok. unfold sendJanusMessage. unfold bind at 1. simpl.
  rewrite Hs. simpl. unfold try_catch. unfold bind at 1.
  rewrite fetch_run, Ho. simpl. by rewrite Hok.
Qed.

Lemma first_match_true P l e : first_match P l = Some e → P e = true.
Proof. unfold first_match. intros H. by apply find_some in H as [_ H]. Qed.

(** [joinRoom] registers its waiter before it sends the join, so that a
    joined event is caught whether it is published on ['janus'] while the
    request is in flight or afterwards. With a session and a handle, the
    request accepted and no timeout elapsing in between, the method
    returns the [id] of the first joined event published on ['janus'], and
    it throws the timeout of its waiter when there is none, whatever the
    poll loop has fetched meanwhile. *)
Theorem joinRoom_returns_first_emitted_joined_event
    (env : JoinEnv) (c : Client) (status : Z) (text : string) (js : option unit) :
  truthy (sessionId c) = true → truthy (handleId c) = true →
  outcome (je_send env) = Response status text js → resp_ok status = true →
  forallb no_timeout (during (je_send env) ++ je_joined env) = true →
  result (joinRoom env) c
  = match first_match joined_predicate
            (emitted (during (je_send env) ++ je_joined env)) with
    | Some e => Ok (data_of e ≫= data_id)
    | None => Throw (timeout_error "Host Joined Event")
    end.
Proof.
  intros Hs Hh Ho Hok Hl. rewrite forallb_app in Hl. apply andb_prop in Hl as [Hl1 Hl2].
  rewrite emitted_app, first_match_app.
  unfold result, joinRoom. unfold bind at 1. simpl. unfold bind at 1. simpl.
  rewrite Hs, Hh. simpl. unfold bind at 1. simpl.
  unfold try_catch. unfold bind at 1. rewrite waitFor_run.
  unfold bind at 1. simpl. unfold bind at 1. simpl. unfold bind at 1.
  erewrite sendJanusMessage_ok by first [exact Hs | exact Ho | exact Hok].
  cbn [sessionId set_trace set_waiters].
  match goal with
  | |- context [exec (arrive ?l) ?cx] =>
      pose proof (arrive_waiters l cx (length (waiters c)) Hl1) as Hw;
      set (c2 := exec (arrive l) cx) in *
  end.
  cbn [waiters set_trace set_waiters] in Hw.
  rewrite list_lookup_middle in Hw by done. simpl in Hw.
  rewrite foldl_deliver_fresh in Hw.
  destruct (first_match joined_predicate (emitted (during (je_send env))))
    as [e|] eqn:Hfm.
  - unfold bind at 1. rewrite (await_fulfilled _ _ c2 _ e Hw eq_refl).
    destruct (joined_predicate_data e (first_match_true _ _ _ Hfm)) as [d Hd].
    rewrite Hd. by simpl.
  - pose proof (await_fresh _ (je_joined env) c2 _ _ _ Hw Hl2) as Hr.
    unfold result in Hr. unfold bind at 1.
    destruct (await_waiter _ (je_joined env) c2) as [o c3]. simpl in Hr. subst o.
    destruct (first_match joined_predicate (emitted (je_joined env)))
      as [e|] eqn:Hfm2; [|done].
    destruct (joined_predicate_data e (first_match_true _ _ _ Hfm2)) as [d Hd].
    rewrite Hd. by simpl.
Qed.

Lemma joinRoom_witness :
  result (joinRoom (mkJoinEnv
                      (mkFetched [PollTick (Response 200 "ok" (Some joined_event));
                                  Emitted joined_event]
                                 (Response 200 "ok" None))
                      [Emitted keepalive]))
         polling_client
  = Ok (Some 7).
Proof.
  apply (joinRoom_returns_first_emitted_joined_event
           (mkJoinEnv
              (mkFetched [PollTick (Response 200 "ok" (Some joined_event));
                          Emitted joined_event]
                         (Response 200 "ok" None))
              [Emitted keepalive])
           polling_client 200 "ok" None); reflexivity.
Defined.

(** ** Replacing the publisher's connection *)

(** [setupPeerConnection] does not close the connection it replaces: after
    a second call [this.pc] is the new connection, and the previous one is
    as it was, open, and no longer reachable from the client, so that a
    later [stop] does not close it either. *)
Theorem setupPeerConnection_leaves_prior_open
    (c : Client) (n : nat) (x : PeerConnection) (closes : nat → Call unit) :
  pc c = Some n → conns c !! n = Some x →
  (∀ user sub, subscribers c !! user = Some sub → sub_pc sub ≠ n) →
  let c1 := exec (setupPeerConnection (Returns tt)) c in
  pc c1 = Some (length (conns c))
  ∧ conns c1 !! n = Some x
  ∧ (ClosePc n ∉ appended (setupPeerConnection (Returns tt)) c)
  ∧ ¬ held c1 n
  ∧ conns (exec (stop closes) c1) !! n = Some x.
Proof.
  intros Hp Hx Hsub c1.
  assert (Hlt : (n < length (conns c))%nat) by (by eapply lookup_lt_Some).
  assert (Ec : conns c1
               = alter (with_events PublisherEvents) (length (conns c))
                   (conns c ++ [mkPc false IceNew None None None 0])%list)
    by reflexivity.
  assert (Et : trace c1
               = ((trace c ++
                   [Log Debug "[JanusClient] Setting up peer connection with ICE servers:"])
                  ++ [NewPc (length (conns c))])%list)
    by reflexivity.
  assert (Ep : pc c1 = Some (length (conns c))) by reflexivity.
  assert (Es : subscribers c1 = subscribers c) by reflexivity.
  assert (H1 : conns c1 !! n = Some x).
  { rewrite Ec. rewrite list_lookup_alter_ne by lia. by rewrite lookup_app_l. }
  assert (Hh : ¬ held c1 n).
  { intros [(user & sub & Hl & Hn)|Hn].
    - rewrite Es in Hl. by apply (Hsub user sub Hl).
    - rewrite Ep in Hn. injection Hn as Hn. lia. }
  split; [done|]. split; [done|]. split.
  { unfold appended. fold c1. rewrite Et, <- app_assoc, drop_app_length.
    intros H. apply elem_of_cons in H as [H|H]; [done|].
    apply elem_of_cons in H as [H|H]; [done|]. by apply elem_of_nil in H. }
  split; [done|].
  unfold exec. rewrite stop_run. cbn [snd stopped conns].
  rewrite close_all_not_in; [done|].
  intros Hin. apply Hh. by apply elem_of_held_list.
Qed.

Lemma setupPeerConnection_witness :
  conns (exec (stop always_closes)
           (exec (setupPeerConnection (Returns tt)) publishing_client)) !! 0%nat
  = Some (mkPc false IceNew (Some PublisherEvents) None None 0).
Proof.
  apply (setupPeerConnection_leaves_prior_open publishing_client 0
           (mkPc false IceNew (Some PublisherEvents) None None 0) always_closes).
  - reflexivity.
  - reflexivity.
  - intros user sub H. vm_compute in H. discriminate.
Defined.

(** ** Who is subscribed to *)

Lemma createSession_no_call f : keeps (adds no_call) (createSession f).
Proof. unfold createSession. keeps_tac. Qed.

#[global] Hint Resolve createSession_no_call : keeps.

Lemma new_pc_no_call r : keeps (adds no_call) (new_pc r).
Proof. unfold new_pc. keeps_tac. Qed.

#[global] Hint Resolve new_pc_no_call : keeps.

Lemma guest_join_no_call uuid env : keeps (adds no_call) (guest_join uuid env).
Proof.
  unfold guest_join, startPolling, setupPeerConnection, setupPeerEvents,
    enableLocalAudio, configurePublisher, pc_createOffer, pc_setLocalDescription.
  keeps_tac.
Qed.

Lemma initialize_no_call env : keeps (adds no_call) (initialize env).
Proof.
  unfold initialize, startPolling, createRoom, joinRoom, setupPeerConnection,
    setupPeerEvents, enableLocalAudio, configurePublisher, pc_createOffer,
    pc_setLocalDescription.
  keeps_tac.
Qed.

(** The host path subscribes to nobody: whatever the gateway answers and
    whatever is published meanwhile, [initialize] never calls
    [subscribeSpeaker]. *)
Theorem host_subscribes_to_nobody (env : HostEnv) (c : Client) :
  calls (trace (exec (initialize env) c)) = calls (trace c).
Proof.
  destruct (initialize_no_call env c) as (t & Ht & Hq).
  unfold exec. rewrite Ht, calls_app, (calls_no_call t Hq). apply app_nil_r.
Qed.

(** The guest path subscribes only after it has joined, and only to the
    publishers its join has given: for any gateway and any platform, the
    calls of [subscribeSpeaker] made by [initializeGuestSpeaker] are one
    for each publisher returned by the steps before (session, handle,
    join, local connection, ["configure"]), in order, and none at all when
    one of these steps fails. *)
Theorem guest_subscribes_only_after_joining
    (uuid : string) (env : GuestEnv) (c : Client) :
  calls (trace (exec (initializeGuestSpeaker uuid env) c))
  = (calls (trace c)
     ++ match result (guest_join uuid env) (guest_entered c) with
        | Ok pubs => (λ p, (pub_display p, pub_id p)) <$> pubs
        | _ => []
        end)%list.
Proof.
  destruct (guest_join_no_call uuid env (guest_entered c)) as (t & Ht & Hq).
  assert (Hc : calls (trace (guest_join uuid env (guest_entered c)).2) = calls (trace c)).
  { rewrite Ht, calls_app, (calls_no_call t Hq). simpl. rewrite calls_app. simpl.
    by rewrite !app_nil_r. }
  unfold result.
  destruct (guest_join uuid env (guest_entered c)) as [[pubs|e|] c1] eqn:Hj;
    simpl in Hc |- *.
  - unfold exec. rewrite (initializeGuestSpeaker_run _ _ _ _ _ Hj). simpl.
    rewrite calls_app. simpl. rewrite app_nil_r.
    change (calls (trace (exec (subscribe_all 0 pubs (ge_subscribe env)) c1))
            = (calls (trace c) ++ ((λ p, (pub_display p, pub_id p)) <$> pubs))%list).
    by rewrite subscribe_all_calls, Hc.
  - unfold exec, initializeGuestSpeaker. unfold bind at 1. simpl.
    fold (guest_entered c). unfold try_catch, guest_steps. unfold bind at 1.
    rewrite Hj. unfold bind at 1. simpl. unfold bind at 1.
    rewrite emit_error_run. simpl.
    destruct (bool_decide _); simpl; rewrite !calls_app, Hc; simpl;
      by rewrite !app_nil_r.
  - unfold exec, initializeGuestSpeaker. unfold bind at 1. simpl.
    fold (guest_entered c). unfold try_catch, guest_steps. unfold bind at 1.
    rewrite Hj. simpl. by rewrite Hc, app_nil_r.
Qed.

(** ** A failed initialisation *)

Section Polling.
Context (sid hid : Z).

#[global] Instance keeps_polling_refl : Reflexive (keeps_polling sid hid).
Proof. by intros c H. Qed.

#[global] Instance keeps_polling_trans : Transitive (keeps_polling sid hid).
Proof. intros c1 c2 c3 H12 H23 H. by apply H23, H12. Qed.

Lemma act_polling a : keeps (keeps_polling sid hid) (act a).
Proof.
  intros c (Hs & Hh & Hp). repeat split; try done. simpl.
  destruct Hp as [Hp|Hp]; [by left|right]. apply elem_of_app. by left.
Qed.

Lemma modify_polling f :
  (∀ c, sessionId (f c) = sessionId c ∧ handleId (f c) = handleId c
        ∧ pollActive (f c) = pollActive c ∧ trace (f c) = trace c) →
  keeps (keeps_polling sid hid) (modify f).
Proof.
  intros Hf c (Hs & Hh & Hp). destruct (Hf c) as (E1 & E2 & E3 & E4).
  unfold polling. simpl. by rewrite E1, E2, E3, E4.
Qed.

Lemma doPoll_polling r : keeps (keeps_polling sid hid) (doPoll r).
Proof.
  intros c (Hs & Hh & Hp).
  destruct (doPoll_core r c) as [_ Es Eh _ _ _ _ _ _].
  split; [congruence|]. split; [congruence|].
  destruct (pollActive c) eqn:Ha.
  - destruct (truthy (sessionId c)) eqn:Ht.
    + destruct (not_found r) eqn:Hn.
      * destruct r as [e|status text json]; [done|]. simpl in Hn.
        apply Z.eqb_eq in Hn. subst status. rewrite doPoll_not_found by done.
        right. simpl. apply elem_of_app. right.
        do 3 (apply elem_of_cons; right). apply elem_of_cons. by left.
      * left. by apply (doPoll_continues r c).
    + left. unfold doPoll. msimpl. by rewrite Ha, Ht.
  - destruct Hp as [Hp|Hp]; [done|]. rewrite doPoll_inactive by done.
    right. simpl. apply elem_of_app. by left.
Qed.

End Polling.

#[global] Hint Extern 2 (keeps (keeps_polling _ _) (act _)) =>
  apply act_polling : keeps.
#[global] Hint Extern 2 (keeps (keeps_polling _ _) (log _ _)) =>
  apply act_polling : keeps.
#[global] Hint Extern 2 (keeps (keeps_polling _ _) (modify _)) =>
  (apply modify_polling; intros ?; repeat split; reflexivity) : keeps.
#[global] Hint Resolve doPoll_polling : keeps.

Lemma eventHandler_polling sid hid i e :
  keeps (keeps_polling sid hid) (eventHandler i e).
Proof. unfold eventHandler, clearTimeout, removeListener, resolve. keeps_tac. Qed.

#[global] Hint Resolve eventHandler_polling : keeps.

Lemma emit_polling sid hid name p : keeps (keeps_polling sid hid) (emit name p).
Proof. unfold emit. keeps_tac. Qed.

Lemma timeout_fires_polling sid hid i :
  keeps (keeps_polling sid hid) (timeout_fires i).
Proof. unfold timeout_fires, reject. keeps_tac. Qed.

Lemma waitFor_polling sid hid P t d :
  keeps (keeps_polling sid hid) (waitForJanusEventWithPredicate P t d).
Proof. unfold waitForJanusEventWithPredicate. keeps_tac. Qed.

#[global] Hint Resolve emit_polling timeout_fires_polling waitFor_polling : keeps.

Lemma bus_step_polling sid hid a : keeps (keeps_polling sid hid) (bus_step a).
Proof. destruct a; simpl; keeps_tac. Qed.

#[global] Hint Resolve bus_step_polling : keeps.

Lemma arrive_polling sid hid l : keeps (keeps_polling sid hid) (arrive l).
Proof. unfold arrive. keeps_tac. Qed.

#[global] Hint Resolve arrive_polling : keeps.

Lemma await_waiter_polling sid hid i l :
  keeps (keeps_polling sid hid) (await_waiter i l).
Proof.
  induction l as [|a l IH]; unfold await_waiter; fold await_waiter; keeps_tac.
Qed.

Lemma fetch_polling {B} sid hid req (f : Fetched B) :
  keeps (keeps_polling sid hid) (fetch req f).
Proof. unfold fetch. keeps_tac. Qed.

#[global] Hint Resolve await_waiter_polling fetch_polling : keeps.

Lemma sendJanusMessage_polling sid hid h b j f :
  keeps (keeps_polling sid hid) (sendJanusMessage h b j f).
Proof. unfold sendJanusMessage. keeps_tac. Qed.

Lemma new_pc_polling sid hid r : keeps (keeps_polling sid hid) (new_pc r).
Proof. unfold new_pc. keeps_tac. Qed.

#[global] Hint Resolve sendJanusMessage_polling new_pc_polling : keeps.

Lemma createSession_success f c status text json :
  outcome f = Response status text (Some json) → resp_ok status = true →
  env_janus json = "success" →
  createSession f c
  = (Ok (env_data_id json),
     set_trace (trace (exec (fetch ReqCreateSession f) c)
                ++ [Log Debug "[JanusClient] Session created, ID:"])
               (exec (fetch ReqCreateSession f) c)).
Proof.
  intros Ho Hok Hj. destruct (fetch_split ReqCreateSession f c) as [Hr _].
  unfold createSession, try_catch. unfold bind at 1. rewrite Hr, Ho. simpl.
  rewrite Hok. simpl. by rewrite Hj.
Qed.

Lemma attachPlugin_success f c status text json :
  truthy (sessionId c) = true →
  outcome f = Response status text (Some json) → resp_ok status = true →
  env_janus json = "success" →
  attachPlugin f c
  = (Ok (env_data_id json),
     set_trace (trace (exec (fetch (ReqAttach (default 0 (sessionId c))) f) c)
                ++ [Log Debug "[JanusClient] Plugin attached, handle ID:"])
               (exec (fetch (ReqAttach (default 0 (sessionId c))) f) c)).
Proof.
  intros Hs Ho Hok Hj.
  destruct (fetch_split (ReqAttach (default 0 (sessionId c))) f c) as [Hr _].
  unfold attachPlugin. unfold bind at 1. simpl. rewrite Hs. simpl.
  unfold try_catch. unfold bind at 1. rewrite Hr, Ho. simpl.
  rewrite Hok. simpl. by rewrite Hj.
Qed.

Lemma host_rest_polling sid hid env :
  keeps (keeps_polling sid hid)
    (bind (startPolling (he_firstPoll env))
       (λ _, bind (createRoom (he_createRoom env))
          (λ _, bind (joinRoom (he_join env))
             (λ pid, bind (modify (set_publisherId pid))
                (λ _, bind (setupPeerConnection (he_newPc env))
                   (λ _, bind (enableLocalAudio (he_audio env))
                      (λ _, bind (configurePublisher "" (he_configure env))
                         (λ _, log Info "[JanusClient] Initialization complete")))))))).
Proof.
  unfold startPolling, createRoom, joinRoom, setupPeerConnection,
    setupPeerEvents, enableLocalAudio, configurePublisher, pc_createOffer,
    pc_setLocalDescription.
  keeps_tac.
Qed.

(** [initialize] does not clean up after a failure. Once the session is
    created and the handle attached, whatever the later steps do (the room
    refused, the join timing out, the platform throwing), and whether the
    method returns or throws, the client is left with its session and its
    handle set and with the poll loop running; the loop only ends if the
    gateway answers 404 to a poll. *)
Theorem failed_initialize_keeps_polling
    (env : HostEnv) (c : Client) (sid hid : Z)
    (s1 s2 : Z) (t1 t2 : string) :
  outcome (he_createSession env) = Response s1 t1 (Some (mkEnvelope "success" sid)) →
  resp_ok s1 = true →
  outcome (he_attach env) = Response s2 t2 (Some (mkEnvelope "success" hid)) →
  resp_ok s2 = true →
  sid ≠ 0 →
  let c' := exec (initialize env) c in
  sessionId c' = Some sid ∧ handleId c' = Some hid
  ∧ (pollActive c' = true ∨ session_lost ∈ trace c').
Proof.
  intros Ho1 Hk1 Ho2 Hk2 Hsid c'.
  change (polling sid hid c'). unfold c'.
  unfold exec, initialize. unfold bind at 1. simpl. unfold try_catch.
  unfold bind at 1.
  erewrite createSession_success by first [exact Ho1|exact Hk1|reflexivity].
  unfold bind at 1. simpl. unfold bind at 1.
  erewrite attachPlugin_success;
    [|simpl; apply Z.eqb_neq in Hsid; by rewrite Hsid|exact Ho2|exact Hk2|reflexivity].
  unfold bind at 1. simpl. unfold bind at 1. simpl.
  match goal with
  | |- context [bind (startPolling ?r) ?k ?c3] =>
      pose proof (host_rest_polling sid hid env c3) as Hrest;
      set (cx := c3) in *;
      assert (Hcx : polling sid hid cx)
  end.
  { unfold cx. split; [|by split; [|left]]. simpl.
    match goal with
    | |- sessionId (exec (fetch ?req ?f) ?c0) = _ =>
        destruct (fetch_core req f c0) as [_ Es _ _ _ _ _ _ _]
    end.
    exact Es. }
  specialize (Hrest Hcx).
  match type of Hrest with
  | polling _ _ (?m cx).2 => destruct (m cx) as [[a|e|] c4]
  end; simpl in Hrest |- *; [done| |done].
  unfold bind at 1. simpl. unfold bind at 1. rewrite emit_error_run. simpl.
  assert (Hc4 : polling sid hid
                  (set_trace
                     ((trace c4 ++ [Log Error "[JanusClient] Initialization failed:"])
                      ++ [Emit "error"
                            (PErr (Wrapped "[JanusClient] Initialization failed" e))])
                     (set_trace
                        (trace c4 ++ [Log Error "[JanusClient] Initialization failed:"])
                        c4))).
  { destruct Hrest as (H1 & H2 & H3). split; [done|]. split; [done|].
    destruct H3 as [H3|H3]; [by left|right]. simpl.
    apply elem_of_app. left. apply elem_of_app. by left. }
  by destruct (bool_decide _).
Qed.

Lemma failed_initialize_witness :
  result (initialize roomless_host) fresh_client
  = Throw (Http "[JanusClient] Room creation failed" 500 "no room")
  ∧ sessionId (exec (initialize roomless_host) fresh_client) = Some 100
  ∧ handleId (exec (initialize roomless_host) fresh_client) = Some 200
  ∧ (pollActive (exec (initialize roomless_host) fresh_client) = true
     ∨ session_lost ∈ trace (exec (initialize roomless_host) fresh_client)).
Proof.
  split; [vm_compute; reflexivity|].
  apply (failed_initialize_keeps_polling roomless_host fresh_client 100 200
           200 200 "" "").
  - reflexivity.
  - reflexivity.
  - reflexivity.
  - reflexivity.
  - lia.
Defined.

(** ** The guest path and the events of the gateway *)

Lemma arrive_polls_waiters l c :
  waiters (exec (arrive (PollTick <$> l)) c) = waiters c.
Proof.
  revert c. induction l as [|r l IH]; intros c; [done|].
  unfold exec. rewrite fmap_cons, arrive_cons.
  change (waiters (exec (arrive (PollTick <$> l)) (exec (bus_step (PollTick r)) c))
          = waiters c).
  rewrite IH. apply (doPoll_waiters r c).
Qed.

(** With the gateway accepting every request and its events coming back
    from the long poll, the join of the guest ends in the timeout of its
    waiter. *)
Lemma guest_join_polled uuid env c sid hid s1 t1 s2 t2 s3 t3 js polled1 polled2 :
  outcome (ge_createSession env) = Response s1 t1 (Some (mkEnvelope "success" sid)) →
  resp_ok s1 = true → sid ≠ 0 →
  outcome (ge_attach env) = Response s2 t2 (Some (mkEnvelope "success" hid)) →
  resp_ok s2 = true →
  outcome (ge_join env) = Response s3 t3 js → resp_ok s3 = true →
  during (ge_join env) = PollTick <$> polled1 →
  ge_joined env = PollTick <$> polled2 →
  ∃ c1, guest_join uuid env c
        = (Throw (timeout_error "Guest Speaker joined event"), c1)
        ∧ listeners c1 = listeners c.
Proof.
  intros Ho1 Hk1 Hsid Ho2 Hk2 Ho3 Hk3 Hd Hj.
  apply Z.eqb_neq in Hsid.
  unfold guest_join. unfold bind at 1.
  erewrite createSession_success by first [exact Ho1|exact Hk1|reflexivity].
  unfold bind at 1. simpl. unfold bind at 1.
  erewrite attachPlugin_success;
    [|simpl; by rewrite Hsid|exact Ho2|exact Hk2|reflexivity].
  unfold bind at 1. simpl. unfold bind at 1. simpl.
  unfold bind at 1. unfold startPolling. unfold bind at 1. simpl.
  match goal with
  | |- context [doPoll ?r ?c3] =>
      assert (Hs3 : sessionId c3 = Some sid);
      [|assert (Hl3 : listeners c3 = listeners c);
        [|set (cx := c3) in *]]
  end.
  { simpl.
    match goal with
    | |- sessionId (exec (fetch ?req ?f) ?c0) = _ =>
        destruct (fetch_core req f c0) as [_ Es _ _ _ _ _ _ _]
    end.
    exact Es. }
  { simpl. rewrite fetch_listeners. simpl. by rewrite fetch_listeners. }
  clearbody cx.
  destruct (doPoll_returns (ge_firstPoll env) cx) as [[] Hr].
  destruct (doPoll_core (ge_firstPoll env) cx) as [_ Es4 _ _ _ _ _ El4 _].
  destruct (doPoll (ge_firstPoll env) cx) as [o c4]. simpl in Hr, Es4, El4.
  subst o. rewrite Hs3 in Es4. rewrite Hl3 in El4. clear Hs3 Hl3.
  unfold bind at 1. rewrite waitFor_run.
  unfold bind at 1. simpl. unfold bind at 1.
  erewrite sendJanusMessage_ok;
    [|simpl; rewrite Es4; simpl; by rewrite Hsid|exact Ho3|exact Hk3].
  rewrite Hd, Hj.
  match goal with
  | |- context [exec (arrive (PollTick <$> polled1)) ?c5] =>
      pose proof (arrive_polls_waiters polled1 c5) as Hw;
      assert (El6 : listeners (exec (arrive (PollTick <$> polled1)) c5) = listeners c5)
        by (by destruct (arrive_core (PollTick <$> polled1) c5));
      set (c6 := exec (arrive (PollTick <$> polled1)) c5) in *
  end.
  cbn [waiters listeners set_trace set_waiters] in Hw, El6.
  assert (Hw6 : waiters c6 !! length (waiters c4)
                = Some (fresh_waiter joined_predicate 10000 "Guest Speaker joined event")).
  { rewrite Hw. by apply list_lookup_middle. }
  pose proof (await_only_polls _ polled2 c6 _ Hw6 eq_refl eq_refl) as Hr.
  destruct (await_waiter_core (length (waiters c4)) (PollTick <$> polled2) c6)
    as [_ _ _ _ _ _ _ El7 _].
  unfold result in Hr. unfold bind at 1.
  destruct (await_waiter (length (waiters c4)) (PollTick <$> polled2) c6) as [o c7].
  simpl in Hr, El7. subst o. exists c7. split; [done|].
  by rewrite El7, El6, El4.
Qed.

(** C9 (defect of the code). In the guest path the joined event never
    triggers a subscription. The event reaches the client through the poll
    loop, which hands it to [handleJanusEvent]; that method does not
    publish it on ['janus'], so the waiter of [initializeGuestSpeaker]
    never sees it. With the gateway accepting every request and whatever
    events it delivers, among them a joined event that carries
    [{display: "alice", id: 55}], the initialisation throws the timeout of
    the waiter (wrapped by the emitter when nobody listens to ['error'])
    and [subscribeSpeaker] is not called at all. *)
Theorem guest_join_event_never_triggers_a_subscription
    (uuid : string) (env : GuestEnv) (c : Client) (sid hid : Z)
    (s1 s2 s3 : Z) (t1 t2 t3 : string) (js : option unit)
    (polled1 polled2 : list (FetchResult JanusEvent)) :
  outcome (ge_createSession env) = Response s1 t1 (Some (mkEnvelope "success" sid)) →
  resp_ok s1 = true → sid ≠ 0 →
  outcome (ge_attach env) = Response s2 t2 (Some (mkEnvelope "success" hid)) →
  resp_ok s2 = true →
  outcome (ge_join env) = Response s3 t3 js → resp_ok s3 = true →
  during (ge_join env) = PollTick <$> polled1 →
  ge_joined env = PollTick <$> polled2 →
  let c' := exec (initializeGuestSpeaker uuid env) c in
  result (initializeGuestSpeaker uuid env) c
  = Throw (rethrown "[JanusClient] Guest speaker initialization failed" c
             (timeout_error "Guest Speaker joined event"))
  ∧ calls (trace c') = calls (trace c).
Proof.
  intros Ho1 Hk1 Hsid Ho2 Hk2 Ho3 Hk3 Hd Hj c'.
  destruct (guest_join_polled uuid env (guest_entered c) sid hid s1 t1 s2 t2 s3 t3
              js polled1 polled2 Ho1 Hk1 Hsid Ho2 Hk2 Ho3 Hk3 Hd Hj)
    as (c1 & Hg & Hl).
  destruct (guest_join_no_call uuid env (guest_entered c)) as (t & Ht & Hq).
  rewrite Hg in Ht. simpl in Ht, Hl.
  assert (Hc : calls (trace c1) = calls (trace c)).
  { rewrite Ht, !calls_app, (calls_no_call t Hq). simpl. by rewrite !app_nil_r. }
  assert (E : initializeGuestSpeaker uuid env c
              = (Throw (rethrown "[JanusClient] Guest speaker initialization failed" c
                          (timeout_error "Guest Speaker joined event")),
                 set_trace
                   (trace c1 ++
                    [Log Error "[JanusClient] Guest speaker initialization failed:";
                     Emit "error"
                       (PErr (Wrapped "[JanusClient] Guest speaker initialization failed"
                                (timeout_error "Guest Speaker joined event")))])
                   c1)).
  { unfold initializeGuestSpeaker. unfold bind at 1. simpl.
    fold (guest_entered c). unfold try_catch, guest_steps. unfold bind at 1.
    rewrite Hg. unfold bind at 1. simpl. unfold bind at 1.
    rewrite emit_error_run. simpl. rewrite Hl. unfold rethrown.
    destruct (bool_decide ("error" ∈ listeners c)); simpl; by norm_trace. }
  unfold c', result, exec. rewrite E. simpl. split; [done|].
  rewrite calls_app, Hc. simpl. by rewrite app_nil_r.
Qed.

Lemma guest_join_event_witness :
  result (initializeGuestSpeaker "uuid"
            (polled_guest joined_event (λ _, subscription 300 false)))
         fresh_client
  = Throw (timeout_error "Guest Speaker joined event")
  ∧ calls (trace (exec (initializeGuestSpeaker "uuid"
                          (polled_guest joined_event (λ _, subscription 300 false)))
                       fresh_client))
    = [].
Proof.
  apply (guest_join_event_never_triggers_a_subscription "uuid"
           (polled_guest joined_event (λ _, subscription 300 false)) fresh_client
           100 200 200 200 200 "" "" "" None []
           [Response 200 "ok" (Some joined_event)]).
  - reflexivity.
  - reflexivity.
  - lia.
  - reflexivity.
  - reflexivity.
  - reflexivity.
  - reflexivity.
  - reflexivity.
  - reflexivity.
Defined.
